(** * convert_video_to_av1: a shallow embedding and its verified properties

    The repository holds one Go program in two variants:
    - the _generic_ variant walks [BasePath] and writes every result into
      [OutputPath];
    - the _filtered_ variant walks only the [yyyymmdd] children of [BasePath],
      probes every file with ffprobe and writes next to the input.

    Go strings are byte strings and are modelled by [string]; the functions of
    the Go standard library that the program calls ([unicode/utf8], [unicode],
    [strings], [path/filepath] for Unix targets, [regexp], [filepath.WalkDir],
    [os/exec]) are modelled first, then the two variants, then the
    theorems. *)

From Stdlib Require Import ZArith Lia Ascii String List Bool.
From stdpp Require Import base option list strings gmap.

Set Warnings "-register-all".

Local Open Scope Z_scope.
Local Open Scope nat_scope.

(** ** Go strings *)

Definition chars (s : string) : list ascii := String.list_ascii_of_string s.
Definition str (l : list ascii) : string := String.string_of_list_ascii l.

Definition ascii_eqb (a b : ascii) : bool := Ascii.eqb a b.

Definition is_digit (c : ascii) : bool :=
  let n := nat_of_ascii c in (48 <=? n) && (n <=? 57).

(** The white space of the ASCII table: tab, LF, VT, FF, CR and space. *)
Definition is_space (c : ascii) : bool :=
  let n := nat_of_ascii c in ((9 <=? n) && (n <=? 13)) || (n =? 32).

(** ** unicode/utf8

    A rune is Go's [int32] and is modelled by [Z]; a byte of a string is an
    [ascii].  Go writes the decoder with masks and shifts; on bytes
    [b & 0x3F] is [b mod 64] and [x << 6 | y] is [x * 64 + y], which is how it
    is written here. *)

Module utf8.

Definition RuneError : Z := 65533.
Definition RuneSelf : Z := 128.
Definition MaxRune : Z := 1114111.

Definition byte (c : ascii) : Z := Z.of_N (N_of_ascii c).
Definition of_byte (b : Z) : ascii := ascii_of_N (Z.to_N b).

Definition between (lo hi b : Z) : bool := ((lo <=? b) && (b <=? hi))%Z.

(** A continuation byte lies in 0x80..0xBF. *)
Definition continuation (b : Z) : bool := between 128 191 b.

(** [utf8.RuneStart]: not a continuation byte. *)
Definition RuneStart (b : Z) : bool := negb (continuation b).

(** [utf8.DecodeRuneInString]: the first rune of [s] and its width in bytes.
    Text that is not the shortest UTF-8 form of a rune, a surrogate half or a
    rune above [MaxRune] gives [RuneError] and the width 1; so does a sequence
    that the end of [s] cuts short. *)
Definition DecodeRune (s : list ascii) : Z * nat :=
  match s with
  | [] => (RuneError, 0)
  | c0 :: rest =>
      let s0 := byte c0 in
      if (s0 <? RuneSelf)%Z then (s0, 1)
      else if between 194 223 s0 then
        match rest with
        | c1 :: _ =>
            let s1 := byte c1 in
            if continuation s1
            then (((s0 mod 32) * 64 + s1 mod 64)%Z, 2)
            else (RuneError, 1)
        | _ => (RuneError, 1)
        end
      else if between 224 239 s0 then
        match rest with
        | c1 :: c2 :: _ =>
            let s1 := byte c1 in
            let s2 := byte c2 in
            let lo := if (s0 =? 224)%Z then 160%Z else 128%Z in
            let hi := if (s0 =? 237)%Z then 159%Z else 191%Z in
            if between lo hi s1 && continuation s2
            then (((s0 mod 16) * 4096 + (s1 mod 64) * 64 + s2 mod 64)%Z, 3)
            else (RuneError, 1)
        | _ => (RuneError, 1)
        end
      else if between 240 244 s0 then
        match rest with
        | c1 :: c2 :: c3 :: _ =>
            let s1 := byte c1 in
            let s2 := byte c2 in
            let s3 := byte c3 in
            let lo := if (s0 =? 240)%Z then 144%Z else 128%Z in
            let hi := if (s0 =? 244)%Z then 143%Z else 191%Z in
            if between lo hi s1 && continuation s2 && continuation s3
            then (((s0 mod 8) * 262144 + (s1 mod 64) * 4096 +
                   (s2 mod 64) * 64 + s3 mod 64)%Z, 4)
            else (RuneError, 1)
        | _ => (RuneError, 1)
        end
      else (RuneError, 1)
  end.

(** The runes of a [for range] loop over the string: every byte that starts
    no valid sequence is one [RuneError]. *)
Fixpoint runes (s : list ascii) : list Z :=
  match s with
  | [] => []
  | _ :: s1 =>
      let '(r, size) := DecodeRune s in
      r :: match size, s1 with
           | 2, _ :: s2 => runes s2
           | 3, _ :: _ :: s3 => runes s3
           | 4, _ :: _ :: _ :: s4 => runes s4
           | _, _ => runes s1
           end
  end.

(** [utf8.AppendRune]: a rune that is no Unicode scalar value is written as
    [RuneError]. *)
Definition EncodeRune (r : Z) : list ascii :=
  if ((0 <=? r) && (r <? RuneSelf))%Z then [of_byte r]
  else if ((0 <=? r) && (r <=? 2047))%Z then
    [of_byte (192 + r / 64); of_byte (128 + r mod 64)]
  else if ((r <? 0) || (MaxRune <? r) || between 55296 57343 r)%Z then
    [of_byte 239; of_byte 191; of_byte 189]
  else if (r <=? 65535)%Z then
    [of_byte (224 + r / 4096); of_byte (128 + (r / 64) mod 64);
     of_byte (128 + r mod 64)]
  else
    [of_byte (240 + r / 262144); of_byte (128 + (r / 4096) mod 64);
     of_byte (128 + (r / 64) mod 64); of_byte (128 + r mod 64)].

(** [utf8.DecodeLastRuneInString]: the last rune of [s] and its width.  The
    rune starts at the nearest byte before the last one, at most three back,
    that is no continuation byte, and must end with [s]. *)
Definition DecodeLastRune (s : list ascii) : Z * nat :=
  match rev s with
  | [] => (RuneError, 0)
  | c :: before =>
      if (byte c <? RuneSelf)%Z then (byte c, 1)
      else
        let width :=
          match before with
          | b1 :: before1 =>
              if RuneStart (byte b1) then Some 2
              else match before1 with
                   | b2 :: before2 =>
                       if RuneStart (byte b2) then Some 3
                       else match before2 with
                            | b3 :: _ => if RuneStart (byte b3) then Some 4 else None
                            | [] => None
                            end
                   | [] => None
                   end
          | [] => None
          end in
        match width with
        | Some n =>
            let '(r, size) := DecodeRune (drop (length s - n) s) in
            if size =? n then (r, size) else (RuneError, 1)
        | None => (RuneError, 1)
        end
  end.

End utf8.

(** ** unicode *)

Module unicode.

Definition MaxASCII : Z := 127.
Definition MaxLatin1 : Z := 255.

(** The rows of [unicode.CaseRanges] that change a rune under [LowerCase],
    as of Unicode 15.0: the runes [lo], [lo + stride], ... up to [hi] are
    lowered by adding [delta].  A row of alternating capital and small
    letters has stride 2 and delta 1. *)
Definition lowerRanges : list (Z * Z * Z * Z) := [
  (192, 214, 1, 32); (216, 222, 1, 32); (256, 302, 2, 1);
  (304, 304, 1, -199); (306, 310, 2, 1); (313, 327, 2, 1); (330, 374, 2, 1);
  (376, 376, 1, -121); (377, 381, 2, 1); (385, 385, 1, 210);
  (386, 388, 2, 1); (390, 390, 1, 206); (391, 391, 1, 1);
  (393, 394, 1, 205); (395, 395, 1, 1); (398, 398, 1, 79);
  (399, 399, 1, 202); (400, 400, 1, 203); (401, 401, 1, 1);
  (403, 403, 1, 205); (404, 404, 1, 207); (406, 406, 1, 211);
  (407, 407, 1, 209); (408, 408, 1, 1); (412, 412, 1, 211);
  (413, 413, 1, 213); (415, 415, 1, 214); (416, 420, 2, 1);
  (422, 422, 1, 218); (423, 423, 1, 1); (425, 425, 1, 218);
  (428, 428, 1, 1); (430, 430, 1, 218); (431, 431, 1, 1);
  (433, 434, 1, 217); (435, 437, 2, 1); (439, 439, 1, 219);
  (440, 440, 1, 1); (444, 444, 1, 1); (452, 452, 1, 2); (453, 453, 1, 1);
  (455, 455, 1, 2); (456, 456, 1, 1); (458, 458, 1, 2); (459, 475, 2, 1);
  (478, 494, 2, 1); (497, 497, 1, 2); (498, 500, 2, 1); (502, 502, 1, -97);
  (503, 503, 1, -56); (504, 542, 2, 1); (544, 544, 1, -130);
  (546, 562, 2, 1); (570, 570, 1, 10795); (571, 571, 1, 1);
  (573, 573, 1, -163); (574, 574, 1, 10792); (577, 577, 1, 1);
  (579, 579, 1, -195); (580, 580, 1, 69); (581, 581, 1, 71);
  (582, 590, 2, 1); (880, 882, 2, 1); (886, 886, 1, 1); (895, 895, 1, 116);
  (902, 902, 1, 38); (904, 906, 1, 37); (908, 908, 1, 64);
  (910, 911, 1, 63); (913, 929, 1, 32); (931, 939, 1, 32); (975, 975, 1, 8);
  (984, 1006, 2, 1); (1012, 1012, 1, -60); (1015, 1015, 1, 1);
  (1017, 1017, 1, -7); (1018, 1018, 1, 1); (1021, 1023, 1, -130);
  (1024, 1039, 1, 80); (1040, 1071, 1, 32); (1120, 1152, 2, 1);
  (1162, 1214, 2, 1); (1216, 1216, 1, 15); (1217, 1229, 2, 1);
  (1232, 1326, 2, 1); (1329, 1366, 1, 48); (4256, 4293, 1, 7264);
  (4295, 4295, 1, 7264); (4301, 4301, 1, 7264); (5024, 5103, 1, 38864);
  (5104, 5109, 1, 8); (7312, 7354, 1, -3008); (7357, 7359, 1, -3008);
  (7680, 7828, 2, 1); (7838, 7838, 1, -7615); (7840, 7934, 2, 1);
  (7944, 7951, 1, -8); (7960, 7965, 1, -8); (7976, 7983, 1, -8);
  (7992, 7999, 1, -8); (8008, 8013, 1, -8); (8025, 8031, 2, -8);
  (8040, 8047, 1, -8); (8072, 8079, 1, -8); (8088, 8095, 1, -8);
  (8104, 8111, 1, -8); (8120, 8121, 1, -8); (8122, 8123, 1, -74);
  (8124, 8124, 1, -9); (8136, 8139, 1, -86); (8140, 8140, 1, -9);
  (8152, 8153, 1, -8); (8154, 8155, 1, -100); (8168, 8169, 1, -8);
  (8170, 8171, 1, -112); (8172, 8172, 1, -7); (8184, 8185, 1, -128);
  (8186, 8187, 1, -126); (8188, 8188, 1, -9); (8486, 8486, 1, -7517);
  (8490, 8490, 1, -8383); (8491, 8491, 1, -8262); (8498, 8498, 1, 28);
  (8544, 8559, 1, 16); (8579, 8579, 1, 1); (9398, 9423, 1, 26);
  (11264, 11311, 1, 48); (11360, 11360, 1, 1); (11362, 11362, 1, -10743);
  (11363, 11363, 1, -3814); (11364, 11364, 1, -10727); (11367, 11371, 2, 1);
  (11373, 11373, 1, -10780); (11374, 11374, 1, -10749);
  (11375, 11375, 1, -10783); (11376, 11376, 1, -10782);
  (11378, 11378, 1, 1); (11381, 11381, 1, 1); (11390, 11391, 1, -10815);
  (11392, 11490, 2, 1); (11499, 11501, 2, 1); (11506, 11506, 1, 1);
  (42560, 42604, 2, 1); (42624, 42650, 2, 1); (42786, 42798, 2, 1);
  (42802, 42862, 2, 1); (42873, 42875, 2, 1); (42877, 42877, 1, -35332);
  (42878, 42886, 2, 1); (42891, 42891, 1, 1); (42893, 42893, 1, -42280);
  (42896, 42898, 2, 1); (42902, 42920, 2, 1); (42922, 42922, 1, -42308);
  (42923, 42923, 1, -42319); (42924, 42924, 1, -42315);
  (42925, 42925, 1, -42305); (42926, 42926, 1, -42308);
  (42928, 42928, 1, -42258); (42929, 42929, 1, -42282);
  (42930, 42930, 1, -42261); (42931, 42931, 1, 928); (42932, 42946, 2, 1);
  (42948, 42948, 1, -48); (42949, 42949, 1, -42307);
  (42950, 42950, 1, -35384); (42951, 42953, 2, 1); (42960, 42960, 1, 1);
  (42966, 42968, 2, 1); (42997, 42997, 1, 1); (65313, 65338, 1, 32);
  (66560, 66599, 1, 40); (66736, 66771, 1, 40); (66928, 66938, 1, 39);
  (66940, 66954, 1, 39); (66956, 66962, 1, 39); (66964, 66965, 1, 39);
  (68736, 68786, 1, 64); (71840, 71871, 1, 32); (93760, 93791, 1, 32);
  (125184, 125217, 1, 34)
]%Z.

Definition in_range (r : Z) (row : Z * Z * Z * Z) : bool :=
  let '(lo, hi, stride, _) := row in
  ((lo <=? r) && (r <=? hi) && ((r - lo) mod stride =? 0))%Z.

(** [unicode.ToLower] *)
Definition ToLower (r : Z) : Z :=
  if (r <=? MaxASCII)%Z then
    if ((65 <=? r) && (r <=? 90))%Z then (r + 32)%Z else r
  else
    match find (in_range r) lowerRanges with
    | Some (_, _, _, delta) => (r + delta)%Z
    | None => r
    end.

(** [unicode.IsSpace]: the property White_Space. *)
Definition IsSpace (r : Z) : bool :=
  if ((0 <=? r) && (r <=? MaxLatin1))%Z then
    (utf8.between 9 13 r || (r =? 32) || (r =? 133) || (r =? 160))%Z
  else
    ((r =? 5760) || utf8.between 8192 8202 r || (r =? 8232) || (r =? 8233) ||
     (r =? 8239) || (r =? 8287) || (r =? 12288))%Z.

End unicode.

(** ** strings *)

Module strings.

(** [strings.Map]: the runes of [s], mapped and written again; a rune that
    [mapping] makes negative is dropped, an invalid byte becomes the text of
    [RuneError]. *)
Definition Map (mapping : Z -> Z) (s : string) : string :=
  str (flat_map (fun c => let r := mapping c in
                          if (0 <=? r)%Z then utf8.EncodeRune r else [])
                (utf8.runes (chars s))).

(** [strings.ToLower].  Go lowers a string of ASCII bytes by byte, which
    gives what [Map] gives. *)
Definition ToLower (s : string) : string := Map unicode.ToLower s.

Fixpoint has_prefix (p l : list ascii) : bool :=
  match p, l with
  | [], _ => true
  | _ :: _, [] => false
  | a :: p', b :: l' => ascii_eqb a b && has_prefix p' l'
  end.

Definition HasPrefix (s prefix : string) : bool :=
  has_prefix (chars prefix) (chars s).

Definition HasSuffix (s suffix : string) : bool :=
  has_prefix (rev (chars suffix)) (rev (chars s)).

(** [strings.TrimSuffix]: [s] without the trailing [suffix], or [s]. *)
Definition TrimSuffix (s suffix : string) : string :=
  if HasSuffix s suffix
  then str (take (length (chars s) - length (chars suffix)) (chars s))
  else s.

Fixpoint contains (sub l : list ascii) : bool :=
  has_prefix sub l ||
  match l with
  | [] => false
  | _ :: l' => contains sub l'
  end.

(** [strings.Contains]: [substr] occurs somewhere in [s]. *)
Definition Contains (s substr : string) : bool :=
  contains (chars substr) (chars s).

(** [strings.TrimLeftFunc], on the bytes. *)
Fixpoint trim_left (f : Z -> bool) (s : list ascii) : list ascii :=
  match s with
  | [] => []
  | _ :: s1 =>
      let '(r, size) := utf8.DecodeRune s in
      if f r then
        match size, s1 with
        | 2, _ :: s2 => trim_left f s2
        | 3, _ :: _ :: s3 => trim_left f s3
        | 4, _ :: _ :: _ :: s4 => trim_left f s4
        | _, _ => trim_left f s1
        end
      else s
  end.

(** The loop of [lastIndexFunc] for a function that must fail: [s] is the
    text before the index reached, and the result is the index at which the
    last rune starts for which [f] fails. *)
Fixpoint last_index (f : Z -> bool) (fuel : nat) (s : list ascii) : option nat :=
  match fuel with
  | 0 => None
  | S fuel' =>
      match s with
      | [] => None
      | _ =>
          let '(r, size) := utf8.DecodeLastRune s in
          let i := length s - size in
          if f r then last_index f fuel' (take i s) else Some i
      end
  end.

(** [strings.TrimRightFunc], on the bytes: the width of the last rune kept
    is read forwards. *)
Definition trim_right (f : Z -> bool) (s : list ascii) : list ascii :=
  match last_index f (length s) s with
  | None => []
  | Some i =>
      match drop i s with
      | c :: _ =>
          if (utf8.RuneSelf <=? utf8.byte c)%Z
          then take (i + snd (utf8.DecodeRune (drop i s))) s
          else take (S i) s
      | [] => take (S i) s
      end
  end.

(** [strings.TrimSpace]: [TrimFunc] with [unicode.IsSpace].  Go trims ASCII
    white space by byte first, which gives the same. *)
Definition TrimSpace (s : string) : string :=
  str (trim_right unicode.IsSpace (trim_left unicode.IsSpace (chars s))).

(** [strings.Join] *)
Fixpoint Join (elems : list string) (sep : string) : string :=
  match elems with
  | [] => ""
  | [e] => e
  | e :: rest => e +:+ sep +:+ Join rest sep
  end.

End strings.

(** ** path/filepath, Unix flavour: the separator is the slash and there is
    no volume name. *)

Module filepath.

Definition Separator : ascii := "/"%char.
Definition IsPathSeparator (c : ascii) : bool := ascii_eqb c Separator.
Definition is_dot (c : ascii) : bool := ascii_eqb c "."%char.

(** The scan of [Ext], from the last byte towards the first: [r] is the
    text still to the left (reversed), [acc] the bytes already passed. *)
Fixpoint ext_scan (r acc : list ascii) : list ascii :=
  match r with
  | [] => []
  | c :: r' =>
      if IsPathSeparator c then []
      else if is_dot c then c :: acc
      else ext_scan r' (c :: acc)
  end.

(** [filepath.Ext]: the suffix from the last dot of the last element. *)
Definition Ext (path : string) : string :=
  str (ext_scan (rev (chars path)) []).

Fixpoint drop_seps (r : list ascii) : list ascii :=
  match r with
  | [] => []
  | c :: r' => if IsPathSeparator c then drop_seps r' else r
  end.

(** The bytes of [r] up to its first separator, and the rest from that
    separator on. *)
Fixpoint span_elem (r : list ascii) : list ascii * list ascii :=
  match r with
  | [] => ([], [])
  | c :: r' =>
      if IsPathSeparator c then ([], r)
      else let '(e, rest) := span_elem r' in (c :: e, rest)
  end.

(** [filepath.Base]: the last element; trailing slashes are dropped first;
    the empty path gives ".", a path of slashes gives "/". *)
Definition Base (path : string) : string :=
  match chars path with
  | [] => "."
  | l =>
      let r := drop_seps (rev l) in
      match rev (fst (span_elem r)) with
      | [] => "/"
      | e => str e
      end
  end.

(** Split at every separator, as [strings.Split] does. *)
Fixpoint split_sep (l : list ascii) : list (list ascii) :=
  match l with
  | [] => [[]]
  | c :: l' =>
      if IsPathSeparator c then [] :: split_sep l'
      else match split_sep l' with
           | e :: es => (c :: e) :: es
           | [] => [[c]]
           end
  end.

Definition dot : list ascii := ["."%char].
Definition dotdot : list ascii := ["."%char; "."%char].

Definition elem_eqb (a b : list ascii) : bool :=
  bool_decide (a = b).

(** One round of the loop of [Clean], by path element.  The buffer [out]
    holds the elements written so far, last one first; [dd] counts the
    leading elements that ".." may not remove (Go's [dotdot] mark). *)
Definition clean_step (rooted : bool) (st : list (list ascii) * nat)
    (e : list ascii) : list (list ascii) * nat :=
  let '(out, dd) := st in
  if elem_eqb e [] then st
  else if elem_eqb e dot then st
  else if elem_eqb e dotdot then
    if dd <? length out then (tail out, dd)
    else if rooted then st
    else (dotdot :: out, S (length out))
  else (e :: out, dd).

Fixpoint join_elems (es : list (list ascii)) : list ascii :=
  match es with
  | [] => []
  | [e] => e
  | e :: rest => e ++ Separator :: join_elems rest
  end.

Definition clean_chars (l : list ascii) : list ascii :=
  match l with
  | [] => dot
  | c :: _ =>
      let rooted := IsPathSeparator c in
      let '(out, _) := fold_left (clean_step rooted) (split_sep l) ([], 0) in
      let body := join_elems (rev out) in
      if rooted then Separator :: body
      else match body with
           | [] => dot
           | _ => body
           end
  end.

(** [filepath.Clean] *)
Definition Clean (path : string) : string := str (clean_chars (chars path)).

(** [filepath.Dir]: all but the last element, cleaned. *)
Definition Dir (path : string) : string :=
  str (clean_chars (rev (snd (span_elem (rev (chars path)))))).

(** [filepath.Join]: leading empty elements are ignored, the others joined
    by the separator and cleaned. *)
Fixpoint Join (elem : list string) : string :=
  match elem with
  | [] => ""
  | e :: rest =>
      if bool_decide (e = "") then Join rest
      else Clean (strings.Join elem (str [Separator]))
  end.

End filepath.

(** ** regexp: the fragment of RE2 syntax that the program uses *)

Module regexp.

Inductive Regexp : Type :=
| BeginText                                (* ^ *)
| EndText                                  (* $ without the m flag *)
| CharClass (p : ascii -> bool)            (* \d and the like *)
| Concat (r1 r2 : Regexp)
| Repeat (n : nat) (r : Regexp).           (* r{n} *)

(** [match_at r b s k]: [r] matches a prefix of [s] and [k] accepts what is
    left; [b] tells whether [s] starts at the beginning of the text. *)
Fixpoint match_at (r : Regexp) (b : bool) (s : list ascii)
    (k : bool -> list ascii -> bool) : bool :=
  match r with
  | BeginText => b && k b s
  | EndText => match s with [] => k b s | _ :: _ => false end
  | CharClass p =>
      match s with
      | [] => false
      | c :: s' => p c && k false s'
      end
  | Concat r1 r2 => match_at r1 b s (fun b' s' => match_at r2 b' s' k)
  | Repeat n r1 =>
      (fix rep (n : nat) (b : bool) (s : list ascii) : bool :=
         match n with
         | 0 => k b s
         | S n' => match_at r1 b s (rep n')
         end) n b s
  end.

(** A match may start at any position of the text. *)
Fixpoint search (r : Regexp) (b : bool) (s : list ascii) : bool :=
  match_at r b s (fun _ _ => true) ||
  match s with
  | [] => false
  | _ :: s' => search r false s'
  end.

Definition MatchString (r : Regexp) (s : string) : bool :=
  search r true (chars s).

(** The class \d of RE2: the ASCII digits. *)
Definition digit : Regexp := CharClass is_digit.

End regexp.

(** ** Errors *)

(** Errors of the operating system; [os.IsNotExist] recognises the first. *)
Inductive oserror : Type :=
| ErrNotExist
| ErrPermission
| ErrNotDir
| ErrOther (msg : string).

Definition IsNotExist (e : option oserror) : bool :=
  match e with
  | Some ErrNotExist => true
  | _ => false
  end.

(** What [os/exec] reports for a command that did not succeed. *)
Inductive exec_error : Type :=
| ExitError (code : Z)          (* the process ran and did not exit with 0 *)
| StartError (e : oserror).     (* the process could not be started *)

(** The errors the program builds with [fmt.Errorf], one constructor per
    message; the names are those of the specification. *)
Inductive error : Type :=
| ConfigReadError (filename : string) (cause : oserror)
| ConfigParseError (filename : string)
| MissingFieldError (field : string)
| PathNotFoundError (path : string)
| DirectoryCreateError (path : string) (cause : oserror)
| OutputStatError (path : string) (cause : oserror)
| ExecutableNotFoundError (path : string) (cause : oserror)
| ExecutableStatError (path : string) (cause : oserror)
| WalkError (dir : string) (cause : error)
| ReadDirError (dir : string) (cause : oserror)
| ProbeError (cause : exec_error) (cmd : list string)
| EncodeError (file : string) (cause : exec_error).

Inductive result (A : Type) : Type :=
| Ok (a : A)
| Err (e : error).
Arguments Ok {A} a.
Arguments Err {A} e.

(** ** The file system as a walk sees it *)

Inductive FileMode : Type :=
| ModeRegular
| ModeSymlink        (* [WalkDir] and [ReadDir] do not follow links *)
| ModeNamedPipe
| ModeSocket
| ModeDevice
| ModeIrregular.

(** A directory carries the entries [os.ReadDir] returns for it, in the order
    it returns them, and the error it returns with them, if any. *)
Inductive node : Type :=
| Leaf (m : FileMode)
| Directory (readErr : option oserror) (entries : list (string * node)).

(** A [fs.DirEntry]: the name and the type; [Mode] is [None] for a
    directory. *)
Record DirEntry : Type := { Name : string; Mode : option FileMode }.

(** [d.IsDir()] *)
Definition IsDir (d : DirEntry) : bool :=
  match Mode d with
  | None => true
  | Some _ => false
  end.

(** [d.Type().IsRegular()] *)
Definition IsRegular (d : DirEntry) : bool :=
  match Mode d with
  | Some ModeRegular => true
  | _ => false
  end.

Definition entry_of (name : string) (n : node) : DirEntry :=
  match n with
  | Leaf m => {| Name := name; Mode := Some m |}
  | Directory _ _ => {| Name := name; Mode := None |}
  end.

(** What a [fs.WalkDirFunc] returns. *)
Inductive walk_ret : Type :=
| WalkNil
| SkipDir
| SkipAll
| WalkFail (e : error).

Section WalkDir.
Context {S : Type}.
Variable fn : string -> option DirEntry -> option oserror -> S -> S * walk_ret.

(** The unexported [walkDir] of path/filepath. *)
Fixpoint walkDir (path : string) (name : string) (n : node) (s : S)
    : S * walk_ret :=
  let d := entry_of name n in
  let '(s1, r) := fn path (Some d) None s in
  match r, n with
  | SkipDir, Directory _ _ => (s1, WalkNil)
  | WalkNil, Directory readErr entries =>
      let '(s2, r2) :=
        match readErr with
        | Some e => fn path (Some d) (Some e) s1
        | None => (s1, WalkNil)
        end in
      match r2 with
      | WalkNil =>
          (fix walk_entries (es : list (string * node)) (s : S) : S * walk_ret :=
             match es with
             | [] => (s, WalkNil)
             | (name1, n1) :: es' =>
                 let path1 := filepath.Join [path; name1] in
                 let '(s', r') := walkDir path1 name1 n1 s in
                 match r' with
                 | WalkNil => walk_entries es' s'
                 | SkipDir => (s', WalkNil)
                 | _ => (s', r')
                 end
             end) entries s2
      | SkipDir => (s2, WalkNil)
      | _ => (s2, r2)
      end
  | _, _ => (s1, r)
  end.

(** [filepath.WalkDir root fn]; [view] is what [os.Lstat root] finds. *)
Definition WalkDir (root : string) (view : oserror + node) (s : S)
    : S * option error :=
  let '(s', r) :=
    match view with
    | inl e => fn root None (Some e) s
    | inr n => walkDir root (filepath.Base root) n s
    end in
  match r with
  | WalkFail e => (s', Some e)
  | _ => (s', None)
  end.
End WalkDir.

(** ** The operating system *)

Record FileInfo : Type := { fi_IsDir : bool }.

(** How a child process ended, and what it wrote. *)
Inductive proc_status : Type :=
| Exited (code : Z)
| Signaled
| NotStarted (e : oserror).

Record proc_result : Type := { proc_output : string; proc_status_of : proc_status }.

(** The environment the program runs in.  [W] is the state of the machine:
    files, other processes, devices.  Child processes may change it.
    [os_Lstat] gives the tree below a path as a walk from it sees it;
    [os_ReadDir] gives the entries read and the error that stopped the
    reading, if any. *)
Class OS (W : Type) : Type := {
  GOOS : string;
  os_ReadFile : W -> string -> oserror + string;
  os_Stat : W -> string -> oserror + FileInfo;
  os_MkdirAll : W -> string -> N -> W * option oserror;
  exec_LookPath : W -> string -> option oserror;
  os_Lstat : W -> string -> oserror + node;
  os_ReadDir : W -> string -> list DirEntry * option oserror;
  proc_run : W -> string -> list string -> W * proc_result
}.

(** What [os.ReadDir] returns for a path with the tree [view] below it. *)
Definition ReadDir_of (view : oserror + node) : list DirEntry * option oserror :=
  match view with
  | inl e => ([], Some e)
  | inr (Leaf _) => ([], Some ErrNotDir)
  | inr (Directory readErr entries) =>
      (map (fun '(name, n) => entry_of name n) entries, readErr)
  end.

(** The error of [cmd.Run] and [cmd.CombinedOutput]. *)
Definition exec_err (st : proc_status) : option exec_error :=
  match st with
  | Exited c => if (c =? 0)%Z then None else Some (ExitError c)
  | Signaled => Some (ExitError (-1))
  | NotStarted e => Some (StartError e)
  end.

(** ** What the program does to the outside, in the order it does it *)

(** The lines the program writes with [log], one constructor per call of
    [log.Println], [log.Printf] or [log.Fatalf] in the source. *)
Inductive log_line : Type :=
| LogStart
| LogDefaultFfmpeg
| LogOutputMissing (path : string)
| LogOutputCreated (path : string)
| LogFfmpegNotExecutable (path : string)
| LogSearchStart (basePath : string)
| LogWalkError (path : string) (e : oserror)
| LogVideoFound (path : string)
| LogFoundTotal (n : nat)
| LogConvertStart (input output ffmpeg : string)
| LogCommand (name : string) (args : list string)
| LogEncodeError (file : string) (e : exec_error)
| LogConvertDone (output : string)
| LogFatalConfig (e : error)
| LogConfigLoaded (fields : list string)
| LogFatalSearch (e : error)
| LogNoVideos
| LogExit
| LogConvertFailed (file : string) (e : error)
| LogSummary (succeeded failed : nat)
| LogDateSearchStart (basePath : string)
| LogDateDirFound (dir : string)
| LogNoDateDirs
| LogSearchingDir (dir : string)
| LogWarnDirSearch (dir : string) (e : error)
| LogDateTotal (dirs files : nat)
| LogWarnNoFfprobe (path : string)
| LogCodec (file codec : string)
| LogWarnCodec (file : string) (e : error)
| LogSkipDriver (file : string)
| LogSkip (file : string)
| LogSummarySkipped (succeeded failed skipped : nat).

Inductive event : Type :=
| EvLog (l : log_line)
| EvMkdirAll (path : string) (perm : N)
| EvRun (name : string) (args : list string)             (* cmd.Run *)
| EvCombinedOutput (name : string) (args : list string). (* cmd.CombinedOutput *)

Record state (W : Type) : Type := { world : W; trace : list event }.
Arguments world {W} s.
Arguments trace {W} s.

(** The program as a state transformer. *)
Definition M (W : Type) (A : Type) : Type := state W -> A * state W.

#[global] Instance M_ret {W} : MRet (M W) := fun A a s => (a, s).
#[global] Instance M_bind {W} : MBind (M W) :=
  fun A B f m s => let '(a, s') := m s in f a s'.

Section Primitives.
Context {W : Type} `{OS W}.

Definition emit (e : event) : M W unit :=
  fun s => (tt, {| world := world s; trace := trace s ++ [e] |}).

Definition log (l : log_line) : M W unit := emit (EvLog l).

Definition ReadFile (name : string) : M W (oserror + string) :=
  fun s => (os_ReadFile (world s) name, s).

Definition Stat (name : string) : M W (oserror + FileInfo) :=
  fun s => (os_Stat (world s) name, s).

Definition Lstat (name : string) : M W (oserror + node) :=
  fun s => (os_Lstat (world s) name, s).

Definition ReadDir (name : string) : M W (list DirEntry * option oserror) :=
  fun s => (os_ReadDir (world s) name, s).

Definition LookPath (file : string) : M W (option oserror) :=
  fun s => (exec_LookPath (world s) file, s).

Definition MkdirAll (path : string) (perm : N) : M W (option oserror) :=
  fun s =>
    let '(w', e) := os_MkdirAll (world s) path perm in
    (e, {| world := w'; trace := trace s ++ [EvMkdirAll path perm] |}).

(** [exec.Command(name, args...)] followed by [Run]; the child inherits the
    standard streams. *)
Definition Run (name : string) (args : list string) : M W (option exec_error) :=
  fun s =>
    let '(w', r) := proc_run (world s) name args in
    (exec_err (proc_status_of r),
     {| world := w'; trace := trace s ++ [EvRun name args] |}).

(** [exec.Command(name, args...)] followed by [CombinedOutput]. *)
Definition CombinedOutput (name : string) (args : list string)
    : M W (string * option exec_error) :=
  fun s =>
    let '(w', r) := proc_run (world s) name args in
    ((proc_output r, exec_err (proc_status_of r)),
     {| world := w'; trace := trace s ++ [EvCombinedOutput name args] |}).

Definition stat_err {A} (r : oserror + A) : option oserror :=
  match r with
  | inl e => Some e
  | inr _ => None
  end.

(** A function literal [visit] that appends to a captured slice, as a
    function on the slice and the state. *)
Definition lift_visit
    (visit : string -> option DirEntry -> option oserror ->
             list string -> M W (list string * walk_ret))
    (path : string) (d : option DirEntry) (err : option oserror)
    (s : list string * state W) : (list string * state W) * walk_ret :=
  let '((videoFiles, r), st') := visit path d err (fst s) (snd s) in
  ((videoFiles, st'), r).

(** [filepath.WalkDir] with such a function literal; the slice starts out
    nil. *)
Definition walk_collect
    (visit : string -> option DirEntry -> option oserror ->
             list string -> M W (list string * walk_ret))
    (root : string) (view : oserror + node)
    : M W (list string * option error) :=
  fun st =>
    let '((videoFiles, st'), err) :=
      WalkDir (lift_visit visit) root view ([], st) in
    ((videoFiles, err), st').
End Primitives.

(** The events that are an encoder run, and those that are a call of
    [os.MkdirAll]. *)
Definition is_run (e : event) : bool :=
  match e with
  | EvRun _ _ => true
  | _ => false
  end.

Definition is_mkdir (e : event) : bool :=
  match e with
  | EvMkdirAll _ _ => true
  | _ => false
  end.

(** ** The generic variant *)

Module Generic.

Record Config : Type := {
  BasePath : string;
  OutputPath : string;
  FfmpegPath : string
}.

Definition videoExtensions : gmap string bool :=
  list_to_map [
    (".mp4", true);
    (".avi", true);
    (".mkv", true);
    (".mov", true);
    (".wmv", true);
    (".flv", true);
    (".webm", true)
  ].

(** The [_, ok := videoExtensions[ext]] test. *)
Definition is_video_ext (ext : string) : bool :=
  match videoExtensions !! ext with
  | Some _ => true
  | None => false
  end.

(** The counters of [main].  They are Go [int]s that count files of a
    slice, so they stay far below the point where an [int] wraps. *)
Record counters : Type := { successCount : nat; errorCount : nat }.

(** The output path that [convertVideoToAV1] computes. *)
Definition fullOutputPath (inputPath outputPath : string) : string :=
  let baseName := filepath.Base inputPath in
  let ext := filepath.Ext baseName in
  let outputFileName := strings.TrimSuffix baseName ext +:+ "_av1.mkv" in
  filepath.Join [outputPath; outputFileName].

Definition ffmpegArgs (inputPath output : string) : list string :=
  ["-i"; inputPath; "-c:v"; "av1_qsv"; "-c:a"; "copy"; "-y"; output].

Section Program.
Context {W : Type} `{OS W}.
(** [json.Unmarshal] into a zero [Config]; [None] is a decoding error. *)
Variable json_Unmarshal : string -> option Config.

Definition loadConfig (filename : string) : M W (result Config) :=
  configFile ← ReadFile filename;
  match configFile with
  | inl err => mret (Err (ConfigReadError filename err))
  | inr data =>
  match json_Unmarshal data with
  | None => mret (Err (ConfigParseError filename))
  | Some config =>
  if bool_decide (BasePath config = "") then
    mret (Err (MissingFieldError "BasePath"))
  else if bool_decide (OutputPath config = "") then
    mret (Err (MissingFieldError "OutputPath"))
  else
    config ← (if bool_decide (FfmpegPath config = "") then
                log LogDefaultFfmpeg;;
                mret {| BasePath := BasePath config;
                        OutputPath := OutputPath config;
                        FfmpegPath := "ffmpeg" |}
              else mret config);
    st ← Stat (BasePath config);
    if IsNotExist (stat_err st) then
      mret (Err (PathNotFoundError (BasePath config)))
    else
    st ← Stat (OutputPath config);
    failed ← (if IsNotExist (stat_err st) then
                log (LogOutputMissing (OutputPath config));;
                err ← MkdirAll (OutputPath config) 493 (* 0755 *);
                match err with
                | Some e =>
                    mret (Some (DirectoryCreateError (OutputPath config) e))
                | None =>
                    log (LogOutputCreated (OutputPath config));;
                    mret None
                end
              else match stat_err st with
                   | Some e => mret (Some (OutputStatError (OutputPath config) e))
                   | None => mret None
                   end);
    match failed with
    | Some e => mret (Err e)
    | None =>
    lp ← LookPath (FfmpegPath config);
    match lp with
    | None => mret (Ok config)
    | Some err =>
        st ← Stat (FfmpegPath config);
        if IsNotExist (stat_err st) then
          mret (Err (ExecutableNotFoundError (FfmpegPath config) err))
        else match stat_err st with
             | Some statErr =>
                 mret (Err (ExecutableStatError (FfmpegPath config) statErr))
             | None =>
                 log (LogFfmpegNotExecutable (FfmpegPath config));;
                 mret (Ok config)
             end
    end
    end
  end
  end.

(** The function literal handed to [filepath.WalkDir]; [videoFiles] is
    the slice it captures. *)
Definition visit (path : string) (d : option DirEntry) (err : option oserror)
    (videoFiles : list string) : M W (list string * walk_ret) :=
  match err, d with
  | Some e, _ =>
      log (LogWalkError path e);;
      mret (videoFiles, WalkNil)
  | None, Some d =>
      if negb (IsDir d) then
        let ext := strings.ToLower (filepath.Ext path) in
        if is_video_ext ext then
          log (LogVideoFound path);;
          mret (videoFiles ++ [path], WalkNil)
        else mret (videoFiles, WalkNil)
      else mret (videoFiles, WalkNil)
  | None, None => mret (videoFiles, WalkNil)
  end.

Definition findVideoFiles (basePath : string) : M W (result (list string)) :=
  log (LogSearchStart basePath);;
  view ← Lstat basePath;
  r ← walk_collect visit basePath view;
  match snd r with
  | Some e => mret (Err (WalkError basePath e))
  | None =>
      let videoFiles := fst r in
      log (LogFoundTotal (length videoFiles));;
      mret (Ok videoFiles)
  end.

Definition convertVideoToAV1 (inputPath outputPath ffmpegPath : string)
    : M W (option error) :=
  let fullOutputPath := fullOutputPath inputPath outputPath in
  log (LogConvertStart inputPath fullOutputPath ffmpegPath);;
  let args := ffmpegArgs inputPath fullOutputPath in
  log (LogCommand ffmpegPath args);;
  err ← Run ffmpegPath args;
  match err with
  | Some e =>
      log (LogEncodeError inputPath e);;
      mret (Some (EncodeError inputPath e))
  | None =>
      log (LogConvertDone fullOutputPath);;
      mret None
  end.

(** The body of the [for] loop of [main]. *)
Definition convert_one (config : Config) (c : counters) (file : string)
    : M W counters :=
  err ← convertVideoToAV1 file (OutputPath config) (FfmpegPath config);
  match err with
  | Some e =>
      log (LogConvertFailed file e);;
      mret {| successCount := successCount c; errorCount := S (errorCount c) |}
  | None =>
      mret {| successCount := S (successCount c); errorCount := errorCount c |}
  end.

Fixpoint convert_all (config : Config) (videoFiles : list string)
    (c : counters) : M W counters :=
  match videoFiles with
  | [] => mret c
  | file :: rest =>
      c' ← convert_one config c file;
      convert_all config rest c'
  end.

(** [main]; the value is the exit code of the process: [log.Fatalf]
    exits with 1, a return from [main] with 0. *)
Definition main : M W Z :=
  log LogStart;;
  r ← loadConfig "config.json";
  match r with
  | Err e => log (LogFatalConfig e);; mret 1%Z
  | Ok config =>
      log (LogConfigLoaded [BasePath config; OutputPath config; FfmpegPath config]);;
      r ← findVideoFiles (BasePath config);
      match r with
      | Err e => log (LogFatalSearch e);; mret 1%Z
      | Ok videoFiles =>
          if length videoFiles =? 0 then
            log LogNoVideos;;
            log LogExit;;
            mret 0%Z
          else
            c ← convert_all config videoFiles
                  {| successCount := 0; errorCount := 0 |};
            log (LogSummary (successCount c) (errorCount c));;
            log LogExit;;
            mret 0%Z
      end
  end.
End Program.

End Generic.

(** ** The filtered variant *)

Module Filtered.

Record Config : Type := {
  BasePath : string;
  FfmpegPath : string
}.

Definition videoExtensions : gmap string bool :=
  list_to_map [
    (".mp4", true);
    (".avi", true);
    (".mkv", true);
    (".mov", true);
    (".wmv", true);
    (".flv", true);
    (".webm", true)
  ].

Definition is_video_ext (ext : string) : bool :=
  match videoExtensions !! ext with
  | Some _ => true
  | None => false
  end.

(** The pattern ^\d{8}$ as [regexp.MustCompile] reads it. *)
Definition datePattern : regexp.Regexp :=
  regexp.Concat regexp.BeginText
    (regexp.Concat (regexp.Repeat 8 regexp.digit) regexp.EndText).

Definition isDateFormatDir (dirName : string) : bool :=
  regexp.MatchString datePattern dirName.

Record counters : Type := {
  successCount : nat;
  errorCount : nat;
  skippedCount : nat
}.

(** The [checkErr == nil && strings.Contains(strings.ToLower(codec), "av1")]
    test of [main], which [convertVideoToAV1] repeats. *)
Definition is_av1 (codec : string) : bool :=
  strings.Contains (strings.ToLower codec) "av1".

Definition fullOutputPath (inputPath : string) : string :=
  let dir := filepath.Dir inputPath in
  let baseName := filepath.Base inputPath in
  let ext := filepath.Ext baseName in
  let outputFileName := strings.TrimSuffix baseName ext +:+ "_av1.mkv" in
  filepath.Join [dir; outputFileName].

Definition ffmpegArgs (inputPath output : string) : list string :=
  ["-i"; inputPath; "-c:v"; "av1_qsv"; "-c:a"; "copy"; "-y"; output].

Definition ffprobeArgs (filePath : string) : list string :=
  ["-v"; "error";
   "-select_streams"; "v:0";
   "-show_entries"; "stream=codec_name";
   "-of"; "default=noprint_wrappers=1:nokey=1";
   filePath].

Section Program.
Context {W : Type} `{OS W}.
Variable json_Unmarshal : string -> option Config.

Definition loadConfig (filename : string) : M W (result Config) :=
  configFile ← ReadFile filename;
  match configFile with
  | inl err => mret (Err (ConfigReadError filename err))
  | inr data =>
  match json_Unmarshal data with
  | None => mret (Err (ConfigParseError filename))
  | Some config =>
  if bool_decide (BasePath config = "") then
    mret (Err (MissingFieldError "BasePath"))
  else
    config ← (if bool_decide (FfmpegPath config = "") then
                log LogDefaultFfmpeg;;
                mret {| BasePath := BasePath config; FfmpegPath := "ffmpeg" |}
              else mret config);
    st ← Stat (BasePath config);
    if IsNotExist (stat_err st) then
      mret (Err (PathNotFoundError (BasePath config)))
    else
    lp ← LookPath (FfmpegPath config);
    match lp with
    | None => mret (Ok config)
    | Some err =>
        st ← Stat (FfmpegPath config);
        if IsNotExist (stat_err st) then
          mret (Err (ExecutableNotFoundError (FfmpegPath config) err))
        else match stat_err st with
             | Some statErr =>
                 mret (Err (ExecutableStatError (FfmpegPath config) statErr))
             | None =>
                 log (LogFfmpegNotExecutable (FfmpegPath config));;
                 mret (Ok config)
             end
    end
  end
  end.

Definition visit (path : string) (d : option DirEntry) (err : option oserror)
    (videoFiles : list string) : M W (list string * walk_ret) :=
  match err, d with
  | Some e, _ =>
      log (LogWalkError path e);;
      mret (videoFiles, WalkNil)
  | None, Some d =>
      if negb (IsDir d) then
        let ext := strings.ToLower (filepath.Ext path) in
        if is_video_ext ext then
          log (LogVideoFound path);;
          mret (videoFiles ++ [path], WalkNil)
        else mret (videoFiles, WalkNil)
      else mret (videoFiles, WalkNil)
  | None, None => mret (videoFiles, WalkNil)
  end.

Definition findVideosInDir (dirPath : string) : M W (result (list string)) :=
  view ← Lstat dirPath;
  r ← walk_collect visit dirPath view;
  match snd r with
  | Some e => mret (Err (WalkError dirPath e))
  | None => mret (Ok (fst r))
  end.

(** The first loop of [findVideoFiles]: the date directories among the
    entries of [basePath]. *)
Fixpoint collect_date_dirs (basePath : string) (entries : list DirEntry)
    (dateFormatDirs : list string) : M W (list string) :=
  match entries with
  | [] => mret dateFormatDirs
  | entry :: rest =>
      if IsDir entry && isDateFormatDir (Name entry) then
        let dateFormatDir := filepath.Join [basePath; Name entry] in
        log (LogDateDirFound dateFormatDir);;
        collect_date_dirs basePath rest (dateFormatDirs ++ [dateFormatDir])
      else collect_date_dirs basePath rest dateFormatDirs
  end.

(** The second loop of [findVideoFiles]. *)
Fixpoint search_dirs (dateFormatDirs : list string)
    (allVideoFiles : list string) : M W (list string) :=
  match dateFormatDirs with
  | [] => mret allVideoFiles
  | dateDir :: rest =>
      log (LogSearchingDir dateDir);;
      r ← findVideosInDir dateDir;
      match r with
      | Err e =>
          log (LogWarnDirSearch dateDir e);;
          search_dirs rest allVideoFiles
      | Ok videoFiles => search_dirs rest (allVideoFiles ++ videoFiles)
      end
  end.

Definition findVideoFiles (basePath : string) : M W (result (list string)) :=
  log (LogDateSearchStart basePath);;
  r ← ReadDir basePath;
  match snd r with
  | Some e => mret (Err (ReadDirError basePath e))
  | None =>
      let entries := fst r in
      dateFormatDirs ← collect_date_dirs basePath entries [];
      if length dateFormatDirs =? 0 then
        log LogNoDateDirs;;
        mret (Ok [])
      else
        allVideoFiles ← search_dirs dateFormatDirs [];
        log (LogDateTotal (length dateFormatDirs) (length allVideoFiles));;
        mret (Ok allVideoFiles)
  end.

Definition getVideoCodec (filePath ffmpegPath : string) : M W (result string) :=
  let ffmpegDir := filepath.Dir ffmpegPath in
  let ffprobePath := filepath.Join [ffmpegDir; "ffprobe"] in
  let ffprobePath :=
    if bool_decide (GOOS = "windows") then ffprobePath +:+ ".exe"
    else ffprobePath in
  st ← Stat ffprobePath;
  ffprobePath ← (if IsNotExist (stat_err st) then
                   log (LogWarnNoFfprobe ffprobePath);;
                   mret "ffprobe"
                 else mret ffprobePath);
  let args := ffprobeArgs filePath in
  '(output, err) ← CombinedOutput ffprobePath args;
  match err with
  | Some e => mret (Err (ProbeError e (ffprobePath :: args)))
  | None =>
      let codec := strings.TrimSpace output in
      log (LogCodec filePath codec);;
      mret (Ok codec)
  end.

Definition encode (inputPath ffmpegPath : string) : M W (option error) :=
  let fullOutputPath := fullOutputPath inputPath in
  log (LogConvertStart inputPath fullOutputPath ffmpegPath);;
  let args := ffmpegArgs inputPath fullOutputPath in
  log (LogCommand ffmpegPath args);;
  err ← Run ffmpegPath args;
  match err with
  | Some e =>
      log (LogEncodeError inputPath e);;
      mret (Some (EncodeError inputPath e))
  | None =>
      log (LogConvertDone fullOutputPath);;
      mret None
  end.

Definition convertVideoToAV1 (inputPath ffmpegPath : string)
    : M W (option error) :=
  r ← getVideoCodec inputPath ffmpegPath;
  match r with
  | Err err =>
      log (LogWarnCodec inputPath err);;
      encode inputPath ffmpegPath
  | Ok codec =>
      if is_av1 codec then
        log (LogSkipDriver inputPath);;
        mret None
      else encode inputPath ffmpegPath
  end.

(** The body of the [for] loop of [main]. *)
Definition convert_one (config : Config) (c : counters) (file : string)
    : M W counters :=
  r ← getVideoCodec file (FfmpegPath config);
  match r with
  | Ok codec =>
      if is_av1 codec then
        log (LogSkip file);;
        mret {| successCount := successCount c;
                errorCount := errorCount c;
                skippedCount := S (skippedCount c) |}
      else
        err ← convertVideoToAV1 file (FfmpegPath config);
        match err with
        | Some e =>
            log (LogConvertFailed file e);;
            mret {| successCount := successCount c;
                    errorCount := S (errorCount c);
                    skippedCount := skippedCount c |}
        | None =>
            mret {| successCount := S (successCount c);
                    errorCount := errorCount c;
                    skippedCount := skippedCount c |}
        end
  | Err _ =>
      err ← convertVideoToAV1 file (FfmpegPath config);
      match err with
      | Some e =>
          log (LogConvertFailed file e);;
          mret {| successCount := successCount c;
                  errorCount := S (errorCount c);
                  skippedCount := skippedCount c |}
      | None =>
          mret {| successCount := S (successCount c);
                  errorCount := errorCount c;
                  skippedCount := skippedCount c |}
      end
  end.

Fixpoint convert_all (config : Config) (videoFiles : list string)
    (c : counters) : M W counters :=
  match videoFiles with
  | [] => mret c
  | file :: rest =>
      c' ← convert_one config c file;
      convert_all config rest c'
  end.

Definition main : M W Z :=
  log LogStart;;
  r ← loadConfig "config.json";
  match r with
  | Err e => log (LogFatalConfig e);; mret 1%Z
  | Ok config =>
      log (LogConfigLoaded [BasePath config; FfmpegPath config]);;
      r ← findVideoFiles (BasePath config);
      match r with
      | Err e => log (LogFatalSearch e);; mret 1%Z
      | Ok videoFiles =>
          if length videoFiles =? 0 then
            log LogNoVideos;;
            log LogExit;;
            mret 0%Z
          else
            c ← convert_all config videoFiles
                  {| successCount := 0; errorCount := 0; skippedCount := 0 |};
            log (LogSummarySkipped (successCount c) (errorCount c) (skippedCount c));;
            log LogExit;;
            mret 0%Z
      end
  end.
End Program.

End Filtered.

(** ** A small machine, to run the program on *)

Module Machine.

Record machine : Type := {
  files : list (string * string);   (* regular files and their content *)
  dirs : list string;               (* the directories that exist *)
  readonly : list string;           (* directories that cannot be made *)
  commands : list string;           (* what [exec.LookPath] finds *)
  trees : list (string * node);     (* what a walk from a path sees *)
  children : list proc_result       (* how the next child processes end *)
}.

Fixpoint assoc {A} (k : string) (l : list (string * A)) : option A :=
  match l with
  | [] => None
  | (k', a) :: l' => if bool_decide (k = k') then Some a else assoc k l'
  end.

Definition mem (k : string) (l : list string) : bool :=
  bool_decide (k ∈ l).

(** A path and the directories above it. *)
Fixpoint ancestors (fuel : nat) (path : string) : list string :=
  match fuel with
  | 0 => [path]
  | S fuel' =>
      let up := filepath.Dir path in
      if bool_decide (up = path) then [path]
      else path :: ancestors fuel' up
  end.

Definition stat (m : machine) (name : string) : oserror + FileInfo :=
  if mem name (dirs m) then inr {| fi_IsDir := true |}
  else match assoc name (files m) with
       | Some _ => inr {| fi_IsDir := false |}
       | None => inl ErrNotExist
       end.

Definition lstat (m : machine) (name : string) : oserror + node :=
  match assoc name (trees m) with
  | Some n => inr n
  | None => inl ErrNotExist
  end.

Definition mkdirAll (m : machine) (path : string) (perm : N)
    : machine * option oserror :=
  if mem path (readonly m) then (m, Some ErrPermission)
  else ({| files := files m;
           dirs := ancestors (String.length path) path ++ dirs m;
           readonly := readonly m;
           commands := commands m;
           trees := trees m;
           children := children m |}, None).

Definition run (m : machine) (name : string) (args : list string)
    : machine * proc_result :=
  match children m with
  | [] => (m, {| proc_output := ""; proc_status_of := NotStarted ErrNotExist |})
  | r :: rest =>
      ({| files := files m;
          dirs := dirs m;
          readonly := readonly m;
          commands := commands m;
          trees := trees m;
          children := rest |}, r)
  end.

#[global] Instance machine_OS : OS machine := {|
  GOOS := "linux";
  os_ReadFile m name :=
    match assoc name (files m) with
    | Some data => inr data
    | None => inl ErrNotExist
    end;
  os_Stat := stat;
  os_MkdirAll := mkdirAll;
  exec_LookPath m file :=
    if mem file (commands m) then None else Some ErrNotExist;
  os_Lstat := lstat;
  os_ReadDir m name := ReadDir_of (lstat m name);
  proc_run := run
|}.

Definition boot (m : machine) : state machine := {| world := m; trace := [] |}.

Definition exits (code : Z) (output : string) : proc_result :=
  {| proc_output := output; proc_status_of := Exited code |}.

(** The directory 20240101 of the end-to-end scenario of the
    specification, with a few more entries, in the order of [os.ReadDir]. *)
Definition day : node :=
  Directory None [
    ("a.mp4", Leaf ModeRegular);
    ("b.MKV", Leaf ModeRegular);
    ("notes.txt", Leaf ModeRegular);
    ("sub.mov", Directory None [("c.webm", Leaf ModeRegular)])].

Definition media : node :=
  Directory None [
    ("2024-01-01", Directory None [("d.mp4", Leaf ModeRegular)]);
    ("20240101", day);
    ("20240101file.txt", Leaf ModeRegular);
    ("20240102", Leaf ModeRegular);
    ("notadate", Directory None [("b.mkv", Leaf ModeRegular)])
  ].

(** A directory with entries that are neither regular files nor
    directories. *)
Definition studio : node :=
  Directory None [
    ("clip.mp4", Leaf ModeRegular);
    ("link.mov", Leaf ModeSymlink);
    ("live.mkv", Leaf ModeNamedPipe);
    ("notes.txt", Leaf ModeRegular)].

Definition pc : machine := {|
  files := [("config.json", "generic"); ("/usr/bin/ffmpeg", "")];
  dirs := ["/media"; "/"];
  readonly := ["/proc/out"];
  commands := ["ffmpeg"; "/usr/bin/ffmpeg"];
  trees := [("/media", media); ("/media/20240101", day); ("/studio", studio)];
  children := []
|}.

Definition with_children (m : machine) (l : list proc_result) : machine :=
  {| files := files m;
     dirs := dirs m;
     readonly := readonly m;
     commands := commands m;
     trees := trees m;
     children := l |}.

Definition with_config (m : machine) (data : string) : machine :=
  {| files := ("config.json", data) :: files m;
     dirs := dirs m;
     readonly := readonly m;
     commands := commands m;
     trees := trees m;
     children := children m |}.

(** Stand-ins for [json.Unmarshal]: the configuration files of the machine
    are named, not written out. *)
Definition generic_json (data : string) : option Generic.Config :=
  if bool_decide (data = "generic") then
    Some {| Generic.BasePath := "/media";
            Generic.OutputPath := "/out/av1";
            Generic.FfmpegPath := "" |}
  else if bool_decide (data = "readonly") then
    Some {| Generic.BasePath := "/media";
            Generic.OutputPath := "/proc/out";
            Generic.FfmpegPath := "ffmpeg" |}
  else if bool_decide (data = "nobase") then
    Some {| Generic.BasePath := "";
            Generic.OutputPath := "/out/av1";
            Generic.FfmpegPath := "ffmpeg" |}
  else None.

Definition filtered_json (data : string) : option Filtered.Config :=
  if bool_decide (data = "generic") then
    Some {| Filtered.BasePath := "/media";
            Filtered.FfmpegPath := "/usr/bin/ffmpeg" |}
  else if bool_decide (data = "nobase") then
    Some {| Filtered.BasePath := "";
            Filtered.FfmpegPath := "ffmpeg" |}
  else None.

End Machine.

(** ** The vocabulary of the theorems *)

(** The configuration after the default for [FfmpegPath] is filled in. *)
Definition with_default_ffmpeg (config : Generic.Config) : Generic.Config :=
  if bool_decide (Generic.FfmpegPath config = "") then
    {| Generic.BasePath := Generic.BasePath config;
       Generic.OutputPath := Generic.OutputPath config;
       Generic.FfmpegPath := "ffmpeg" |}
  else config.

(** The events of a load that has to make the output directory and gets
    as far as the look-up of the encoder. *)
Definition load_events (config : Generic.Config) (made : bool) : list event :=
  (if bool_decide (Generic.FfmpegPath config = "")
   then [EvLog LogDefaultFfmpeg] else []) ++
  [EvLog (LogOutputMissing (Generic.OutputPath config));
   EvMkdirAll (Generic.OutputPath config) 493] ++
  (if made then [EvLog (LogOutputCreated (Generic.OutputPath config))] else []).

Definition runs (evs : list event) : list event := filter is_run evs.

(** [extends st st' evs]: the run from [st] to [st'] added the events [evs]. *)
Definition extends {W} (st st' : state W) (evs : list event) : Prop :=
  trace st' = trace st ++ evs.

(** A probe result that makes the program skip the file. *)
Definition skips (r : result string) : bool :=
  match r with
  | Ok codec => Filtered.is_av1 codec
  | Err _ => false
  end.

Definition succeeded (c : Filtered.counters) : Filtered.counters :=
  {| Filtered.successCount := S (Filtered.successCount c);
     Filtered.errorCount := Filtered.errorCount c;
     Filtered.skippedCount := Filtered.skippedCount c |}.

Definition failed (c : Filtered.counters) : Filtered.counters :=
  {| Filtered.successCount := Filtered.successCount c;
     Filtered.errorCount := S (Filtered.errorCount c);
     Filtered.skippedCount := Filtered.skippedCount c |}.

Definition skipped (c : Filtered.counters) : Filtered.counters :=
  {| Filtered.successCount := Filtered.successCount c;
     Filtered.errorCount := Filtered.errorCount c;
     Filtered.skippedCount := S (Filtered.skippedCount c) |}.

Definition generic_succeeded (c : Generic.counters) : Generic.counters :=
  {| Generic.successCount := S (Generic.successCount c);
     Generic.errorCount := Generic.errorCount c |}.

Definition generic_failed (c : Generic.counters) : Generic.counters :=
  {| Generic.successCount := Generic.successCount c;
     Generic.errorCount := S (Generic.errorCount c) |}.

Definition generic_zero : Generic.counters :=
  {| Generic.successCount := 0; Generic.errorCount := 0 |}.

Definition filtered_zero : Filtered.counters :=
  {| Filtered.successCount := 0;
     Filtered.errorCount := 0;
     Filtered.skippedCount := 0 |}.

(** Every entry of a tree with its path, a directory before its entries. *)
Fixpoint tree_entries (path name : string) (n : node) : list (string * DirEntry) :=
  (path, entry_of name n) ::
  match n with
  | Leaf _ => []
  | Directory _ entries =>
      (fix below (es : list (string * node)) : list (string * DirEntry) :=
         match es with
         | [] => []
         | (name1, n1) :: es' =>
             tree_entries (filepath.Join [path; name1]) name1 n1 ++ below es'
         end) entries
  end.

(** The entries a walk from [root] passes. *)
Definition walk_entries (root : string) (view : oserror + node)
    : list (string * DirEntry) :=
  match view with
  | inl _ => []
  | inr n => tree_entries root (filepath.Base root) n
  end.

Definition paths_where (sel : string -> DirEntry -> bool)
    (l : list (string * DirEntry)) : list string :=
  map fst (filter (fun x => sel (fst x) (snd x) = true) l).

(** The lines a scan logs. *)
Definition is_scan_log (e : event) : bool :=
  match e with
  | EvLog (LogWalkError _ _) | EvLog (LogVideoFound _) => true
  | _ => false
  end.

Definition video_extensions : list string :=
  [".mp4"; ".avi"; ".mkv"; ".mov"; ".wmv"; ".flv"; ".webm"].

(** The entry is no directory and the extension of its path, lowercased, is
    one of [ok]. *)
Definition video_entry (ok : string -> bool) (path : string) (d : DirEntry) : bool :=
  negb (IsDir d) && ok (strings.ToLower (filepath.Ext path)).

(** The same with "no directory" replaced by "a regular file". *)
Definition regular_video_entry (ok : string -> bool) (path : string) (d : DirEntry)
    : bool :=
  IsRegular d && ok (strings.ToLower (filepath.Ext path)).

Definition is_date_dir (d : DirEntry) : bool :=
  IsDir d && Filtered.isDateFormatDir (Name d).

(** The directories a trace reports as searched. *)
Definition searched (evs : list event) : list string :=
  omap (fun e => match e with
                 | EvLog (LogSearchingDir d) => Some d
                 | _ => None
                 end) evs.

(** The search roots among the entries of [basePath]. *)
Definition date_roots (basePath : string) (entries : list DirEntry) : list string :=
  map (fun d => filepath.Join [basePath; Name d])
      (filter (fun d => is_date_dir d = true) entries).

Section Vocabulary.
Context {W : Type} `{OS W}.

(** The encoder run of [encode], seen from the state it starts in. *)
Definition encoder_run (file ff : string) (st : state W) : W * proc_result :=
proc_run (world st) ff (Filtered.ffmpegArgs file (Filtered.fullOutputPath file)).

(** The state in which [convertVideoToAV1] starts the encoder, when it
  does: after its probe and the warning of a failed probe. *)
Definition before_encode (file ff : string) (st : state W) : state W :=
let p := Filtered.getVideoCodec file ff st in
match fst p with
| Err e => {| world := world (snd p);
              trace := trace (snd p) ++ [EvLog (LogWarnCodec file e)] |}
| Ok _ => snd p
end.

(** What the loop body does with the error of [convertVideoToAV1]. *)
Definition count (c : Filtered.counters) (file : string) (r : option error * state W)
  : Filtered.counters * state W :=
match fst r with
| Some e => (failed c, {| world := world (snd r);
                          trace := trace (snd r) ++ [EvLog (LogConvertFailed file e)] |})
| None => (succeeded c, snd r)
end.

Definition generic_encoder_run (file out ff : string) (st : state W)
  : W * proc_result :=
proc_run (world st) ff
  (Generic.ffmpegArgs file (Generic.fullOutputPath file out)).

(** The states of [main] on its way through the startup. *)
Definition generic_started (st : state W) : state W :=
{| world := world st; trace := trace st ++ [EvLog LogStart] |}.

Definition generic_loaded (config : Generic.Config) (st : state W) : state W :=
{| world := world st;
   trace := trace st ++
     [EvLog (LogConfigLoaded [Generic.BasePath config;
                              Generic.OutputPath config;
                              Generic.FfmpegPath config])] |}.

(** [main] got past the startup: the configuration [config] was loaded and
  the scan returned [files], leaving the machine in [st']. *)
Definition generic_past_startup (json : string -> option Generic.Config)
  (st : state W) (config : Generic.Config) (files : list string)
  (st' : state W) : Prop :=
let l := Generic.loadConfig json "config.json" (generic_started st) in
fst l = Ok config /\
let f := Generic.findVideoFiles (Generic.BasePath config)
           (generic_loaded config (snd l)) in
fst f = Ok files /\ st' = snd f.

Definition filtered_started (st : state W) : state W :=
{| world := world st; trace := trace st ++ [EvLog LogStart] |}.

Definition filtered_loaded (config : Filtered.Config) (st : state W) : state W :=
{| world := world st;
   trace := trace st ++
     [EvLog (LogConfigLoaded [Filtered.BasePath config;
                              Filtered.FfmpegPath config])] |}.

Definition filtered_past_startup (json : string -> option Filtered.Config)
  (st : state W) (config : Filtered.Config) (files : list string)
  (st' : state W) : Prop :=
let l := Filtered.loadConfig json "config.json" (filtered_started st) in
fst l = Ok config /\
let f := Filtered.findVideoFiles (Filtered.BasePath config)
           (filtered_loaded config (snd l)) in
fst f = Ok files /\ st' = snd f.

(** What a scan from [root] returns on the machine [w]. *)
Definition scan (w : W) (root : string) : list string :=
paths_where (video_entry Generic.is_video_ext) (walk_entries root (os_Lstat w root)).

End Vocabulary.

(** The file name that both variants of [convertVideoToAV1] build. *)
Definition stem (inputPath : string) : string :=
  strings.TrimSuffix (filepath.Base inputPath) (filepath.Ext (filepath.Base inputPath)).

Definition outputFileName (inputPath : string) : string :=
  stem inputPath +:+ "_av1.mkv".

(** The encoder runs of the generic loop over [files]. *)
Definition generic_encoder_runs (config : Generic.Config) (files : list string)
    : list event :=
  map (fun file =>
         EvRun (Generic.FfmpegPath config)
           ["-i"; file; "-c:v"; "av1_qsv"; "-c:a"; "copy"; "-y";
            filepath.Join [Generic.OutputPath config; outputFileName file]])
      files.

(** An encoder run of the filtered variant for one of [files]. *)
Definition filtered_encoder_run_of (config : Filtered.Config) (files : list string)
    (e : event) : Prop :=
  exists file, file ∈ files /\
    e = EvRun (Filtered.FfmpegPath config)
          ["-i"; file; "-c:v"; "av1_qsv"; "-c:a"; "copy"; "-y";
           filepath.Join [filepath.Dir file; outputFileName file]].

(** The summaries a trace carries: succeeded, failed, skipped. *)
Definition summaries (evs : list event) : list (nat * nat * nat) :=
  omap (fun e => match e with
                 | EvLog (LogSummary s f) => Some (s, f, 0)
                 | EvLog (LogSummarySkipped s f k) => Some (s, f, k)
                 | _ => None
                 end) evs.

(** The vocabulary of the facts on [filepath.Clean]. *)
Module path_spec.
Import filepath.

(** A path element holds no separator. *)
Definition no_sep (n : list ascii) : Prop :=
  Forall (fun c => IsPathSeparator c = false) n.

(** An element that [Clean] keeps: not empty, not "." and not "..". *)
Definition real_elem (n : list ascii) : Prop :=
  n <> [] /\ n <> dot /\ n <> dotdot /\ no_sep n.

(** The text [Clean] returns for the buffer [out]. *)
Definition render (rooted : bool) (out : list (list ascii)) : list ascii :=
  let body := join_elems (rev out) in
  if rooted then Separator :: body
  else match body with
       | [] => dot
       | _ => body
       end.

(** The buffer and the mark of [Clean] after its loop. *)
Definition clean_state (rooted : bool) (l : list ascii) : list (list ascii) * nat :=
  fold_left (clean_step rooted) (split_sep l) ([], 0).

(** The buffer holds real elements on top of [dd] elements "..", and none
    of the latter in a rooted path. *)
Definition well_formed (rooted : bool) (st : list (list ascii) * nat) : Prop :=
  exists reals,
    fst st = reals ++ repeat dotdot (snd st) /\
    Forall real_elem reals /\
    (rooted = true -> snd st = 0).

Definition nonempty (e : list ascii) : bool :=
  match e with
  | [] => false
  | _ => true
  end.

(** An element of a cleaned path: not empty and without separator. *)
Definition plain (e : list ascii) : Prop := no_sep e /\ nonempty e = true.

(** The text before the last element of a cleaned path. *)
Definition prefix_of (rooted : bool) (out : list (list ascii)) : list ascii :=
  (if rooted then [Separator] else []) ++
  match rev out with
  | [] => []
  | es => join_elems es ++ [Separator]
  end.

(** The empty text, or a text that ends in a separator. *)
Definition ends_dir (p : list ascii) : Prop :=
  p = [] \/ exists p', p = p' ++ [Separator].

End path_spec.

(** ** The vocabulary of the further properties *)

(** A Unicode scalar value. *)
Definition valid_rune (r : Z) : bool :=
  ((0 <=? r) && (r <=? utf8.MaxRune) && negb (utf8.between 55296 57343 r))%Z.

Definition valid (r : Z) : Prop := valid_rune r = true.

(** The runes a row of [unicode.lowerRanges] lowers. *)
Definition row_runes (row : Z * Z * Z * Z) : list Z :=
  let '(lo, hi, stride, _) := row in
  map (fun k => (lo + Z.of_nat k * stride)%Z)
      (seq 0 (Z.to_nat ((hi - lo) / stride) + 1)).

(** A rune is lowered to a scalar value that lowering leaves alone. *)
Definition lowered_once (r : Z) : bool :=
  valid_rune (unicode.ToLower r) &&
  (unicode.ToLower (unicode.ToLower r) =? unicode.ToLower r)%Z.

Definition row_ok (row : Z * Z * Z * Z) : bool :=
  let '(_, _, stride, _) := row in
  (0 <? stride)%Z && forallb lowered_once (row_runes row).

(** The events that start a child process. *)
Definition is_exec (e : event) : bool :=
  match e with
  | EvRun _ _ | EvCombinedOutput _ _ => true
  | _ => false
  end.

Definition execs (evs : list event) : list event := filter is_exec evs.

(** The events of [loadConfig]: its log lines and the call of
    [os.MkdirAll]. *)
Definition is_load_event (e : event) : bool :=
  match e with
  | EvLog LogDefaultFfmpeg
  | EvLog (LogOutputMissing _)
  | EvLog (LogOutputCreated _)
  | EvLog (LogFfmpegNotExecutable _)
  | EvMkdirAll _ _ => true
  | _ => false
  end.

(** The log lines of the two [findVideoFiles]. *)
Definition is_scan_event (e : event) : bool :=
  match e with
  | EvLog (LogSearchStart _)
  | EvLog (LogWalkError _ _)
  | EvLog (LogVideoFound _)
  | EvLog (LogFoundTotal _)
  | EvLog (LogDateSearchStart _)
  | EvLog (LogDateDirFound _)
  | EvLog LogNoDateDirs
  | EvLog (LogSearchingDir _)
  | EvLog (LogDateTotal _ _) => true
  | _ => false
  end.

(** The events of the conversion loops: child processes and the log lines
    around them. *)
Definition is_convert_event (e : event) : bool :=
  match e with
  | EvRun _ _
  | EvCombinedOutput _ _
  | EvLog (LogConvertStart _ _ _)
  | EvLog (LogCommand _ _)
  | EvLog (LogEncodeError _ _)
  | EvLog (LogConvertDone _)
  | EvLog (LogConvertFailed _ _)
  | EvLog (LogWarnNoFfprobe _)
  | EvLog (LogCodec _ _)
  | EvLog (LogWarnCodec _ _)
  | EvLog (LogSkipDriver _)
  | EvLog (LogSkip _) => true
  | _ => false
  end.

(** The events of a startup: the first line, those of [loadConfig], the line
    that reports the configuration, and those of the scan. *)
Definition is_startup_event (e : event) : bool :=
  match e with
  | EvLog LogStart | EvLog (LogConfigLoaded _) => true
  | _ => is_load_event e || is_scan_event e
  end.

(** The lines with which [main] ends. *)
Definition is_closing_event (e : event) : bool :=
  match e with
  | EvLog (LogFatalConfig _)
  | EvLog (LogFatalSearch _)
  | EvLog LogNoVideos
  | EvLog LogExit
  | EvLog (LogSummary _ _)
  | EvLog (LogSummarySkipped _ _ _) => true
  | _ => false
  end.

(** A stand-in for [json.Unmarshal] that decodes every file to [config]. *)
Definition const_json {C : Type} (config : C) : string -> option C :=
  fun _ => Some config.

(** A machine with more directories. *)
Definition with_dirs (m : Machine.machine) (l : list string) : Machine.machine :=
  {| Machine.files := Machine.files m;
     Machine.dirs := l ++ Machine.dirs m;
     Machine.readonly := Machine.readonly m;
     Machine.commands := Machine.commands m;
     Machine.trees := Machine.trees m;
     Machine.children := Machine.children m |}.

(** A resolved encoder: [exec.LookPath] finds it, or [os.Stat] does. *)
Definition encoder_resolves {W} `{OS W} (w : W) (ffmpegPath : string) : Prop :=
  exec_LookPath w ffmpegPath = None \/
  exists info, os_Stat w ffmpegPath = inr info.

(** The filtered configuration after the default for [FfmpegPath]. *)
Definition filtered_with_default (config : Filtered.Config) : Filtered.Config :=
  if bool_decide (Filtered.FfmpegPath config = "") then
    {| Filtered.BasePath := Filtered.BasePath config;
       Filtered.FfmpegPath := "ffmpeg" |}
  else config.

(** The two lines that report a failed search: the warning of
    [findVideoFiles] about a date directory and the fatal line of [main]. *)
Definition is_search_failure (e : event) : bool :=
  match e with
  | EvLog (LogWarnDirSearch _ _) | EvLog (LogFatalSearch _) => true
  | _ => false
  end.

(** The probes among the events: the runs of [cmd.CombinedOutput]. *)
Definition is_probe (e : event) : bool :=
  match e with
  | EvCombinedOutput _ _ => true
  | _ => false
  end.

Definition probes (evs : list event) : list event := filter is_probe evs.

Section ProbeVocabulary.
Context {W : Type} `{OS W}.

(** The path [getVideoCodec] derives from the encoder's. *)
Definition derived_ffprobe (ffmpegPath : string) : string :=
  let ffprobePath := filepath.Join [filepath.Dir ffmpegPath; "ffprobe"] in
  if bool_decide (GOOS = "windows") then ffprobePath +:+ ".exe" else ffprobePath.

(** The name under which [getVideoCodec] starts the probe on [w]. *)
Definition probe_name (w : W) (ffmpegPath : string) : string :=
  if IsNotExist (stat_err (os_Stat w (derived_ffprobe ffmpegPath)))
  then "ffprobe" else derived_ffprobe ffmpegPath.

(** The probe of [getVideoCodec], seen from the state it starts in. *)
Definition probe_run (file ffmpegPath : string) (st : state W) : W * proc_result :=
  proc_run (world st) (probe_name (world st) ffmpegPath) (Filtered.ffprobeArgs file).

End ProbeVocabulary.

Section RoundVocabulary.
Context {W : Type} `{OS W}.

(** The names under which the filtered variant starts a probe: the bare
    name, or the path derived from the encoder's. *)
Definition filtered_probe_name (config : Filtered.Config) (name : string) : Prop :=
  name = "ffprobe" \/ name = derived_ffprobe (Filtered.FfmpegPath config).

(** The child processes of one round of the filtered loop for [file]: a
    probe; or two probes; or two probes and then the encoder. *)
Definition filtered_round (config : Filtered.Config) (file : string)
    (block : list event) : Prop :=
  exists name1,
    filtered_probe_name config name1 /\
    let probe1 := EvCombinedOutput name1 (Filtered.ffprobeArgs file) in
    block = [probe1] \/
    exists name2,
      filtered_probe_name config name2 /\
      let probe2 := EvCombinedOutput name2 (Filtered.ffprobeArgs file) in
      block = [probe1; probe2] \/
      block = [probe1; probe2;
               EvRun (Filtered.FfmpegPath config)
                 (Filtered.ffmpegArgs file (Filtered.fullOutputPath file))].

End RoundVocabulary.

(** The files a trace reports as found. *)
Definition found (evs : list event) : list string :=
  omap (fun e => match e with
                 | EvLog (LogVideoFound path) => Some path
                 | _ => None
                 end) evs.

(** * Theorems *)

Arguments filepath.Join : simpl never.
Arguments filepath.Clean : simpl never.
Arguments filepath.Base : simpl never.
Arguments filepath.Dir : simpl never.
Arguments filepath.Ext : simpl never.
Arguments strings.ToLower : simpl never.
Arguments strings.TrimSuffix : simpl never.
Arguments strings.TrimSpace : simpl never.
Arguments strings.Contains : simpl never.

(** ** The library functions on the examples of their documentation *)

Example Base_examples :
  map filepath.Base
    ["/foo/bar/baz.js"; "/foo/bar/baz"; "/foo/bar/baz/"; "dev.txt";
     "../todo.txt"; ".."; "."; "/"; ""] =
    ["baz.js"; "baz"; "baz"; "dev.txt"; "todo.txt"; ".."; "."; "/"; "."].
Proof. vm_compute. reflexivity. Qed.

Example Dir_examples :
  map filepath.Dir
    ["/foo/bar/baz.js"; "/foo/bar/baz"; "/foo/bar/baz/"; "/dirty//path///";
     "dev.txt"; "../todo.txt"; ".."; "."; "/"; ""] =
    ["/foo/bar"; "/foo/bar"; "/foo/bar/baz"; "/dirty/path";
     "."; ".."; "."; "."; "/"; "."].
Proof. vm_compute. reflexivity. Qed.

Example Ext_examples :
  map filepath.Ext ["index"; "index.js"; "main.test.js"; "/a.b/c"; "/a/.mp4"] =
    [""; ".js"; ".js"; ""; ".mp4"].
Proof. vm_compute. reflexivity. Qed.

Example Join_examples :
  map filepath.Join
    [["a"; "b"; "c"]; ["a"; "b/c"]; ["a/b"; "c"]; ["a/b"; "/c"];
     ["a/b"; "../../../xyz"]; [""; "a"]; [""; ""]; ["/"; "a"]; ["a"; ""]] =
    ["a/b/c"; "a/b/c"; "a/b/c"; "a/b/c"; "../xyz"; "a"; ""; "/a"; "a"].
Proof. vm_compute. reflexivity. Qed.

Example Clean_examples :
  map filepath.Clean
    ["abc//def//ghi"; "abc/./../def"; "/../abc"; "../../abc";
     "abc/def/../../.."; "/abc/def/../../.."; "abc/def/"; "/"; ""] =
    ["abc/def/ghi"; "def"; "/abc"; "../../abc"; ".."; "/"; "abc/def"; "/"; "."].
Proof. vm_compute. reflexivity. Qed.

Example strings_examples :
  strings.ToLower ".MKV" = ".mkv" /\
  strings.TrimSuffix "a.mp4" ".mp4" = "a" /\
  strings.TrimSuffix "a.mp4" ".mkv" = "a.mp4" /\
  strings.Contains "libaom-av1" "av1" = true /\
  strings.Contains "h264" "av1" = false /\
  strings.TrimSpace (" av1" +:+ str ["010"%char]) = "av1".
Proof. vm_compute. repeat split. Qed.

(** Text that is not ASCII: the Kelvin sign U+212A lowers to k and the
    dotted capital I U+0130 to i, a capital E with acute to the small one, a
    byte that starts no rune becomes U+FFFD; the no-break space U+00A0 and
    the em space U+2003 are white space. *)
Example unicode_examples :
  strings.ToLower (str (map utf8.of_byte [46; 77; 226; 132; 170; 86]%Z)) = ".mkv" /\
  strings.ToLower (str (map utf8.of_byte [46; 65; 86; 196; 176]%Z)) = ".avi" /\
  map utf8.byte (chars (strings.ToLower (str (map utf8.of_byte [195; 137; 255]%Z)))) =
    [195; 169; 239; 191; 189]%Z /\
  strings.TrimSpace
    (str (map utf8.of_byte [194; 160; 104; 50; 54; 52; 226; 128; 131]%Z)) = "h264" /\
  utf8.runes (map utf8.of_byte [240; 159; 152; 128; 237; 160; 128; 226; 130]%Z) =
    [128512; 65533; 65533; 65533; 65533; 65533]%Z /\
  utf8.DecodeLastRune (map utf8.of_byte [97; 226; 132; 170]%Z) = (8490%Z, 3).
Proof. vm_compute. repeat split. Qed.

Example MatchString_examples :
  map Filtered.isDateFormatDir
    ["20240101"; "2024-01-01"; "20240101file.txt"; "2024010"; "202401011";
     "99999999"; "a20240101"; ""] =
    [true; false; false; false; false; true; false; false].
Proof. vm_compute. reflexivity. Qed.

(** ** The state monad *)

Ltac unfold_m :=
  unfold mbind, M_bind, mret, M_ret, log, emit, ReadFile, Stat, Lstat,
    ReadDir, LookPath, MkdirAll, Run, CombinedOutput in *.

Section Load.
Context {W : Type} `{OS W}.

Lemma generic_load_missing_base json filename st data config :
  os_ReadFile (world st) filename = inr data ->
  json data = Some config ->
  Generic.BasePath config = "" ->
  Generic.loadConfig json filename st = (Err (MissingFieldError "BasePath"), st).
Proof.
  intros Hread Hjson Hbase.
  unfold Generic.loadConfig. unfold_m.
  rewrite Hread, Hjson, Hbase. reflexivity.
Qed.

Lemma filtered_load_missing_base json filename st data config :
  os_ReadFile (world st) filename = inr data ->
  json data = Some config ->
  Filtered.BasePath config = "" ->
  Filtered.loadConfig json filename st = (Err (MissingFieldError "BasePath"), st).
Proof.
  intros Hread Hjson Hbase.
  unfold Filtered.loadConfig. unfold_m.
  rewrite Hread, Hjson, Hbase. reflexivity.
Qed.

Lemma with_default_ffmpeg_paths config :
  Generic.BasePath (with_default_ffmpeg config) = Generic.BasePath config /\
  Generic.OutputPath (with_default_ffmpeg config) = Generic.OutputPath config.
Proof. unfold with_default_ffmpeg. case_bool_decide; auto. Qed.

Lemma generic_load_mkdir json filename st data config :
  os_ReadFile (world st) filename = inr data ->
  json data = Some config ->
  Generic.BasePath config <> "" ->
  Generic.OutputPath config <> "" ->
  IsNotExist (stat_err (os_Stat (world st) (Generic.BasePath config))) = false ->
  os_Stat (world st) (Generic.OutputPath config) = inl ErrNotExist ->
  let out := Generic.OutputPath config in
  let mk := os_MkdirAll (world st) out 493 in
  let r := Generic.loadConfig json filename st in
  match snd mk with
  | Some e =>
      r = (Err (DirectoryCreateError out e),
           {| world := fst mk; trace := trace st ++ load_events config false |})
  | None =>
      world (snd r) = fst mk /\
      (exists evs, trace (snd r) = trace st ++ load_events config true ++ evs /\
                   filter is_mkdir evs = []) /\
      (exec_LookPath (fst mk) (Generic.FfmpegPath (with_default_ffmpeg config)) = None ->
       fst r = Ok (with_default_ffmpeg config))
  end.
Proof.
  intros Hread Hjson Hbase Hout Hstat Hmissing out mk r.
  subst r. unfold Generic.loadConfig. unfold_m.
  rewrite Hread, Hjson.
  rewrite (bool_decide_eq_false_2 _ Hbase), (bool_decide_eq_false_2 _ Hout).
  unfold load_events, with_default_ffmpeg.
  destruct (bool_decide (Generic.FfmpegPath config = "")); simpl;
    rewrite Hstat; simpl; rewrite Hmissing; simpl;
    subst mk out; destruct (os_MkdirAll _ _ _) as [w' [e|]]; simpl.
  1, 3: rewrite <- ?app_assoc; reflexivity.
  all: repeat match goal with
    | |- context [exec_LookPath ?w ?p] => destruct (exec_LookPath w p); simpl
    | |- context [os_Stat ?w ?p] => destruct (os_Stat w p) as [[]|]; simpl
    end.
  all: split; [reflexivity|split; [|first [discriminate|reflexivity]]].
  all: rewrite <- ?app_assoc; simpl.
  all: first [ exists []; split; reflexivity
             | eexists [_]; split; reflexivity ].
Qed.
End Load.

(** ** Traces *)

Lemma runs_app evs1 evs2 : runs (evs1 ++ evs2) = runs evs1 ++ runs evs2.
Proof. apply filter_app. Qed.

Lemma extends_refl {W} (st : state W) : extends st st [].
Proof. unfold extends. by rewrite app_nil_r. Qed.

Lemma extends_trans {W} (st1 st2 st3 : state W) evs1 evs2 :
  extends st1 st2 evs1 -> extends st2 st3 evs2 -> extends st1 st3 (evs1 ++ evs2).
Proof. unfold extends. intros H1 H2. by rewrite H2, H1, app_assoc. Qed.

Lemma extends_inj {W} (st st' : state W) evs1 evs2 :
  extends st st' evs1 -> extends st st' evs2 -> evs1 = evs2.
Proof. unfold extends. intros H1 H2. rewrite H1 in H2. by apply app_inv_head in H2. Qed.

(** ** The conversion loop of the filtered variant *)

Section FilteredLoop.
Context {W : Type} `{OS W}.

Lemma getVideoCodec_extends file ff st :
  exists evs, extends st (snd (Filtered.getVideoCodec file ff st)) evs /\
              runs evs = [].
Proof.
  unfold Filtered.getVideoCodec, extends. unfold_m.
  destruct (IsNotExist _); simpl;
    destruct (proc_run _ _ _) as [w' r]; simpl;
    destruct (exec_err _); simpl;
    rewrite <- ?app_assoc; simpl; eexists; split; reflexivity.
Qed.

Lemma encode_spec file ff st :
  let r := encoder_run file ff st in
  let err := exec_err (proc_status_of (snd r)) in
  exists evs,
    Filtered.encode file ff st =
      (match err with
       | Some e => Some (EncodeError file e)
       | None => None
       end,
       {| world := fst r; trace := trace st ++ evs |}) /\
    runs evs = [EvRun ff (Filtered.ffmpegArgs file (Filtered.fullOutputPath file))].
Proof.
  unfold encoder_run, Filtered.encode. unfold_m. simpl.
  destruct (proc_run _ _ _) as [w' r]; simpl.
  destruct (exec_err _); simpl; rewrite <- ?app_assoc; simpl;
    eexists; split; reflexivity.
Qed.

Lemma before_encode_extends file ff st :
  exists evs, extends st (before_encode file ff st) evs /\ runs evs = [].
Proof.
  unfold before_encode.
  destruct (getVideoCodec_extends file ff st) as (evs & Hext & Hruns).
  destruct (fst _).
  - eauto.
  - exists (evs ++ [EvLog (LogWarnCodec file e)]). split.
    + unfold extends in *. simpl. by rewrite Hext, app_assoc.
    + rewrite runs_app, Hruns. reflexivity.
Qed.

Lemma convertVideoToAV1_skip file ff st codec :
  fst (Filtered.getVideoCodec file ff st) = Ok codec ->
  Filtered.is_av1 codec = true ->
  Filtered.convertVideoToAV1 file ff st =
    (None, {| world := world (snd (Filtered.getVideoCodec file ff st));
              trace := trace (snd (Filtered.getVideoCodec file ff st)) ++
                       [EvLog (LogSkipDriver file)] |}).
Proof.
  intros Hp Hav1. unfold Filtered.convertVideoToAV1.
  unfold mbind at 1. unfold M_bind.
  destruct (Filtered.getVideoCodec file ff st) as [r st1]; simpl in *.
  subst r. rewrite Hav1. reflexivity.
Qed.

Lemma convertVideoToAV1_encode file ff st :
  skips (fst (Filtered.getVideoCodec file ff st)) = false ->
  Filtered.convertVideoToAV1 file ff st =
    Filtered.encode file ff (before_encode file ff st).
Proof.
  intros Hp. unfold Filtered.convertVideoToAV1, before_encode.
  unfold mbind at 1. unfold M_bind.
  destruct (Filtered.getVideoCodec file ff st) as [[codec|e] st1]; simpl in *.
  - rewrite Hp. reflexivity.
  - reflexivity.
Qed.

Lemma convert_one_skip config c file st codec :
  fst (Filtered.getVideoCodec file (Filtered.FfmpegPath config) st) = Ok codec ->
  Filtered.is_av1 codec = true ->
  Filtered.convert_one config c file st =
    (skipped c,
     {| world := world (snd (Filtered.getVideoCodec file (Filtered.FfmpegPath config) st));
        trace := trace (snd (Filtered.getVideoCodec file (Filtered.FfmpegPath config) st)) ++
                 [EvLog (LogSkip file)] |}).
Proof.
  intros Hp Hav1. unfold Filtered.convert_one.
  unfold mbind at 1. unfold M_bind.
  destruct (Filtered.getVideoCodec _ _ st) as [r st1]; simpl in *.
  subst r. rewrite Hav1. reflexivity.
Qed.

Lemma convert_one_convert config c file st :
  skips (fst (Filtered.getVideoCodec file (Filtered.FfmpegPath config) st)) = false ->
  Filtered.convert_one config c file st =
    count c file
      (Filtered.convertVideoToAV1 file (Filtered.FfmpegPath config)
         (snd (Filtered.getVideoCodec file (Filtered.FfmpegPath config) st))).
Proof.
  intros Hp. unfold Filtered.convert_one, count.
  unfold mbind at 1. unfold M_bind.
  destruct (Filtered.getVideoCodec _ _ st) as [[codec|e] st1]; simpl in *.
  - rewrite Hp. unfold_m.
    destruct (Filtered.convertVideoToAV1 _ _ st1) as [[e|] st2]; reflexivity.
  - unfold_m.
    destruct (Filtered.convertVideoToAV1 _ _ st1) as [[e'|] st2]; reflexivity.
Qed.

Lemma filtered_convert_all_app config pre post c st :
  Filtered.convert_all config (pre ++ post) c st =
    Filtered.convert_all config post
      (fst (Filtered.convert_all config pre c st))
      (snd (Filtered.convert_all config pre c st)).
Proof.
  revert c st. induction pre as [|file pre IH]; intros c st; simpl.
  - reflexivity.
  - unfold mbind, M_bind.
    destruct (Filtered.convert_one config c file st) as [c' st'].
    apply IH.
Qed.
End FilteredLoop.

(** ** The conversion loop of the generic variant *)

Section GenericLoop.
Context {W : Type} `{OS W}.

Lemma generic_convertVideoToAV1_spec file out ff st :
  let r := generic_encoder_run file out ff st in
  let err := exec_err (proc_status_of (snd r)) in
  exists evs,
    Generic.convertVideoToAV1 file out ff st =
      (match err with
       | Some e => Some (EncodeError file e)
       | None => None
       end,
       {| world := fst r; trace := trace st ++ evs |}) /\
    runs evs = [EvRun ff (Generic.ffmpegArgs file (Generic.fullOutputPath file out))].
Proof.
  unfold generic_encoder_run, Generic.convertVideoToAV1. unfold_m. simpl.
  destruct (proc_run _ _ _) as [w' r]; simpl.
  destruct (exec_err _); simpl; rewrite <- ?app_assoc; simpl;
    eexists; split; reflexivity.
Qed.

Lemma generic_convert_one_spec config c file st :
  let out := Generic.OutputPath config in
  let ff := Generic.FfmpegPath config in
  let r := generic_encoder_run file out ff st in
  exists evs,
    Generic.convert_one config c file st =
      (match exec_err (proc_status_of (snd r)) with
       | Some _ => generic_failed c
       | None => generic_succeeded c
       end,
       {| world := fst r; trace := trace st ++ evs |}) /\
    runs evs = [EvRun ff (Generic.ffmpegArgs file (Generic.fullOutputPath file out))].
Proof.
  intros out ff r. subst out ff r. unfold Generic.convert_one.
  unfold mbind at 1. unfold M_bind.
  destruct (generic_convertVideoToAV1_spec file (Generic.OutputPath config)
              (Generic.FfmpegPath config) st) as (evs & -> & Hruns).
  destruct (exec_err _); unfold_m; simpl.
  - eexists. rewrite <- app_assoc. split; [reflexivity|].
    rewrite runs_app, Hruns. reflexivity.
  - eauto.
Qed.

Lemma generic_convert_all_app config pre post c st :
  Generic.convert_all config (pre ++ post) c st =
    Generic.convert_all config post
      (fst (Generic.convert_all config pre c st))
      (snd (Generic.convert_all config pre c st)).
Proof.
  revert c st. induction pre as [|file pre IH]; intros c st; simpl.
  - reflexivity.
  - unfold mbind, M_bind.
    destruct (Generic.convert_one config c file st) as [c' st'].
    apply IH.
Qed.

Lemma generic_convert_one_counts config c file st :
  let c' := fst (Generic.convert_one config c file st) in
  c' = generic_succeeded c \/ c' = generic_failed c.
Proof.
  destruct (generic_convert_one_spec config c file st) as (evs & Heq & _).
  simpl. rewrite Heq. simpl. destruct (exec_err _); auto.
Qed.

Lemma generic_convert_all_sum config files c st :
  let c' := fst (Generic.convert_all config files c st) in
  Generic.successCount c' + Generic.errorCount c' =
    Generic.successCount c + Generic.errorCount c + length files.
Proof.
  revert c st. induction files as [|file files IH]; intros c st; simpl.
  - lia.
  - unfold mbind, M_bind.
    pose proof (generic_convert_one_counts config c file st) as Hc.
    destruct (Generic.convert_one config c file st) as [c1 st1]. simpl in Hc.
    specialize (IH c1 st1). simpl in IH. rewrite IH.
    destruct Hc as [-> | ->]; simpl; lia.
Qed.

Lemma generic_main_eq json st :
  Generic.main json st =
    let l := Generic.loadConfig json "config.json" (generic_started st) in
    match fst l with
    | Err e => (1%Z, {| world := world (snd l);
                        trace := trace (snd l) ++ [EvLog (LogFatalConfig e)] |})
    | Ok config =>
        let f := Generic.findVideoFiles (Generic.BasePath config)
                   (generic_loaded config (snd l)) in
        match fst f with
        | Err e => (1%Z, {| world := world (snd f);
                            trace := trace (snd f) ++ [EvLog (LogFatalSearch e)] |})
        | Ok files =>
            if length files =? 0 then
              (0%Z, {| world := world (snd f);
                       trace := trace (snd f) ++ [EvLog LogNoVideos; EvLog LogExit] |})
            else
              let r := Generic.convert_all config files generic_zero (snd f) in
              (0%Z, {| world := world (snd r);
                       trace := trace (snd r) ++
                         [EvLog (LogSummary (Generic.successCount (fst r))
                                            (Generic.errorCount (fst r)));
                          EvLog LogExit] |})
        end
    end.
Proof.
  unfold Generic.main, generic_started, generic_loaded, generic_zero.
  unfold_m. simpl.
  destruct (Generic.loadConfig _ _ _) as [[config|e] st1]; simpl; [|reflexivity].
  destruct (Generic.findVideoFiles _ _) as [[files|e] st2]; simpl; [|reflexivity].
  destruct (length files =? 0); simpl.
  - rewrite <- app_assoc. reflexivity.
  - destruct (Generic.convert_all _ _ _ _) as [c st3]; simpl.
    rewrite <- app_assoc. reflexivity.
Qed.

Lemma generic_main_past_startup json st config files st' :
  generic_past_startup json st config files st' ->
  files <> [] ->
  let r := Generic.convert_all config files generic_zero st' in
  Generic.main json st =
    (0%Z, {| world := world (snd r);
             trace := trace (snd r) ++
               [EvLog (LogSummary (Generic.successCount (fst r))
                                  (Generic.errorCount (fst r)));
                EvLog LogExit] |}).
Proof.
  unfold generic_past_startup. intros (Hl & Hf & ->) Hne.
  rewrite generic_main_eq. simpl. rewrite Hl, Hf.
  destruct files; [done|reflexivity].
Qed.

Lemma generic_main_exit json st config files st' :
  generic_past_startup json st config files st' ->
  fst (Generic.main json st) = 0%Z.
Proof.
  unfold generic_past_startup. intros (Hl & Hf & ->).
  rewrite generic_main_eq. simpl. rewrite Hl, Hf.
  destruct (length files =? 0); reflexivity.
Qed.
End GenericLoop.

(** ** [main] of the filtered variant *)

Section FilteredMain.
Context {W : Type} `{OS W}.

Lemma filtered_main_eq json st :
  Filtered.main json st =
    let l := Filtered.loadConfig json "config.json" (filtered_started st) in
    match fst l with
    | Err e => (1%Z, {| world := world (snd l);
                        trace := trace (snd l) ++ [EvLog (LogFatalConfig e)] |})
    | Ok config =>
        let f := Filtered.findVideoFiles (Filtered.BasePath config)
                   (filtered_loaded config (snd l)) in
        match fst f with
        | Err e => (1%Z, {| world := world (snd f);
                            trace := trace (snd f) ++ [EvLog (LogFatalSearch e)] |})
        | Ok files =>
            if length files =? 0 then
              (0%Z, {| world := world (snd f);
                       trace := trace (snd f) ++ [EvLog LogNoVideos; EvLog LogExit] |})
            else
              let r := Filtered.convert_all config files filtered_zero (snd f) in
              (0%Z, {| world := world (snd r);
                       trace := trace (snd r) ++
                         [EvLog (LogSummarySkipped
                                   (Filtered.successCount (fst r))
                                   (Filtered.errorCount (fst r))
                                   (Filtered.skippedCount (fst r)));
                          EvLog LogExit] |})
        end
    end.
Proof.
  unfold Filtered.main, filtered_started, filtered_loaded, filtered_zero.
  unfold_m. simpl.
  destruct (Filtered.loadConfig _ _ _) as [[config|e] st1]; simpl; [|reflexivity].
  destruct (Filtered.findVideoFiles _ _) as [[files|e] st2]; simpl; [|reflexivity].
  destruct (length files =? 0); simpl.
  - rewrite <- app_assoc. reflexivity.
  - destruct (Filtered.convert_all _ _ _ _) as [c st3]; simpl.
    rewrite <- app_assoc. reflexivity.
Qed.

Lemma filtered_main_past_startup json st config files st' :
  filtered_past_startup json st config files st' ->
  files <> [] ->
  let r := Filtered.convert_all config files filtered_zero st' in
  Filtered.main json st =
    (0%Z, {| world := world (snd r);
             trace := trace (snd r) ++
               [EvLog (LogSummarySkipped
                         (Filtered.successCount (fst r))
                         (Filtered.errorCount (fst r))
                         (Filtered.skippedCount (fst r)));
                EvLog LogExit] |}).
Proof.
  unfold filtered_past_startup. intros (Hl & Hf & ->) Hne.
  rewrite filtered_main_eq. simpl. rewrite Hl, Hf.
  destruct files; [done|reflexivity].
Qed.

Lemma filtered_main_exit json st config files st' :
  filtered_past_startup json st config files st' ->
  fst (Filtered.main json st) = 0%Z.
Proof.
  unfold filtered_past_startup. intros (Hl & Hf & ->).
  rewrite filtered_main_eq. simpl. rewrite Hl, Hf.
  destruct (length files =? 0); reflexivity.
Qed.

(** The loop body adds one to exactly one counter. *)
Lemma filtered_convert_one_counts config c file st :
  let c' := fst (Filtered.convert_one config c file st) in
  c' = succeeded c \/ c' = failed c \/ c' = skipped c.
Proof.
  simpl.
  destruct (skips (fst (Filtered.getVideoCodec file (Filtered.FfmpegPath config) st)))
    eqn:Hs.
  - destruct (fst (Filtered.getVideoCodec file (Filtered.FfmpegPath config) st))
      as [codec|] eqn:Hp; [|discriminate].
    simpl in Hs. rewrite (convert_one_skip _ _ _ _ _ Hp Hs). auto.
  - rewrite (convert_one_convert _ _ _ _ Hs). unfold count.
    destruct (fst (Filtered.convertVideoToAV1 _ _ _)); auto.
Qed.

Lemma filtered_convert_all_sum config files c st :
  let c' := fst (Filtered.convert_all config files c st) in
  Filtered.successCount c' + Filtered.errorCount c' + Filtered.skippedCount c' =
    Filtered.successCount c + Filtered.errorCount c + Filtered.skippedCount c +
    length files.
Proof.
  revert c st. induction files as [|file files IH]; intros c st; simpl.
  - lia.
  - unfold mbind, M_bind.
    pose proof (filtered_convert_one_counts config c file st) as Hc.
    destruct (Filtered.convert_one config c file st) as [c1 st1]. simpl in Hc.
    specialize (IH c1 st1). simpl in IH. rewrite IH.
    destruct Hc as [-> | [-> | ->]]; simpl; lia.
Qed.
End FilteredMain.

(** ** The walk *)

Lemma node_nested_ind (P : node -> Prop) :
  (forall m, P (Leaf m)) ->
  (forall e entries, Forall (fun x => P (snd x)) entries -> P (Directory e entries)) ->
  forall n, P n.
Proof.
  intros Hleaf Hdir.
  fix IH 1. intros [m|e entries].
  - apply Hleaf.
  - apply Hdir. induction entries as [|[name n] entries IHes].
    + constructor.
    + constructor; [apply IH|apply IHes].
Qed.

Section Walk.
Context {W : Type} `{OS W}.
Variable visit : string -> option DirEntry -> option oserror ->
                 list string -> M W (list string * walk_ret).
Variable sel : string -> DirEntry -> bool.

(** [visit] appends the path of an entry that [sel] selects, only logs,
    and always returns nil. *)
Hypothesis visit_selects : forall path d err videoFiles st,
  exists evs,
    visit path d err videoFiles st =
      ((videoFiles ++
          match err, d with
          | None, Some d => if sel path d then [path] else []
          | _, _ => []
          end, WalkNil),
       {| world := world st; trace := trace st ++ evs |}) /\
    forallb is_scan_log evs = true.

Lemma walkDir_collects n : forall path name videoFiles st,
  exists evs,
    walkDir (lift_visit visit) path name n (videoFiles, st) =
      ((videoFiles ++ paths_where sel (tree_entries path name n),
        {| world := world st; trace := trace st ++ evs |}), WalkNil) /\
    forallb is_scan_log evs = true.
Proof.
  induction n as [m|readErr entries IH] using node_nested_ind;
    intros path name videoFiles st.
  - cbn [walkDir]. unfold lift_visit at 1. cbn [fst snd].
    destruct (visit_selects path (Some (entry_of name (Leaf m))) None videoFiles st)
      as (evs & -> & Hlog).
    exists evs. split; [|done]. unfold paths_where. cbn [tree_entries].
    rewrite filter_cons. cbn [fst snd].
    destruct (sel path _); simpl; reflexivity.
  - cbn [walkDir]. unfold lift_visit at 1. cbn [fst snd].
    destruct (visit_selects path (Some (entry_of name (Directory readErr entries)))
                None videoFiles st) as (evs1 & -> & Hlog1).
    set (d := entry_of name (Directory readErr entries)) in *.
    set (files1 := videoFiles ++ (if sel path d then [path] else [])).
    assert (exists evs2,
      match readErr with
      | Some e => lift_visit visit path (Some d) (Some e)
                    (files1, {| world := world st; trace := trace st ++ evs1 |})
      | None => ((files1, {| world := world st; trace := trace st ++ evs1 |}), WalkNil)
      end = ((files1, {| world := world st; trace := trace st ++ evs2 |}), WalkNil) /\
      forallb is_scan_log evs2 = true) as (evs2 & -> & Hlog2).
    { destruct readErr as [e|].
      - unfold lift_visit. cbn [fst snd].
        destruct (visit_selects path (Some d) (Some e) files1
                    {| world := world st; trace := trace st ++ evs1 |})
          as (evs & -> & Hlog). cbn [world trace].
        exists (evs1 ++ evs). rewrite app_nil_r, app_assoc.
        split; [reflexivity|]. rewrite forallb_app, Hlog1, Hlog. reflexivity.
      - eauto. }
    clear evs1 Hlog1.
    assert (paths_where sel (tree_entries path name (Directory readErr entries))
            = (if sel path d then [path] else []) ++
              paths_where sel
                ((fix below (es : list (string * node)) : list (string * DirEntry) :=
                    match es with
                    | [] => []
                    | (name1, n1) :: es' =>
                        tree_entries (filepath.Join [path; name1]) name1 n1 ++ below es'
                    end) entries)) as ->.
    { unfold paths_where. cbn [tree_entries filter]. fold d.
      rewrite filter_cons. cbn [fst snd].
      destruct (sel path d); [|reflexivity].
      rewrite decide_True by done. reflexivity. }
    rewrite app_assoc. fold files1.
    generalize files1 evs2 Hlog2. clear files1 evs2 Hlog2.
    induction IH as [|[name1 n1] es Hn1 _ IHes]; intros files evs Hlog.
    + exists evs. unfold paths_where. simpl. rewrite app_nil_r. done.
    + cbn [snd] in Hn1.
      destruct (Hn1 (filepath.Join [path; name1]) name1 files
                  {| world := world st; trace := trace st ++ evs |})
        as (evs' & -> & Hlog'). cbn [world trace].
      rewrite <- app_assoc.
      destruct (IHes (files ++ paths_where sel
                        (tree_entries (filepath.Join [path; name1]) name1 n1))
                  (evs ++ evs')) as (evs'' & -> & Hlog'').
      { rewrite forallb_app, Hlog, Hlog'. reflexivity. }
      exists evs''. split; [|done].
      unfold paths_where. rewrite filter_app, map_app, app_assoc. reflexivity.
Qed.

Lemma walk_collect_spec root view st :
  exists evs,
    walk_collect visit root view st =
      ((paths_where sel (walk_entries root view), None),
       {| world := world st; trace := trace st ++ evs |}) /\
    forallb is_scan_log evs = true.
Proof.
  unfold walk_collect, WalkDir, walk_entries.
  destruct view as [e|n].
  - unfold lift_visit. cbn [fst snd].
    destruct (visit_selects root None (Some e) [] st) as (evs & -> & Hlog).
    exists evs. done.
  - destruct (walkDir_collects n root (filepath.Base root) [] st)
      as (evs & -> & Hlog).
    exists evs. done.
Qed.
End Walk.

(** ** The scanners *)

Lemma searched_app evs1 evs2 : searched (evs1 ++ evs2) = searched evs1 ++ searched evs2.
Proof. apply omap_app. Qed.

Lemma searched_scan_log evs : forallb is_scan_log evs = true -> searched evs = [].
Proof.
  induction evs as [|e evs IH]; [done|]. simpl.
  intros [He Hevs]%andb_true_iff. unfold searched in *. simpl.
  rewrite (IH Hevs). destruct e as [[]| | |]; done.
Qed.

Lemma generic_is_video_ext_spec ext :
  Generic.is_video_ext ext = true <-> ext ∈ video_extensions.
Proof.
  unfold Generic.is_video_ext, Generic.videoExtensions.
  destruct (list_to_map _ !! ext) as [b|] eqn:Hl.
  - apply elem_of_list_to_map_2 in Hl.
    split; [intros _|done].
    apply (list_elem_of_fmap_2 fst) in Hl. exact Hl.
  - apply not_elem_of_list_to_map_2 in Hl.
    split; [done|]. intros Hin. destruct Hl. exact Hin.
Qed.

Lemma filtered_is_video_ext_eq : Filtered.is_video_ext = Generic.is_video_ext.
Proof. reflexivity. Qed.

Section Scan.
Context {W : Type} `{OS W}.

Lemma generic_visit_selects path d err videoFiles (st : state W) :
  exists evs,
    Generic.visit path d err videoFiles st =
      ((videoFiles ++
          match err, d with
          | None, Some d =>
              if video_entry Generic.is_video_ext path d then [path] else []
          | _, _ => []
          end, WalkNil),
       {| world := world st; trace := trace st ++ evs |}) /\
    forallb is_scan_log evs = true.
Proof.
  unfold Generic.visit, video_entry. unfold_m.
  destruct err as [e|]; [|destruct d as [d|]]; simpl.
  - exists [EvLog (LogWalkError path e)]. by rewrite app_nil_r.
  - destruct (IsDir d); simpl.
    + exists []. by rewrite !app_nil_r; destruct st.
    + destruct (Generic.is_video_ext _); simpl.
      * exists [EvLog (LogVideoFound path)]. done.
      * exists []. by rewrite !app_nil_r; destruct st.
  - exists []. by rewrite !app_nil_r; destruct st.
Qed.

Lemma filtered_visit_selects path d err videoFiles (st : state W) :
  exists evs,
    Filtered.visit path d err videoFiles st =
      ((videoFiles ++
          match err, d with
          | None, Some d =>
              if video_entry Filtered.is_video_ext path d then [path] else []
          | _, _ => []
          end, WalkNil),
       {| world := world st; trace := trace st ++ evs |}) /\
    forallb is_scan_log evs = true.
Proof. exact (generic_visit_selects path d err videoFiles st). Qed.

Lemma generic_findVideoFiles_spec basePath st :
  exists evs,
    Generic.findVideoFiles basePath st =
      (Ok (scan (world st) basePath),
       {| world := world st; trace := trace st ++ evs |}).
Proof.
  unfold Generic.findVideoFiles, scan.
  unfold mbind, M_bind, log, emit, Lstat. cbn [world trace].
  destruct (walk_collect_spec Generic.visit _ generic_visit_selects basePath
              (os_Lstat (world st) basePath)
              {| world := world st; trace := trace st ++ [EvLog (LogSearchStart basePath)] |})
    as (evs & -> & Hlog).
  cbn [fst snd world trace]. unfold mret, M_ret.
  rewrite <- !app_assoc. eauto.
Qed.

Lemma findVideosInDir_spec dirPath st :
  exists evs,
    Filtered.findVideosInDir dirPath st =
      (Ok (scan (world st) dirPath),
       {| world := world st; trace := trace st ++ evs |}) /\
    forallb is_scan_log evs = true.
Proof.
  unfold Filtered.findVideosInDir, scan.
  unfold mbind, M_bind, Lstat.
  destruct (walk_collect_spec Filtered.visit _ filtered_visit_selects dirPath
              (os_Lstat (world st) dirPath) st) as (evs & -> & Hlog).
  cbn [fst snd]. unfold mret, M_ret. eauto.
Qed.

Lemma collect_date_dirs_spec basePath entries : forall dateFormatDirs (st : state W),
  exists evs,
    Filtered.collect_date_dirs basePath entries dateFormatDirs st =
      (dateFormatDirs ++ date_roots basePath entries,
       {| world := world st; trace := trace st ++ evs |}) /\
    searched evs = [].
Proof.
  unfold date_roots.
  induction entries as [|d entries IH]; intros acc st; simpl.
  - exists []. rewrite !app_nil_r. by destruct st.
  - rewrite filter_cons. fold (is_date_dir d).
    destruct (is_date_dir d) eqn:Hd.
    + rewrite decide_True by done. unfold_m. simpl.
      destruct (IH (acc ++ [filepath.Join [basePath; Name d]])
                  {| world := world st;
                     trace := trace st ++
                       [EvLog (LogDateDirFound (filepath.Join [basePath; Name d]))] |})
        as (evs & -> & Hs).
      simpl. rewrite <- !app_assoc. eexists. split; [reflexivity|].
      simpl. exact Hs.
    + rewrite decide_False by (by intros ?). apply IH.
Qed.

Lemma search_dirs_spec roots : forall allVideoFiles (st : state W),
  exists evs,
    Filtered.search_dirs roots allVideoFiles st =
      (allVideoFiles ++ concat (map (scan (world st)) roots),
       {| world := world st; trace := trace st ++ evs |}) /\
    searched evs = roots.
Proof.
  induction roots as [|d roots IH]; intros acc st; simpl.
  - exists []. rewrite !app_nil_r. by destruct st.
  - unfold mbind at 1. unfold M_bind at 1. unfold log, emit.
    unfold mbind at 1. unfold M_bind at 1.
    destruct (findVideosInDir_spec d
                {| world := world st;
                   trace := trace st ++ [EvLog (LogSearchingDir d)] |})
      as (evs1 & -> & Hlog1).
    cbn [world trace].
    destruct (IH (acc ++ scan (world st) d)
                {| world := world st;
                   trace := (trace st ++ [EvLog (LogSearchingDir d)]) ++ evs1 |})
      as (evs2 & -> & Hs2).
    cbn [world trace]. rewrite <- !app_assoc.
    eexists. split; [reflexivity|].
    change (EvLog (LogSearchingDir d) :: evs1 ++ evs2)
      with ([EvLog (LogSearchingDir d)] ++ evs1 ++ evs2).
    rewrite !searched_app, (searched_scan_log _ Hlog1), Hs2. reflexivity.
Qed.

Lemma filtered_findVideoFiles_spec basePath (st : state W) readErr children :
  os_ReadDir (world st) basePath = (children, readErr) ->
  match readErr with
  | Some e =>
      fst (Filtered.findVideoFiles basePath st) = Err (ReadDirError basePath e)
  | None =>
      exists evs,
        Filtered.findVideoFiles basePath st =
          (Ok (concat (map (scan (world st)) (date_roots basePath children))),
           {| world := world st; trace := trace st ++ evs |}) /\
        searched evs = date_roots basePath children
  end.
Proof.
  intros Hview. unfold Filtered.findVideoFiles.
  unfold mbind, M_bind, log, emit, ReadDir, mret, M_ret. cbn [world trace].
  rewrite Hview. cbn [fst snd].
  destruct readErr as [e|]; [reflexivity|].
  destruct (collect_date_dirs_spec basePath children []
              {| world := world st;
                 trace := trace st ++ [EvLog (LogDateSearchStart basePath)] |})
    as (evs1 & -> & Hs1).
  cbn [app world trace].
  destruct (date_roots basePath children) as [|d roots] eqn:Hroots.
  - cbn [length Nat.eqb map concat world trace].
    rewrite <- !app_assoc. eexists. split; [reflexivity|].
    change (EvLog (LogDateSearchStart basePath) :: evs1 ++ [EvLog LogNoDateDirs])
      with ([EvLog (LogDateSearchStart basePath)] ++ evs1 ++ [EvLog LogNoDateDirs]).
    rewrite !searched_app, Hs1. reflexivity.
  - cbn [length Nat.eqb].
    destruct (search_dirs_spec (d :: roots) []
                {| world := world st;
                   trace := (trace st ++ [EvLog (LogDateSearchStart basePath)]) ++ evs1 |})
      as (evs2 & -> & Hs2).
    cbn [app world trace].
    rewrite <- !app_assoc. eexists. split; [reflexivity|].
    change (EvLog (LogDateSearchStart basePath) :: evs1 ++ evs2 ++
              [EvLog (LogDateTotal (S (length roots))
                 (length (concat (map (scan (world st)) (d :: roots)))))])
      with ([EvLog (LogDateSearchStart basePath)] ++ evs1 ++ evs2 ++
              [EvLog (LogDateTotal (S (length roots))
                 (length (concat (map (scan (world st)) (d :: roots)))))]).
    rewrite !searched_app, Hs1, Hs2. simpl. by rewrite app_nil_r.
Qed.
End Scan.

(** ** The date pattern *)

Arguments is_digit : simpl never.

Lemma datePattern_needs_start l :
  regexp.search Filtered.datePattern false l = false.
Proof. induction l as [|c l IH]; simpl; auto. Qed.

Lemma isDateFormatDir_spec dirName :
  Filtered.isDateFormatDir dirName = true <->
  length (chars dirName) = 8 /\ forallb is_digit (chars dirName) = true.
Proof.
  unfold Filtered.isDateFormatDir, regexp.MatchString.
  generalize (chars dirName) as l. intros l.
  assert (regexp.search Filtered.datePattern true l =
          regexp.match_at Filtered.datePattern true l (fun _ _ => true)) as ->.
  { destruct l as [|c l]; simpl.
    - reflexivity.
    - rewrite datePattern_needs_start. apply orb_false_r. }
  do 8 (destruct l as [|? l];
        [simpl; split;
         [rewrite ?andb_false_r; discriminate|intros [Hlen _]; discriminate]|]).
  destruct l as [|? l]; simpl.
  - split; [intros Hd; split; [reflexivity|exact Hd]|intros [_ Hd]; exact Hd].
  - rewrite ?andb_false_r.
    split; [discriminate|intros [Hlen _]; discriminate].
Qed.

(** ** Strings and paths *)

Lemma str_chars s : str (chars s) = s.
Proof. apply string_of_list_ascii_of_string. Qed.

Lemma chars_str l : chars (str l) = l.
Proof. apply list_ascii_of_string_of_list_ascii. Qed.

Lemma str_app l1 l2 : str (l1 ++ l2) = str l1 +:+ str l2.
Proof. induction l1 as [|c l1 IH]; simpl; [reflexivity|]. by rewrite IH. Qed.

Lemma has_prefix_app p l : strings.has_prefix p (p ++ l) = true.
Proof.
  induction p as [|c p IH]; simpl; [by destruct l|].
  unfold ascii_eqb. by rewrite Ascii.eqb_refl.
Qed.

(** The scan of [Ext] returns a suffix of what it has passed and still has
    to pass. *)
Lemma ext_scan_suffix r : forall acc,
  exists pre, rev r ++ acc = pre ++ filepath.ext_scan r acc.
Proof.
  induction r as [|c r IH]; intros acc; simpl.
  - exists acc. by rewrite app_nil_r.
  - destruct (filepath.IsPathSeparator c).
    + eexists. by rewrite app_nil_r.
    + destruct (filepath.is_dot c).
      * exists (rev r). by rewrite <- app_assoc.
      * destruct (IH (c :: acc)) as [pre Hpre].
        exists pre. by rewrite <- app_assoc.
Qed.

Lemma Ext_suffix path :
  exists pre, chars path = pre ++ chars (filepath.Ext path).
Proof.
  unfold filepath.Ext. rewrite chars_str.
  destruct (ext_scan_suffix (rev (chars path)) []) as [pre Hpre].
  exists pre. by rewrite <- Hpre, rev_involutive, app_nil_r.
Qed.

(** Cutting the extension off and putting it back gives the name again. *)
Lemma TrimSuffix_Ext s :
  strings.TrimSuffix s (filepath.Ext s) +:+ filepath.Ext s = s.
Proof.
  destruct (Ext_suffix s) as [pre Hpre].
  unfold strings.TrimSuffix, strings.HasSuffix.
  rewrite <- (str_chars (filepath.Ext s)) at 3.
  remember (chars (filepath.Ext s)) as e eqn:He.
  rewrite Hpre, rev_app_distr, has_prefix_app.
  rewrite length_app, Nat.add_sub, take_app_length.
  by rewrite <- str_app, <- Hpre, str_chars.
Qed.

Lemma stem_Ext inputPath :
  stem inputPath +:+ filepath.Ext (filepath.Base inputPath) = filepath.Base inputPath.
Proof. apply TrimSuffix_Ext. Qed.

(** ** What [filepath.Clean] writes, and [Base] and [Dir] of a joined name *)

Module path_facts.
Import filepath.
Import path_spec.

Lemma split_sep_nonempty l : split_sep l <> [].
Proof.
  destruct l as [|c l]; simpl; [discriminate|].
  destruct (IsPathSeparator c); [discriminate|].
  destruct (split_sep l); discriminate.
Qed.

Lemma split_sep_app a b :
  split_sep (a ++ Separator :: b) = split_sep a ++ split_sep b.
Proof.
  induction a as [|c a IH]; simpl.
  - reflexivity.
  - destruct (IsPathSeparator c).
    + by rewrite IH.
    + rewrite IH. pose proof (split_sep_nonempty a).
      destruct (split_sep a); [done|reflexivity].
Qed.

Lemma split_sep_no_sep n : no_sep n -> split_sep n = [n].
Proof.
  induction 1 as [|c n Hc Hn IH]; simpl; [reflexivity|].
  by rewrite Hc, IH.
Qed.

Lemma clean_step_real rooted out dd n :
  real_elem n -> clean_step rooted (out, dd) n = (n :: out, dd).
Proof.
  intros (H0 & H1 & H2 & _). unfold clean_step, elem_eqb.
  rewrite !bool_decide_eq_false_2 by done. reflexivity.
Qed.

Lemma join_elems_snoc l n :
  join_elems (l ++ [n]) =
    match l with
    | [] => n
    | _ => join_elems l ++ Separator :: n
    end.
Proof.
  induction l as [|e l IH]; simpl; [reflexivity|].
  rewrite IH. destruct l as [|e' l]; simpl; [reflexivity|].
  by rewrite <- app_assoc.
Qed.

Lemma clean_chars_eq c l :
  clean_chars (c :: l) =
    render (IsPathSeparator c) (fst (clean_state (IsPathSeparator c) (c :: l))).
Proof.
  unfold clean_chars, clean_state, render.
  destruct (fold_left _ _ _) as [out dd]. reflexivity.
Qed.

Lemma split_sep_no_seps l : Forall no_sep (split_sep l).
Proof.
  induction l as [|c l IH]; simpl.
  - repeat constructor.
  - destruct (IsPathSeparator c) eqn:Hc.
    + constructor; [constructor|exact IH].
    + destruct (split_sep l) as [|e es]; [repeat constructor; done|].
      inversion IH; subst. constructor; [|done]. by constructor.
Qed.

Lemma dotdot_real_false : ~ real_elem dotdot.
Proof. by intros (_ & _ & H & _). Qed.

Lemma clean_step_well_formed rooted st e :
  no_sep e -> well_formed rooted st -> well_formed rooted (clean_step rooted st e).
Proof.
  intros He (reals & Hout & Hreals & Hroot). destruct st as [out dd].
  cbn [fst snd] in *. unfold clean_step, elem_eqb.
  case_bool_decide as H0; [by exists reals|].
  case_bool_decide as H1; [by exists reals|].
  case_bool_decide as H2.
  - destruct (dd <? length out) eqn:Hlt.
    + apply Nat.ltb_lt in Hlt. subst out.
      rewrite length_app, repeat_length in Hlt.
      destruct reals as [|r reals]; [simpl in Hlt; lia|].
      exists reals. cbn [fst snd]. split; [reflexivity|].
      split; [by inversion Hreals|done].
    + apply Nat.ltb_ge in Hlt. subst out.
      rewrite length_app, repeat_length in Hlt.
      destruct reals as [|r reals]; [|simpl in Hlt; lia].
      destruct rooted.
      * exists []. done.
      * exists []. cbn [fst snd app]. rewrite repeat_length.
        split; [reflexivity|]. split; [constructor|done].
  - exists (e :: reals). cbn [fst snd]. subst out.
    split; [reflexivity|]. split; [|done].
    constructor; [|done]. done.
Qed.

Lemma fold_well_formed rooted es : forall st,
  Forall no_sep es -> well_formed rooted st ->
  well_formed rooted (fold_left (clean_step rooted) es st).
Proof.
  induction es as [|e es IH]; intros st Hes Hst; simpl; [done|].
  inversion Hes; subst. apply IH; [done|]. by apply clean_step_well_formed.
Qed.

Lemma clean_state_well_formed rooted l : well_formed rooted (clean_state rooted l).
Proof.
  apply fold_well_formed; [apply split_sep_no_seps|].
  exists []. done.
Qed.

Lemma fold_skip_empty rooted es : forall st,
  fold_left (clean_step rooted) es st =
  fold_left (clean_step rooted) (filter (fun e => nonempty e = true) es) st.
Proof.
  induction es as [|e es IH]; intros st; [reflexivity|].
  destruct e as [|c e].
  - rewrite filter_cons_False by done. cbn [fold_left].
    replace (clean_step rooted st []) with st; [apply IH|].
    destruct st. reflexivity.
  - rewrite filter_cons_True by done. cbn [fold_left]. apply IH.
Qed.

Lemma fold_dotdots k : forall j,
  fold_left (clean_step false) (repeat dotdot k) (repeat dotdot j, j) =
    (repeat dotdot (k + j), k + j).
Proof.
  induction k as [|k IH]; intros j; simpl; [reflexivity|].
  rewrite repeat_length, Nat.ltb_irrefl.
  change (dotdot :: repeat dotdot j) with (repeat dotdot (S j)).
  rewrite IH. by rewrite Nat.add_succ_r.
Qed.

Lemma fold_reals rooted reals : forall base dd,
  Forall real_elem reals ->
  fold_left (clean_step rooted) (rev reals) (base, dd) = (reals ++ base, dd).
Proof.
  induction reals as [|r reals IH]; intros base dd Hreals; simpl; [reflexivity|].
  inversion Hreals; subst.
  rewrite fold_left_app, IH by done. simpl. by apply clean_step_real.
Qed.

(** Cleaning the elements that [Clean] has written writes them again. *)
Lemma fold_written rooted out dd :
  well_formed rooted (out, dd) ->
  fold_left (clean_step rooted) (rev out) ([], 0) = (out, dd).
Proof.
  intros (reals & Hout & Hreals & Hroot). cbn [fst snd] in *. subst out.
  rewrite rev_app_distr, fold_left_app.
  assert (rev (repeat dotdot dd) = repeat dotdot dd) as ->.
  { clear. induction dd as [|dd IH]; simpl; [reflexivity|].
    rewrite IH. clear. induction dd as [|dd IH]; simpl; [reflexivity|]. by rewrite IH. }
  assert (fold_left (clean_step rooted) (repeat dotdot dd) ([], 0) =
          (repeat dotdot dd, dd)) as ->.
  { destruct rooted.
    - rewrite Hroot by done. reflexivity.
    - pose proof (fold_dotdots dd 0) as Hd. simpl in Hd.
      by rewrite Nat.add_0_r in Hd. }
  by apply fold_reals.
Qed.

Lemma real_plain e : real_elem e -> plain e.
Proof. intros (H0 & _ & _ & Hs). split; [done|]. by destruct e. Qed.

Lemma dotdot_plain : plain dotdot.
Proof. split; [|reflexivity]. repeat constructor. Qed.

Lemma well_formed_plain rooted out dd :
  well_formed rooted (out, dd) -> Forall plain (rev out).
Proof.
  intros (reals & Hout & Hreals & _). cbn [fst snd] in *. subst out.
  apply Forall_rev, Forall_app. split.
  - eapply Forall_impl; [exact Hreals|]. apply real_plain.
  - clear. induction dd; simpl; constructor; [apply dotdot_plain|done].
Qed.

Lemma split_sep_join es :
  es <> [] -> Forall plain es -> split_sep (join_elems es) = es.
Proof.
  induction es as [|e es IH]; intros Hne Hes; [done|].
  inversion Hes as [|? ? [He _] Hes']; subst.
  destruct es as [|e' es].
  - simpl. by apply split_sep_no_sep.
  - change (join_elems (e :: e' :: es)) with (e ++ Separator :: join_elems (e' :: es)).
    rewrite split_sep_app, (split_sep_no_sep e He), IH by done. reflexivity.
Qed.

Lemma filter_plain es :
  Forall plain es -> filter (fun e => nonempty e = true) es = es.
Proof.
  induction 1 as [|e es [_ He] _ IH]; [reflexivity|].
  by rewrite filter_cons_True, IH.
Qed.

Lemma join_elems_head e es :
  plain e -> exists c l, join_elems (e :: es) = c :: l /\ IsPathSeparator c = false.
Proof.
  intros [Hs Hn]. destruct e as [|c e]; [discriminate|].
  inversion Hs; subst.
  destruct es; simpl; eauto.
Qed.

Lemma clean_chars_text rooted out dd c l :
  IsPathSeparator c = rooted ->
  well_formed rooted (out, dd) ->
  filter (fun e => nonempty e = true) (split_sep (c :: l)) = rev out ->
  clean_chars (c :: l) = render rooted out.
Proof.
  intros Hc Hwf Hsplit. rewrite clean_chars_eq, Hc. f_equal.
  unfold clean_state. rewrite fold_skip_empty, Hsplit.
  by rewrite (fold_written _ _ _ Hwf).
Qed.

Lemma clean_render rooted out dd :
  well_formed rooted (out, dd) ->
  clean_chars (render rooted out) = render rooted out.
Proof.
  intros Hwf. pose proof (well_formed_plain _ _ _ Hwf) as Hplain.
  unfold render at 1. destruct (rev out) as [|e es] eqn:Hes.
  - destruct rooted; simpl.
    + unfold render. rewrite Hes. reflexivity.
    + unfold render. rewrite Hes. reflexivity.
  - destruct rooted.
    + eapply clean_chars_text; [reflexivity|exact Hwf|].
      change (split_sep (Separator :: join_elems (e :: es)))
        with ([] :: split_sep (join_elems (e :: es))).
      rewrite filter_cons_False by done.
      rewrite split_sep_join, filter_plain, Hes by done. reflexivity.
    + inversion Hplain as [|? ? He Hes']; subst.
      destruct (join_elems_head e es He) as (c & l & Hj & Hc).
      rewrite Hj. erewrite clean_chars_text; [reflexivity|exact Hc|exact Hwf|].
      rewrite <- Hj, split_sep_join, filter_plain, Hes by done. reflexivity.
Qed.

Lemma clean_prefix rooted out dd :
  well_formed rooted (out, dd) ->
  clean_chars (prefix_of rooted out) = render rooted out.
Proof.
  intros Hwf. pose proof (well_formed_plain _ _ _ Hwf) as Hplain.
  unfold prefix_of. destruct (rev out) as [|e es] eqn:Hes.
  - destruct rooted; simpl; unfold render; rewrite Hes; reflexivity.
  - assert (split_sep (join_elems (e :: es) ++ [Separator]) = (e :: es) ++ [[]]) as Hsp.
    { rewrite split_sep_app, split_sep_join by done. reflexivity. }
    assert (filter (fun e => nonempty e = true) ((e :: es) ++ [[]]) = e :: es) as Hf.
    { rewrite filter_app, filter_plain by done. apply app_nil_r. }
    destruct rooted.
    + eapply clean_chars_text; [reflexivity|exact Hwf|].
      change (split_sep (Separator :: join_elems (e :: es) ++ [Separator]))
        with ([] :: split_sep (join_elems (e :: es) ++ [Separator])).
      rewrite filter_cons_False by done. by rewrite Hsp, Hf, Hes.
    + inversion Hplain as [|? ? He Hes']; subst.
      destruct (join_elems_head e es He) as (c & l & Hj & Hc).
      cbn [app]. rewrite Hj. cbn [app].
      erewrite clean_chars_text; [reflexivity|exact Hc|exact Hwf|].
      change (c :: l ++ [Separator]) with ((c :: l) ++ [Separator]).
      rewrite <- Hj. by rewrite Hsp, Hf, Hes.
Qed.

(** Cleaning a path with one more real element at its end. *)
Lemma clean_chars_snoc c d n :
  real_elem n ->
  let rooted := IsPathSeparator c in
  clean_chars ((c :: d) ++ Separator :: n) =
    prefix_of rooted (fst (clean_state rooted (c :: d))) ++ n.
Proof.
  intros Hn rooted. cbn [app]. rewrite clean_chars_eq. fold rooted.
  unfold clean_state.
  change (c :: d ++ Separator :: n) with ((c :: d) ++ Separator :: n).
  rewrite split_sep_app, fold_left_app.
  destruct (fold_left (clean_step rooted) (split_sep (c :: d)) ([], 0))
    as [out dd] eqn:Hst.
  pose proof Hn as (Hn0 & Hn1 & Hn2 & Hns).
  rewrite (split_sep_no_sep n Hns). cbn [fold_left].
  rewrite (clean_step_real _ _ _ _ Hn). cbn [fst].
  unfold render, prefix_of. cbn [rev]. rewrite join_elems_snoc.
  destruct rooted.
  - destruct (rev out) as [|e es]; [reflexivity|].
    cbn [app]. rewrite <- app_assoc. reflexivity.
  - destruct (rev out) as [|e es].
    + destruct n; [done|reflexivity].
    + cbn [app]. rewrite <- app_assoc. cbn [app].
      destruct (join_elems (e :: es) ++ Separator :: n) eqn:Hj; [|reflexivity].
      by destruct (join_elems (e :: es)).
Qed.

Lemma prefix_of_ends_dir rooted out : ends_dir (prefix_of rooted out).
Proof.
  unfold prefix_of, ends_dir. destruct (rev out) as [|e es].
  - destruct rooted; [right; by exists []|by left].
  - right. destruct rooted.
    + exists (Separator :: join_elems (e :: es)). reflexivity.
    + exists (join_elems (e :: es)). reflexivity.
Qed.

Lemma span_elem_app a b :
  no_sep a -> (b = [] \/ exists b', b = Separator :: b') ->
  span_elem (a ++ b) = (a, b).
Proof.
  intros Ha Hb. induction Ha as [|c a Hc Ha IH]; simpl.
  - destruct Hb as [->|[b' ->]]; reflexivity.
  - by rewrite Hc, IH.
Qed.

Lemma span_elem_no_sep r : no_sep (fst (span_elem r)).
Proof.
  induction r as [|c r IH]; simpl; [constructor|].
  destruct (IsPathSeparator c) eqn:Hc; [constructor|].
  destruct (span_elem r). by constructor.
Qed.

Lemma rev_snoc_cases (n p : list ascii) :
  real_elem n -> ends_dir p ->
  exists c r, rev n = c :: r /\ IsPathSeparator c = false /\
              no_sep (rev n) /\
              (rev p = [] \/ exists b', rev p = Separator :: b').
Proof.
  intros (Hn0 & _ & _ & Hns) Hp.
  assert (no_sep (rev n)) as Hrev by (by apply Forall_rev).
  destruct (rev n) as [|c r] eqn:Hr.
  - apply (f_equal (@rev ascii)) in Hr. rewrite rev_involutive in Hr. done.
  - exists c, r. inversion Hrev; subst. repeat split; try done.
    destruct Hp as [->|[p' ->]]; [by left|right].
    rewrite rev_app_distr. eauto.
Qed.

Lemma Base_snoc p n :
  real_elem n -> ends_dir p -> Base (str (p ++ n)) = str n.
Proof.
  intros Hn Hp.
  destruct (rev_snoc_cases n p Hn Hp) as (c & r & Hr & Hc & Hrev & Hrp).
  unfold Base. rewrite chars_str.
  destruct (p ++ n) as [|a l] eqn:Hpn.
  { destruct Hn as (Hn0 & _). by apply app_eq_nil in Hpn as [_ ->]. }
  rewrite <- Hpn, rev_app_distr, Hr. cbn [app drop_seps]. rewrite Hc.
  change (c :: r ++ rev p) with ((c :: r) ++ rev p).
  rewrite <- Hr, span_elem_app by done. cbn [fst].
  rewrite rev_involutive. destruct n; [by destruct Hn|reflexivity].
Qed.

Lemma Dir_snoc p n :
  real_elem n -> ends_dir p -> Dir (str (p ++ n)) = str (clean_chars p).
Proof.
  intros Hn Hp.
  destruct (rev_snoc_cases n p Hn Hp) as (c & r & Hr & Hc & Hrev & Hrp).
  unfold Dir. rewrite chars_str, rev_app_distr, span_elem_app by done.
  cbn [snd]. by rewrite rev_involutive.
Qed.

Lemma chars_app a b : chars (a +:+ b) = chars a ++ chars b.
Proof. induction a as [|c a IH]; simpl; [reflexivity|]. by rewrite IH. Qed.

Lemma clean_chars_real n : real_elem n -> clean_chars n = n.
Proof.
  intros Hn. pose proof Hn as (Hn0 & _ & _ & Hns).
  destruct n as [|c l]; [done|].
  rewrite clean_chars_eq. inversion Hns as [|? ? Hc _]; subst. rewrite Hc.
  unfold clean_state. rewrite (split_sep_no_sep _ Hns). cbn [fold_left].
  rewrite (clean_step_real _ _ _ _ Hn). reflexivity.
Qed.

(** A real element joined to a directory: [Base] gives the element back and
    [Dir] the directory, cleaned. *)
Lemma Join_dir_name dir name :
  real_elem (chars name) ->
  Base (Join [dir; name]) = name /\ Dir (Join [dir; name]) = Clean dir.
Proof.
  intros Hn. pose proof Hn as (Hn0 & _).
  assert (name <> "") as Hname by (by intros ->).
  unfold Join. case_bool_decide as Hdir.
  - subst dir. rewrite bool_decide_eq_false_2 by done.
    unfold strings.Join, Clean. rewrite (clean_chars_real _ Hn), str_chars.
    rewrite <- (str_chars name) at 1 3.
    change (chars name) with ([] ++ chars name).
    rewrite Base_snoc, Dir_snoc by (done || by left).
    rewrite str_chars. done.
  - unfold strings.Join, Clean.
    rewrite !chars_app. change (chars (str [Separator])) with [Separator].
    destruct (chars dir) as [|c d] eqn:Hd.
    { destruct Hdir. by rewrite <- (str_chars dir), Hd. }
    change ((c :: d) ++ [Separator] ++ chars name)
      with ((c :: d) ++ Separator :: chars name).
    rewrite clean_chars_snoc by done.
    rewrite Base_snoc, Dir_snoc by (done || apply prefix_of_ends_dir).
    rewrite str_chars. split; [reflexivity|].
    destruct (clean_state (IsPathSeparator c) (c :: d)) as [out dd] eqn:Hst.
    cbn [fst]. erewrite clean_prefix.
    + by rewrite clean_chars_eq, Hst.
    + rewrite <- Hst. apply clean_state_well_formed.
Qed.

Lemma clean_chars_idempotent l : clean_chars (clean_chars l) = clean_chars l.
Proof.
  destruct l as [|c l]; [reflexivity|].
  rewrite clean_chars_eq.
  destruct (clean_state (IsPathSeparator c) (c :: l)) as [out dd] eqn:Hst.
  cbn [fst]. eapply clean_render. rewrite <- Hst. apply clean_state_well_formed.
Qed.

Lemma Clean_idempotent path : Clean (Clean path) = Clean path.
Proof. unfold Clean. by rewrite chars_str, clean_chars_idempotent. Qed.

Lemma Clean_Dir path : Clean (Dir path) = Dir path.
Proof. unfold Dir, Clean. by rewrite chars_str, clean_chars_idempotent. Qed.

Lemma Base_no_sep path : Base path <> "/" -> no_sep (chars (Base path)).
Proof.
  unfold Base. destruct (chars path) as [|c l]; [repeat constructor|].
  destruct (rev (fst (span_elem (drop_seps (rev (c :: l)))))) as [|a e] eqn:He;
    [done|].
  intros _. rewrite chars_str, <- He. apply Forall_rev, span_elem_no_sep.
Qed.

Lemma TrimSuffix_no_sep s suffix :
  no_sep (chars s) -> no_sep (chars (strings.TrimSuffix s suffix)).
Proof.
  intros Hs. unfold strings.TrimSuffix. destruct (strings.HasSuffix s suffix); [|done].
  rewrite chars_str. by apply Forall_take.
Qed.

Lemma outputFileName_real file :
  Base file <> "/" -> real_elem (chars (outputFileName file)).
Proof.
  intros Hbase. unfold outputFileName, stem. rewrite chars_app.
  pose proof (TrimSuffix_no_sep _ (Ext (Base file)) (Base_no_sep _ Hbase)) as Hs.
  set (s := chars (strings.TrimSuffix (Base file) (Ext (Base file)))) in *.
  assert (forall l, length l < 8 -> s ++ chars "_av1.mkv" <> l) as Hlen.
  { intros l Hl <-. rewrite length_app in Hl. simpl in Hl. lia. }
  repeat split; try (apply Hlen; simpl; lia).
  apply Forall_app. split; [exact Hs|]. repeat constructor.
Qed.

(** A path with an extension is not made of slashes only. *)
Lemma Ext_Base path : Ext path <> "" -> Base path <> "/".
Proof.
  unfold Ext. intros Hext.
  destruct (rev (chars path)) as [|c r] eqn:Hrev; [done|].
  assert (IsPathSeparator c = false) as Hc.
  { destruct (IsPathSeparator c) eqn:Hc; [|reflexivity].
    simpl in Hext. by rewrite Hc in Hext. }
  apply (f_equal (@rev ascii)) in Hrev. rewrite rev_involutive in Hrev.
  unfold Base. rewrite Hrev.
  destruct (rev (c :: r)) as [|a l] eqn:Hl.
  { apply (f_equal (@rev ascii)) in Hl. by rewrite rev_involutive in Hl. }
  rewrite <- Hl, rev_involutive. cbn [drop_seps]. rewrite Hc.
  pose proof (span_elem_no_sep (c :: r)) as Hns.
  destruct (rev (fst (span_elem (c :: r)))) as [|b e] eqn:He.
  { apply (f_equal (@rev ascii)) in He. rewrite rev_involutive in He.
    simpl in He. rewrite Hc in He. by destruct (span_elem r). }
  intros Hslash. apply (f_equal chars) in Hslash. rewrite chars_str in Hslash.
  injection Hslash as -> ->.
  apply Forall_rev in Hns. rewrite He in Hns. by inversion Hns.
Qed.

End path_facts.

(** ** The encoder runs of the loops *)

Section Runs.
Context {W : Type} `{OS W}.

Lemma generic_convert_all_runs config files : forall c (st : state W),
  exists evs,
    extends st (snd (Generic.convert_all config files c st)) evs /\
    runs evs = generic_encoder_runs config files.
Proof.
  induction files as [|file files IH]; intros c st; simpl.
  - exists []. split; [apply extends_refl|reflexivity].
  - unfold mbind, M_bind.
    destruct (generic_convert_one_spec config c file st) as (evs1 & -> & Hruns1).
    match goal with
    | |- context [Generic.convert_all config files ?c1 ?st1] =>
        destruct (IH c1 st1) as (evs2 & Hext & Hruns2)
    end.
    exists (evs1 ++ evs2). split.
    + unfold extends in *. rewrite Hext. simpl. by rewrite app_assoc.
    + rewrite runs_app, Hruns1, Hruns2. reflexivity.
Qed.

Lemma convert_one_inner_skip config c file (st : state W) codec :
  let ff := Filtered.FfmpegPath config in
  let p1 := Filtered.getVideoCodec file ff st in
  let p2 := Filtered.getVideoCodec file ff (snd p1) in
  skips (fst p1) = false ->
  fst p2 = Ok codec ->
  Filtered.is_av1 codec = true ->
  Filtered.convert_one config c file st =
    (succeeded c,
     {| world := world (snd p2);
        trace := trace (snd p2) ++ [EvLog (LogSkipDriver file)] |}).
Proof.
  cbv zeta. intros Hp1 Hp2 Hav1.
  rewrite (convert_one_convert _ _ _ _ Hp1).
  rewrite (convertVideoToAV1_skip _ _ _ _ Hp2 Hav1). reflexivity.
Qed.

(** The events of one round of the filtered loop: at most one encoder run,
    and that one for the file of the round. *)
Lemma filtered_convert_one_runs config c file (st : state W) :
  let ff := Filtered.FfmpegPath config in
  let p1 := Filtered.getVideoCodec file ff st in
  let p2 := Filtered.getVideoCodec file ff (snd p1) in
  exists evs,
    extends st (snd (Filtered.convert_one config c file st)) evs /\
    runs evs =
      if skips (fst p1) || skips (fst p2) then []
      else [EvRun ff (Filtered.ffmpegArgs file (Filtered.fullOutputPath file))].
Proof.
  cbv zeta.
  set (ff := Filtered.FfmpegPath config).
  destruct (getVideoCodec_extends file ff st) as (evs1 & Hext1 & Hruns1).
  destruct (skips (fst (Filtered.getVideoCodec file ff st))) eqn:Hs1.
  - destruct (fst (Filtered.getVideoCodec file ff st)) as [codec|] eqn:Hp1;
      [|discriminate].
    simpl in Hs1. rewrite (convert_one_skip _ _ _ _ _ Hp1 Hs1).
    exists (evs1 ++ [EvLog (LogSkip file)]). split.
    + unfold extends in *. simpl. fold ff. by rewrite Hext1, app_assoc.
    + rewrite runs_app, Hruns1. reflexivity.
  - rewrite (convert_one_convert _ _ _ _ Hs1). fold ff. cbn [orb].
    set (st1 := snd (Filtered.getVideoCodec file ff st)) in *.
    destruct (getVideoCodec_extends file ff st1) as (evs2 & Hext2 & Hruns2).
    destruct (skips (fst (Filtered.getVideoCodec file ff st1))) eqn:Hs2.
    + destruct (fst (Filtered.getVideoCodec file ff st1)) as [codec|] eqn:Hp2;
        [|discriminate].
      simpl in Hs2. rewrite (convertVideoToAV1_skip _ _ _ _ Hp2 Hs2).
      unfold count. simpl.
      exists (evs1 ++ evs2 ++ [EvLog (LogSkipDriver file)]). split.
      * unfold extends in *. simpl. by rewrite Hext2, Hext1, <- !app_assoc.
      * rewrite !runs_app, Hruns1, Hruns2. reflexivity.
    + rewrite (convertVideoToAV1_encode _ _ _ Hs2).
      destruct (before_encode_extends file ff st1) as (evs3 & Hext3 & Hruns3).
      destruct (encode_spec file ff (before_encode file ff st1))
        as (evs4 & -> & Hruns4).
      unfold count. cbn [fst snd].
      destruct (exec_err _); cbn [fst snd world trace].
      * exists (evs1 ++ evs3 ++ evs4 ++ [EvLog (LogConvertFailed file (EncodeError file e))]).
        split.
        -- unfold extends in *. simpl. by rewrite Hext3, Hext1, <- !app_assoc.
        -- rewrite !runs_app, Hruns1, Hruns3, Hruns4. reflexivity.
      * exists (evs1 ++ evs3 ++ evs4). split.
        -- unfold extends in *. simpl. by rewrite Hext3, Hext1, <- !app_assoc.
        -- rewrite !runs_app, Hruns1, Hruns3, Hruns4. simpl. reflexivity.
Qed.

Lemma filtered_convert_all_runs config files : forall c (st : state W),
  exists evs,
    extends st (snd (Filtered.convert_all config files c st)) evs /\
    Forall (filtered_encoder_run_of config files) (runs evs).
Proof.
  induction files as [|file files IH]; intros c st; simpl.
  - exists []. split; [apply extends_refl|constructor].
  - unfold mbind, M_bind.
    destruct (filtered_convert_one_runs config c file st) as (evs1 & Hext1 & Hruns1).
    destruct (Filtered.convert_one config c file st) as [c1 st1]. simpl in Hext1.
    destruct (IH c1 st1) as (evs2 & Hext2 & Hruns2).
    exists (evs1 ++ evs2). split.
    + eapply extends_trans; eauto.
    + rewrite runs_app. apply Forall_app. split.
      * rewrite Hruns1. destruct (_ || _); constructor; [|constructor].
        exists file. split; [left|reflexivity].
      * eapply Forall_impl; [exact Hruns2|].
        intros e (f & Hf & ->). exists f. split; [by right|reflexivity].
Qed.
End Runs.

(** ** The small machine *)

Lemma ancestors_head fuel path : exists l, Machine.ancestors fuel path = path :: l.
Proof.
  destruct fuel as [|fuel]; simpl; [eauto|].
  destruct (bool_decide _); eauto.
Qed.

Lemma machine_MkdirAll_makes (w : Machine.machine) path perm w' :
  os_MkdirAll w path perm = (w', None) ->
  os_Stat w' path = inr {| fi_IsDir := true |}.
Proof.
  simpl. unfold Machine.mkdirAll, Machine.stat.
  destruct (Machine.mem path (Machine.readonly w)); [discriminate|].
  intros [= <-]. simpl.
  destruct (ancestors_head (String.length path) path) as [l ->].
  unfold Machine.mem. rewrite bool_decide_eq_true_2; [reflexivity|].
  simpl. left.
Qed.

(** * The claims *)

Import Machine.

(** C5: a configuration file whose decoded [BasePath] is empty makes
    [loadConfig] fail with the missing-field error for [BasePath], in both
    variants.  The state after the call is the state before it: nothing was
    logged and no directory was made, the [OutputPath] of the generic variant
    included. *)
Theorem load_without_BasePath W `{OS W}
    (gjson : string -> option Generic.Config)
    (fjson : string -> option Filtered.Config)
    (filename : string) (st : state W) (data : string) :
  os_ReadFile (world st) filename = inr data ->
  (forall config,
     gjson data = Some config -> Generic.BasePath config = "" ->
     Generic.loadConfig gjson filename st =
       (Err (MissingFieldError "BasePath"), st)) /\
  (forall config,
     fjson data = Some config -> Filtered.BasePath config = "" ->
     Filtered.loadConfig fjson filename st =
       (Err (MissingFieldError "BasePath"), st)).
Proof.
  intros Hread. split; intros config Hjson Hbase.
  - eapply generic_load_missing_base; eauto.
  - eapply filtered_load_missing_base; eauto.
Qed.

Lemma load_without_BasePath_witness :
  let st := boot (with_config pc "nobase") in
  os_ReadFile (world st) "config.json" = inr "nobase" /\
  Generic.loadConfig generic_json "config.json" st =
    (Err (MissingFieldError "BasePath"), st) /\
  Filtered.loadConfig filtered_json "config.json" st =
    (Err (MissingFieldError "BasePath"), st).
Proof.
  intros st.
  assert (os_ReadFile (world st) "config.json" = inr "nobase") as Hread
    by reflexivity.
  destruct (load_without_BasePath machine generic_json filtered_json
              "config.json" st "nobase" Hread) as [Hg Hf].
  split; [exact Hread|].
  split; [eapply Hg|eapply Hf]; reflexivity.
Defined.

(** C6: in the generic variant, when the configuration names a [BasePath]
    and an [OutputPath], the former exists and the latter does not, then
    [loadConfig] calls [os.MkdirAll] on [OutputPath] with mode 0755, once;
    if that fails, loading fails with the directory-create error; if it
    succeeds and the encoder is found, loading succeeds; and after every
    successful load the directory exists.  The first hypothesis is what
    [os.MkdirAll] promises. *)
Theorem load_creates_OutputPath W `{OS W}
    (json : string -> option Generic.Config)
    (filename : string) (st : state W) (data : string) (config : Generic.Config) :
  (forall w path perm w',
     os_MkdirAll w path perm = (w', None) ->
     os_Stat w' path = inr {| fi_IsDir := true |}) ->
  os_ReadFile (world st) filename = inr data ->
  json data = Some config ->
  Generic.BasePath config <> "" ->
  Generic.OutputPath config <> "" ->
  IsNotExist (stat_err (os_Stat (world st) (Generic.BasePath config))) = false ->
  os_Stat (world st) (Generic.OutputPath config) = inl ErrNotExist ->
  let out := Generic.OutputPath config in
  let mk := os_MkdirAll (world st) out 493 in
  let r := Generic.loadConfig json filename st in
  (exists evs, extends st (snd r) evs /\
               filter is_mkdir evs = [EvMkdirAll out 493]) /\
  (forall e, snd mk = Some e -> fst r = Err (DirectoryCreateError out e)) /\
  (snd mk = None ->
   exec_LookPath (fst mk) (Generic.FfmpegPath (with_default_ffmpeg config)) = None ->
   fst r = Ok (with_default_ffmpeg config)) /\
  (forall config', fst r = Ok config' ->
     os_Stat (world (snd r)) out = inr {| fi_IsDir := true |}).
Proof.
  intros Hlaw Hread Hjson Hbase Hout Hstat Hmissing out mk r.
  pose proof (generic_load_mkdir json filename st data config
                Hread Hjson Hbase Hout Hstat Hmissing) as Hm.
  cbv zeta in Hm. fold out mk r in Hm.
  assert (forall made, filter is_mkdir (load_events config made) = [EvMkdirAll out 493])
    as Hmk.
  { intros made. unfold load_events.
    destruct (bool_decide _), made; reflexivity. }
  destruct mk as [w' [e|]] eqn:Emk; cbn [fst snd] in *.
  - rewrite Hm. cbn [fst snd]. repeat split.
    + exists (load_events config false). split; [reflexivity|apply Hmk].
    + by intros e' [= <-].
    + discriminate.
    + discriminate.
  - destruct Hm as (Hw & (evs & Htr & Hevs) & Hok). repeat split.
    + exists (load_events config true ++ evs). split; [exact Htr|].
      rewrite filter_app, Hmk, Hevs. reflexivity.
    + discriminate.
    + intros _. exact Hok.
    + intros config' _. rewrite Hw. eapply Hlaw. exact Emk.
Qed.

Lemma load_creates_OutputPath_witness :
  let st := boot pc in
  let r := Generic.loadConfig generic_json "config.json" st in
  os_Stat (world st) "/out/av1" = inl ErrNotExist /\
  fst r = Ok {| Generic.BasePath := "/media";
                Generic.OutputPath := "/out/av1";
                Generic.FfmpegPath := "ffmpeg" |} /\
  os_Stat (world (snd r)) "/out/av1" = inr {| fi_IsDir := true |}.
Proof.
  intros st r.
  assert (os_Stat (world st) "/out/av1" = inl ErrNotExist) as Hmissing
    by reflexivity.
  destruct (load_creates_OutputPath machine generic_json "config.json" st "generic"
              {| Generic.BasePath := "/media";
                 Generic.OutputPath := "/out/av1";
                 Generic.FfmpegPath := "" |}
              machine_MkdirAll_makes
              ltac:(reflexivity) ltac:(reflexivity)
              ltac:(discriminate) ltac:(discriminate)
              ltac:(reflexivity) Hmissing)
    as (_ & _ & Hok & Hdir).
  split; [exact Hmissing|].
  assert (fst r = Ok {| Generic.BasePath := "/media";
                        Generic.OutputPath := "/out/av1";
                        Generic.FfmpegPath := "ffmpeg" |}) as Hr.
  { apply Hok; reflexivity. }
  split; [exact Hr|]. eapply Hdir. exact Hr.
Defined.

(** C9: every round of the conversion loop adds one to exactly one counter,
    so the counters of a loop that starts from zero add up to the number of
    files: succeeded + failed in the generic variant, succeeded + failed +
    skipped in the filtered one. *)
Theorem every_file_counted_once W `{OS W} :
  (forall config c file (st : state W),
     let c' := fst (Generic.convert_one config c file st) in
     c' = generic_succeeded c \/ c' = generic_failed c) /\
  (forall config files (st : state W),
     let c := fst (Generic.convert_all config files generic_zero st) in
     Generic.successCount c + Generic.errorCount c = length files) /\
  (forall config c file (st : state W),
     let c' := fst (Filtered.convert_one config c file st) in
     c' = succeeded c \/ c' = failed c \/ c' = skipped c) /\
  (forall config files (st : state W),
     let c := fst (Filtered.convert_all config files filtered_zero st) in
     Filtered.successCount c + Filtered.errorCount c + Filtered.skippedCount c =
       length files).
Proof.
  repeat split.
  - intros. apply generic_convert_one_counts.
  - intros config files st.
    pose proof (generic_convert_all_sum config files generic_zero st) as Hs.
    simpl in *. lia.
  - intros. apply filtered_convert_one_counts.
  - intros config files st.
    pose proof (filtered_convert_all_sum config files filtered_zero st) as Hs.
    simpl in *. lia.
Qed.

(** C4: in a run that got past the startup, when the encoder exits with a
    non-zero code for a file, the round of that file adds one to the failure
    counter and leaves the other counters alone, the loop goes on with the
    files after it, [main] returns (exit code 0), and the summary it logs
    last carries the counters of the finished loop.  Both variants; in the
    filtered one the encoder runs only when neither probe skipped the
    file. *)
Theorem encoder_failure_is_counted W `{OS W} :
  (forall gjson (st st0 : state W) config pre file post code,
     generic_past_startup gjson st config (pre ++ file :: post) st0 ->
     let before := Generic.convert_all config pre generic_zero st0 in
     proc_status_of
       (snd (generic_encoder_run file (Generic.OutputPath config)
               (Generic.FfmpegPath config) (snd before))) = Exited code ->
     code <> 0%Z ->
     exists st1,
       Generic.convert_one config (fst before) file (snd before) =
         (generic_failed (fst before), st1) /\
       let rest := Generic.convert_all config post (generic_failed (fst before)) st1 in
       Generic.convert_all config (pre ++ file :: post) generic_zero st0 = rest /\
       Generic.main gjson st =
         (0%Z, {| world := world (snd rest);
                  trace := trace (snd rest) ++
                    [EvLog (LogSummary (Generic.successCount (fst rest))
                                       (Generic.errorCount (fst rest)));
                     EvLog LogExit] |})) /\
  (forall fjson (st st0 : state W) config pre file post code,
     filtered_past_startup fjson st config (pre ++ file :: post) st0 ->
     let ff := Filtered.FfmpegPath config in
     let before := Filtered.convert_all config pre filtered_zero st0 in
     let p1 := Filtered.getVideoCodec file ff (snd before) in
     let p2 := Filtered.getVideoCodec file ff (snd p1) in
     skips (fst p1) = false ->
     skips (fst p2) = false ->
     proc_status_of
       (snd (encoder_run file ff (before_encode file ff (snd p1)))) = Exited code ->
     code <> 0%Z ->
     exists st1,
       Filtered.convert_one config (fst before) file (snd before) =
         (failed (fst before), st1) /\
       let rest := Filtered.convert_all config post (failed (fst before)) st1 in
       Filtered.convert_all config (pre ++ file :: post) filtered_zero st0 = rest /\
       Filtered.main fjson st =
         (0%Z, {| world := world (snd rest);
                  trace := trace (snd rest) ++
                    [EvLog (LogSummarySkipped (Filtered.successCount (fst rest))
                                              (Filtered.errorCount (fst rest))
                                              (Filtered.skippedCount (fst rest)));
                     EvLog LogExit] |})).
Proof.
  split.
  - intros gjson st st0 config pre file post code Hstart before Hstatus Hcode.
    destruct (generic_convert_one_spec config (fst before) file (snd before))
      as (evs & Hone & _).
    cbv zeta in Hone. rewrite Hstatus in Hone. simpl in Hone.
    rewrite (proj2 (Z.eqb_neq code 0) Hcode) in Hone.
    eexists. split; [exact Hone|].
    assert (Generic.convert_all config (pre ++ file :: post) generic_zero st0 =
            Generic.convert_all config post (generic_failed (fst before))
              {| world := fst (generic_encoder_run file (Generic.OutputPath config)
                                 (Generic.FfmpegPath config) (snd before));
                 trace := trace (snd before) ++ evs |}) as Hall.
    { rewrite generic_convert_all_app. fold before. simpl.
      unfold mbind, M_bind. rewrite Hone. reflexivity. }
    cbv zeta. split; [exact Hall|].
    rewrite (generic_main_past_startup _ _ _ _ _ Hstart) by (by destruct pre).
    cbv zeta. rewrite Hall. reflexivity.
  - intros fjson st st0 config pre file post code Hstart ff before p1 p2
      Hs1 Hs2 Hstatus Hcode.
    assert (exists st1, Filtered.convert_one config (fst before) file (snd before) =
                        (failed (fst before), st1)) as (st1 & Hone).
    { rewrite (convert_one_convert _ _ _ _ Hs1). fold ff p1.
      rewrite (convertVideoToAV1_encode _ _ _ Hs2).
      destruct (encode_spec file ff (before_encode file ff (snd p1)))
        as (evs & -> & _).
      rewrite Hstatus. simpl. rewrite (proj2 (Z.eqb_neq code 0) Hcode).
      unfold count. simpl. eauto. }
    exists st1. split; [exact Hone|].
    assert (Filtered.convert_all config (pre ++ file :: post) filtered_zero st0 =
            Filtered.convert_all config post (failed (fst before)) st1) as Hall.
    { rewrite filtered_convert_all_app. fold before. simpl.
      unfold mbind, M_bind. rewrite Hone. reflexivity. }
    cbv zeta. split; [exact Hall|].
    rewrite (filtered_main_past_startup _ _ _ _ _ Hstart) by (by destruct pre).
    cbv zeta. rewrite Hall. reflexivity.
Qed.

Lemma encoder_failure_is_counted_witness :
  let gm := with_children pc [exits 0 ""; exits 1 ""; exits 0 ""] in
  let fm := with_children pc [exits 0 "h264"; exits 0 "h264"; exits 1 ""] in
  (fst (Generic.main generic_json (boot gm)) = 0%Z /\
   summaries (trace (snd (Generic.main generic_json (boot gm)))) = [(2, 3, 0)]) /\
  (fst (Filtered.main filtered_json (boot fm)) = 0%Z /\
   summaries (trace (snd (Filtered.main filtered_json (boot fm)))) = [(0, 3, 0)]).
Proof.
  intros gm fm.
  destruct (encoder_failure_is_counted machine) as [Hg Hf].
  split.
  - set (config := {| Generic.BasePath := "/media";
                      Generic.OutputPath := "/out/av1";
                      Generic.FfmpegPath := "ffmpeg" |}).
    set (st0 := snd (Generic.findVideoFiles "/media"
                       (generic_loaded config
                          (snd (Generic.loadConfig generic_json "config.json"
                                  (generic_started (boot gm))))))).
    destruct (Hg generic_json (boot gm) st0 config
                ["/media/2024-01-01/d.mp4"] "/media/20240101/a.mp4"
                ["/media/20240101/b.MKV"; "/media/20240101/sub.mov/c.webm";
                 "/media/notadate/b.mkv"] 1%Z)
      as (st1 & Hone & _ & Hmain).
    + repeat split; vm_compute; reflexivity.
    + vm_compute. reflexivity.
    + discriminate.
    + apply (f_equal snd) in Hone. cbn [snd] in Hone. subst st1.
      rewrite Hmain. split; vm_compute; reflexivity.
  - set (config := {| Filtered.BasePath := "/media";
                      Filtered.FfmpegPath := "/usr/bin/ffmpeg" |}).
    set (st0 := snd (Filtered.findVideoFiles "/media"
                       (filtered_loaded config
                          (snd (Filtered.loadConfig filtered_json "config.json"
                                  (filtered_started (boot fm))))))).
    destruct (Hf filtered_json (boot fm) st0 config
                [] "/media/20240101/a.mp4"
                ["/media/20240101/b.MKV"; "/media/20240101/sub.mov/c.webm"] 1%Z)
      as (st1 & Hone & _ & Hmain).
    + repeat split; vm_compute; reflexivity.
    + vm_compute. reflexivity.
    + vm_compute. reflexivity.
    + vm_compute. reflexivity.
    + discriminate.
    + apply (f_equal snd) in Hone. cbn [snd] in Hone. subst st1.
      rewrite Hmain. split; vm_compute; reflexivity.
Defined.

Lemma filtered_convertVideoToAV1_runs W `{OS W} file ff (st : state W) :
  exists evs,
    extends st (snd (Filtered.convertVideoToAV1 file ff st)) evs /\
    runs evs =
      if skips (fst (Filtered.getVideoCodec file ff st)) then []
      else [EvRun ff (Filtered.ffmpegArgs file (Filtered.fullOutputPath file))].
Proof.
  destruct (getVideoCodec_extends file ff st) as (evs1 & Hext1 & Hruns1).
  destruct (skips (fst (Filtered.getVideoCodec file ff st))) eqn:Hs.
  - destruct (fst (Filtered.getVideoCodec file ff st)) as [codec|] eqn:Hp;
      [|discriminate].
    simpl in Hs. rewrite (convertVideoToAV1_skip _ _ _ _ Hp Hs).
    exists (evs1 ++ [EvLog (LogSkipDriver file)]). split.
    + unfold extends in *. simpl. by rewrite Hext1, app_assoc.
    + rewrite runs_app, Hruns1. reflexivity.
  - rewrite (convertVideoToAV1_encode _ _ _ Hs).
    destruct (before_encode_extends file ff st) as (evs2 & Hext2 & Hruns2).
    destruct (encode_spec file ff (before_encode file ff st))
      as (evs3 & -> & Hruns3).
    exists (evs2 ++ evs3). split.
    + unfold extends in *. simpl. by rewrite Hext2, app_assoc.
    + rewrite runs_app, Hruns2, Hruns3. reflexivity.
Qed.




(** C8: the encoder is run with the arguments
    -i <input> -c:v av1_qsv -c:a copy -y <output> and no others, where
    <output> joins a directory and the file name <stem>_av1.mkv, <stem>
    being the base name of the input without its extension.  The directory
    is [OutputPath] in the generic variant and the directory of the input in
    the filtered one: unless the input path is made of slashes only, which
    a path with a video extension is not, the base name of <output> is that
    file name and its directory is that directory, cleaned.  The generic
    loop runs the encoder once for every file, in order; the filtered
    [convertVideoToAV1] runs it once unless its probe reports AV1, and every
    encoder run of the filtered loop is the one of a file of the loop. *)
Theorem encoder_arguments W `{OS W} :
  (forall file,
     outputFileName file = stem file +:+ "_av1.mkv" /\
     stem file +:+ filepath.Ext (filepath.Base file) = filepath.Base file) /\
  (forall file,
     Generic.is_video_ext (strings.ToLower (filepath.Ext file)) = true ->
     filepath.Base file <> "/") /\
  (forall file,
     filepath.Base file <> "/" ->
     (forall out,
        filepath.Base (Generic.fullOutputPath file out) = outputFileName file /\
        filepath.Dir (Generic.fullOutputPath file out) = filepath.Clean out) /\
     filepath.Base (Filtered.fullOutputPath file) = outputFileName file /\
     filepath.Dir (Filtered.fullOutputPath file) = filepath.Dir file) /\
  (forall file out ff (st : state W),
     exists evs,
       extends st (snd (Generic.convertVideoToAV1 file out ff st)) evs /\
       runs evs =
         [EvRun ff ["-i"; file; "-c:v"; "av1_qsv"; "-c:a"; "copy"; "-y";
                    filepath.Join [out; outputFileName file]]]) /\
  (forall config files c (st : state W),
     exists evs,
       extends st (snd (Generic.convert_all config files c st)) evs /\
       runs evs = generic_encoder_runs config files) /\
  (forall file ff (st : state W),
     exists evs,
       extends st (snd (Filtered.convertVideoToAV1 file ff st)) evs /\
       runs evs =
         if skips (fst (Filtered.getVideoCodec file ff st)) then []
         else [EvRun ff ["-i"; file; "-c:v"; "av1_qsv"; "-c:a"; "copy"; "-y";
                         filepath.Join [filepath.Dir file; outputFileName file]]]) /\
  (forall config files c (st : state W),
     exists evs,
       extends st (snd (Filtered.convert_all config files c st)) evs /\
       Forall (filtered_encoder_run_of config files) (runs evs)).
Proof.
  split; [|split; [|split; [|split; [|split; [|split]]]]].
  - intros file. split; [reflexivity|apply stem_Ext].
  - intros file Hvideo. apply path_facts.Ext_Base. intros Hext.
    rewrite Hext in Hvideo. vm_compute in Hvideo. discriminate.
  - intros file Hbase.
    pose proof (path_facts.outputFileName_real file Hbase) as Hreal.
    split; [|split].
    + intros out. apply (path_facts.Join_dir_name out _ Hreal).
    + apply (path_facts.Join_dir_name (filepath.Dir file) _ Hreal).
    + unfold Filtered.fullOutputPath.
      change (filepath.Dir
                (filepath.Join [filepath.Dir file; outputFileName file]) =
              filepath.Dir file).
      rewrite (proj2 (path_facts.Join_dir_name (filepath.Dir file) _ Hreal)).
      apply path_facts.Clean_Dir.
  - intros file out ff st.
    destruct (generic_convertVideoToAV1_spec file out ff st) as (evs & Heq & Hruns).
    exists evs. split; [|exact Hruns].
    unfold extends. rewrite Heq. reflexivity.
  - intros. apply generic_convert_all_runs.
  - intros. apply filtered_convertVideoToAV1_runs.
  - intros. apply filtered_convert_all_runs.
Qed.

Lemma encoder_arguments_witness :
  let file := "/media/20240101/a.mp4" in
  filepath.Base file <> "/" /\
  filepath.Base (Generic.fullOutputPath file "/out/av1") = "a_av1.mkv" /\
  filepath.Dir (Generic.fullOutputPath file "/out/av1") = "/out/av1" /\
  filepath.Base (Filtered.fullOutputPath file) = "a_av1.mkv" /\
  filepath.Dir (Filtered.fullOutputPath file) = "/media/20240101".
Proof.
  intros file.
  assert (filepath.Base file <> "/") as Hbase by (vm_compute; discriminate).
  destruct (encoder_arguments machine) as (_ & _ & Hplace & _).
  destruct (Hplace file Hbase) as (Hg & Hfb & Hfd).
  destruct (Hg "/out/av1") as [Hgb Hgd].
  split; [exact Hbase|].
  split; [rewrite Hgb; vm_compute; reflexivity|].
  split; [rewrite Hgd; vm_compute; reflexivity|].
  split; [rewrite Hfb; vm_compute; reflexivity|].
  rewrite Hfd. vm_compute. reflexivity.
Defined.

(** The two ways of skipping a file that is AV1 already, on any machine:
    the check of [main] counts the file as skipped, the check inside
    [convertVideoToAV1] lets [main] count it as succeeded.  Neither runs the
    encoder. *)
Lemma skip_by_main_and_skip_by_driver W `{OS W}
    (config : Filtered.Config) (c : Filtered.counters) (file : string)
    (st : state W) :
  let ff := Filtered.FfmpegPath config in
  let p1 := Filtered.getVideoCodec file ff st in
  let p2 := Filtered.getVideoCodec file ff (snd p1) in
  let r := Filtered.convert_one config c file st in
  (skips (fst p1) = true -> fst r = skipped c) /\
  (skips (fst p1) = false -> skips (fst p2) = true -> fst r = succeeded c) /\
  (skips (fst p1) || skips (fst p2) = true ->
   exists evs, extends st (snd r) evs /\ runs evs = []).
Proof.
  intros ff p1 p2 r. repeat split.
  - intros Hs1. destruct (fst p1) as [codec|] eqn:Hp1; [|discriminate].
    subst r. rewrite (convert_one_skip _ _ _ _ _ Hp1 Hs1). reflexivity.
  - intros Hs1 Hs2. destruct (fst p2) as [codec|] eqn:Hp2; [|discriminate].
    subst r. rewrite (convert_one_inner_skip _ _ _ _ _ Hs1 Hp2 Hs2). reflexivity.
  - intros Hs.
    destruct (filtered_convert_one_runs config c file st) as (evs & Hext & Hruns).
    cbv zeta in Hruns. fold ff p1 p2 in Hruns. rewrite Hs in Hruns. eauto.
Qed.

(** C1: a file whose probe reports AV1 is not encoded, but it is counted as
    skipped only when the probe of [main] reports it.  Here the probe of
    [main] fails for a.mp4 and the probe that [convertVideoToAV1] repeats
    reports av1: no encoder runs for a.mp4 and the summary counts it as
    succeeded.  b.MKV, reported av1 to [main], is counted as skipped; c.webm
    is h264 and is encoded. *)
Theorem skip_inside_driver_counts_as_success :
  let config := {| Filtered.BasePath := "/media";
                   Filtered.FfmpegPath := "/usr/bin/ffmpeg" |} in
  let file := "/media/20240101/a.mp4" in
  let st := boot (with_children pc [exits 1 ""; exits 0 "av1"]) in
  let p1 := Filtered.getVideoCodec file "/usr/bin/ffmpeg" st in
  let p2 := Filtered.getVideoCodec file "/usr/bin/ffmpeg" (snd p1) in
  let r := Filtered.convert_one config filtered_zero file st in
  let run := Filtered.main filtered_json
               (boot (with_children pc
                        [exits 1 ""; exits 0 "av1";
                         exits 0 "av1";
                         exits 0 "h264"; exits 0 "h264"; exits 0 ""])) in
  (exists e, fst p1 = Err e) /\
  fst p2 = Ok "av1" /\
  fst r = {| Filtered.successCount := 1;
             Filtered.errorCount := 0;
             Filtered.skippedCount := 0 |} /\
  runs (trace (snd r)) = [] /\
  fst run = 0%Z /\
  summaries (trace (snd run)) = [(2, 0, 1)] /\
  runs (trace (snd run)) =
    [EvRun "/usr/bin/ffmpeg"
       ["-i"; "/media/20240101/sub.mov/c.webm"; "-c:v"; "av1_qsv"; "-c:a"; "copy";
        "-y"; "/media/20240101/sub.mov/c_av1.mkv"]].
Proof.
  cbv zeta. repeat split; try (vm_compute; reflexivity).
  eexists. vm_compute. reflexivity.
Qed.


(** The claim C2 as it is worded, "exactly the regular files", fails: the
    scan of a directory that holds a symbolic link and a named pipe with
    video extensions returns both, next to the regular file. *)
Lemma scan_returns_more_than_regular_files :
  let st := boot pc in
  let entries := walk_entries "/studio" (os_Lstat (world st) "/studio") in
  fst (Generic.findVideoFiles "/studio" st) =
    Ok ["/studio/clip.mp4"; "/studio/link.mov"; "/studio/live.mkv"] /\
  paths_where (regular_video_entry Generic.is_video_ext) entries =
    ["/studio/clip.mp4"] /\
  fst (Generic.findVideoFiles "/studio" st) <>
    Ok (paths_where (regular_video_entry Generic.is_video_ext) entries).
Proof.
  cbv zeta. repeat split; try (vm_compute; reflexivity).
  vm_compute. discriminate.
Qed.

(** C2, amended: of the entries that the walk hands to its callback (the
    root as [os.Lstat] finds it and, below every directory, the entries that
    reading it returns) the scan of the generic variant returns, in the
    order of the walk, the paths of exactly those that are not directories
    (regular files, and also symbolic links, pipes, sockets and devices) and
    whose extension, lowered by [strings.ToLower], is one of .mp4 .avi .mkv
    .mov .wmv .flv .webm.  So .MKV is taken, and so is .MKV written with the
    Kelvin sign U+212A for the K; .txt is not, and no entry that is a
    directory is returned.  The scan does not fail and leaves the machine as
    it was. *)
Theorem scan_returns_the_video_entries W `{OS W} (basePath : string) (st : state W) :
  let entries := walk_entries basePath (os_Lstat (world st) basePath) in
  let r := Generic.findVideoFiles basePath st in
  fst r = Ok (paths_where (video_entry Generic.is_video_ext) entries) /\
  world (snd r) = world st /\
  (forall path d,
     video_entry Generic.is_video_ext path d = true <->
     IsDir d = false /\
     strings.ToLower (filepath.Ext path) ∈ video_extensions) /\
  (forall path,
     path ∈ paths_where (video_entry Generic.is_video_ext) entries <->
     exists d, (path, d) ∈ entries /\ IsDir d = false /\
               strings.ToLower (filepath.Ext path) ∈ video_extensions) /\
  Generic.is_video_ext (strings.ToLower ".MKV") = true /\
  Generic.is_video_ext
    (strings.ToLower (str (map utf8.of_byte [46; 77; 226; 132; 170; 86]%Z))) = true /\
  Generic.is_video_ext (strings.ToLower ".txt") = false.
Proof.
  intros entries r.
  assert (forall path d,
            video_entry Generic.is_video_ext path d = true <->
            IsDir d = false /\
            strings.ToLower (filepath.Ext path) ∈ video_extensions) as Hsel.
  { intros path d. unfold video_entry.
    rewrite andb_true_iff, negb_true_iff, generic_is_video_ext_spec. reflexivity. }
  destruct (generic_findVideoFiles_spec basePath st) as (evs & Hr).
  fold r in Hr. rewrite Hr. cbn [fst snd world].
  split; [reflexivity|]. split; [reflexivity|]. split; [exact Hsel|].
  split; [|split; [|split]; vm_compute; reflexivity].
  intros path. unfold paths_where. rewrite list_elem_of_fmap. split.
  - intros ([p d] & -> & [Hd Hin]%list_elem_of_filter). cbn [fst snd] in *.
    exists d. split; [exact Hin|]. by apply Hsel.
  - intros (d & Hin & Hnd & Hext). exists (path, d). split; [reflexivity|].
    apply list_elem_of_filter. split; [|exact Hin]. cbn [fst snd].
    apply Hsel. by split.
Qed.

(** C3: in the filtered variant, when the root can be read, the search roots
    are the children that are directories and whose name is exactly eight
    ASCII digits, joined to the root, in the order of the children: the scan
    reports these and no others as searched, and it returns what the walks
    from them find.  The digits need not form a date.  With no such child the
    scan returns the empty list and no error. *)
Theorem date_directories_are_the_search_roots W `{OS W}
    (basePath : string) (st : state W) (children : list DirEntry) :
  os_ReadDir (world st) basePath = (children, None) ->
  let roots := date_roots basePath children in
  (forall d,
     is_date_dir d = true <->
     IsDir d = true /\
     length (chars (Name d)) = 8 /\
     forallb is_digit (chars (Name d)) = true) /\
  (forall root,
     root ∈ roots <->
     exists d, d ∈ children /\ is_date_dir d = true /\
               root = filepath.Join [basePath; Name d]) /\
  (exists evs,
     Filtered.findVideoFiles basePath st =
       (Ok (concat (map (scan (world st)) roots)),
        {| world := world st; trace := trace st ++ evs |}) /\
     searched evs = roots) /\
  (roots = [] -> fst (Filtered.findVideoFiles basePath st) = Ok []) /\
  Filtered.isDateFormatDir "99999999" = true.
Proof.
  intros Hview roots.
  pose proof (filtered_findVideoFiles_spec basePath st None children Hview) as Hscan.
  cbv beta iota in Hscan. fold roots in Hscan.
  split; [|split; [|split; [exact Hscan|split]]].
  - intros d. unfold is_date_dir.
    rewrite andb_true_iff, isDateFormatDir_spec. reflexivity.
  - intros root. unfold roots, date_roots. rewrite list_elem_of_fmap. split.
    + intros (d & -> & [Hd Hin]%list_elem_of_filter). eauto.
    + intros (d & Hin & Hd & ->). exists d. split; [reflexivity|].
      apply list_elem_of_filter. by split.
  - intros Hnone. destruct Hscan as (evs & -> & _). by rewrite Hnone.
  - vm_compute. reflexivity.
Qed.

Lemma date_directories_are_the_search_roots_witness :
  let st := boot pc in
  let children :=
    [{| Name := "2024-01-01"; Mode := None |};
     {| Name := "20240101"; Mode := None |};
     {| Name := "20240101file.txt"; Mode := Some ModeRegular |};
     {| Name := "20240102"; Mode := Some ModeRegular |};
     {| Name := "notadate"; Mode := None |}] in
  os_ReadDir (world st) "/media" = (children, None) /\
  date_roots "/media" children = ["/media/20240101"] /\
  exists evs,
    Filtered.findVideoFiles "/media" st =
      (Ok ["/media/20240101/a.mp4"; "/media/20240101/b.MKV";
           "/media/20240101/sub.mov/c.webm"],
       {| world := world st; trace := trace st ++ evs |}) /\
    searched evs = ["/media/20240101"].
Proof.
  intros st children.
  assert (os_ReadDir (world st) "/media" = (children, None)) as Hview
    by reflexivity.
  destruct (date_directories_are_the_search_roots machine "/media" st _ Hview)
    as (_ & _ & Hscan & _).
  split; [exact Hview|].
  split; [vm_compute; reflexivity|exact Hscan].
Defined.

(** * Further properties of the code *)

(** ** Footprints: which events a function adds *)

Lemma forallb_filter_nil {A} (P Q : A -> bool) (l : list A) :
  (forall x, P x = true -> Q x = false) ->
  forallb P l = true -> filter Q l = [].
Proof.
  intros HPQ. induction l as [|x l IH]; [reflexivity|]. simpl.
  intros [Hx Hl]%andb_true_iff.
  rewrite filter_cons_False; [by apply IH|].
  rewrite (HPQ x Hx). simpl. tauto.
Qed.

Lemma forallb_weaken {A} (P Q : A -> bool) (l : list A) :
  (forall x, P x = true -> Q x = true) ->
  forallb P l = true -> forallb Q l = true.
Proof.
  intros HPQ. induction l as [|x l IH]; [reflexivity|]. simpl.
  intros [Hx Hl]%andb_true_iff. by rewrite (HPQ x Hx), IH.
Qed.

Lemma execs_app evs1 evs2 : execs (evs1 ++ evs2) = execs evs1 ++ execs evs2.
Proof. apply filter_app. Qed.

Lemma summaries_app evs1 evs2 :
  summaries (evs1 ++ evs2) = summaries evs1 ++ summaries evs2.
Proof. apply omap_app. Qed.

Lemma load_event_no_exec e : is_load_event e = true -> is_exec e = false.
Proof. by destruct e as [[]| | |]. Qed.

Lemma scan_event_no_exec e : is_scan_event e = true -> is_exec e = false.
Proof. by destruct e as [[]| | |]. Qed.

Lemma scan_event_no_mkdir e : is_scan_event e = true -> is_mkdir e = false.
Proof. by destruct e as [[]| | |]. Qed.

Lemma startup_event_no_exec e : is_startup_event e = true -> is_exec e = false.
Proof. by destruct e as [[]| | |]. Qed.

Lemma scan_log_is_scan_event e : is_scan_log e = true -> is_scan_event e = true.
Proof. by destruct e as [[]| | |]. Qed.

Lemma load_is_startup e : is_load_event e = true -> is_startup_event e = true.
Proof. by destruct e as [[]| | |]. Qed.

Lemma scan_is_startup e : is_scan_event e = true -> is_startup_event e = true.
Proof. by destruct e as [[]| | |]. Qed.

Lemma summaries_none (P : event -> bool) evs :
  (forall e, P e = true -> summaries [e] = []) ->
  forallb P evs = true -> summaries evs = [].
Proof.
  intros HP. induction evs as [|e evs IH]; [reflexivity|]. simpl.
  intros [He Hevs]%andb_true_iff.
  change (summaries ([e] ++ evs) = []).
  by rewrite summaries_app, (HP e He), IH.
Qed.

Lemma startup_event_no_summary e : is_startup_event e = true -> summaries [e] = [].
Proof. by destruct e as [[]| | |]. Qed.

Lemma convert_event_no_summary e : is_convert_event e = true -> summaries [e] = [].
Proof. by destruct e as [[]| | |]. Qed.

Ltac load_cases :=
  repeat match goal with
    | |- context [bool_decide ?P] => destruct (bool_decide P) eqn:?; simpl
    | |- context [os_ReadFile ?w ?f] => destruct (os_ReadFile w f) eqn:?; simpl
    | |- context [os_Stat ?w ?p] => destruct (os_Stat w p) as [[]|[]] eqn:?; simpl
    | |- context [os_MkdirAll ?w ?p ?m] =>
        destruct (os_MkdirAll w p m) as [? []] eqn:?; simpl
    | |- context [exec_LookPath ?w ?p] => destruct (exec_LookPath w p) eqn:?; simpl
    end.

Section LoadFootprint.
Context {W : Type} `{OS W}.

Lemma generic_load_footprint json filename (st : state W) :
  exists evs,
    extends st (snd (Generic.loadConfig json filename st)) evs /\
    forallb is_load_event evs = true /\
    length (filter is_mkdir evs) <= 1 /\
    (filter is_mkdir evs = [] ->
     world (snd (Generic.loadConfig json filename st)) = world st).
Proof.
  unfold Generic.loadConfig, extends. unfold_m.
  destruct (os_ReadFile _ _) as [e|data]; simpl.
  { exists []. rewrite app_nil_r. repeat split; simpl; lia. }
  destruct (json data) as [config|]; simpl.
  2: { exists []. rewrite app_nil_r. repeat split; simpl; lia. }
  all: load_cases; rewrite <- ?app_assoc; simpl.
  all: first [ exists []; rewrite app_nil_r; split; [reflexivity|]
             | eexists; split; [reflexivity|] ].
  all: repeat split; first [done | simpl; lia | discriminate].
Qed.

Lemma filtered_load_footprint json filename (st : state W) :
  exists evs,
    snd (Filtered.loadConfig json filename st) =
      {| world := world st; trace := trace st ++ evs |} /\
    forallb is_load_event evs = true /\
    filter is_mkdir evs = [].
Proof.
  unfold Filtered.loadConfig. unfold_m.
  destruct (os_ReadFile _ _) as [e|data]; simpl.
  { exists []. rewrite app_nil_r. by destruct st. }
  destruct (json data) as [config|]; simpl.
  2: { exists []. rewrite app_nil_r. by destruct st. }
  load_cases; rewrite <- ?app_assoc; simpl;
    first [ exists []; rewrite app_nil_r; by destruct st
          | eexists; split; [reflexivity|]; by split ].
Qed.
End LoadFootprint.

Section ScanFootprint.
Context {W : Type} `{OS W}.

Lemma generic_scan_footprint basePath (st : state W) :
  exists evs,
    Generic.findVideoFiles basePath st =
      (Ok (scan (world st) basePath),
       {| world := world st; trace := trace st ++ evs |}) /\
    forallb is_scan_event evs = true.
Proof.
  unfold Generic.findVideoFiles, scan.
  unfold mbind, M_bind, log, emit, Lstat. cbn [world trace].
  destruct (walk_collect_spec Generic.visit _ generic_visit_selects basePath
              (os_Lstat (world st) basePath)
              {| world := world st; trace := trace st ++ [EvLog (LogSearchStart basePath)] |})
    as (evs & -> & Hlog).
  cbn [fst snd world trace]. unfold mret, M_ret.
  rewrite <- !app_assoc. eexists. split; [reflexivity|].
  cbn [app forallb is_scan_event andb]. rewrite forallb_app.
  by rewrite (forallb_weaken _ _ _ scan_log_is_scan_event Hlog).
Qed.

Lemma collect_date_dirs_footprint basePath entries : forall dirs (st : state W),
  exists evs,
    snd (Filtered.collect_date_dirs basePath entries dirs st) =
      {| world := world st; trace := trace st ++ evs |} /\
    forallb is_scan_event evs = true.
Proof.
  induction entries as [|d entries IH]; intros dirs st; simpl.
  - exists []. rewrite app_nil_r. by destruct st.
  - destruct (IsDir d && Filtered.isDateFormatDir (Name d)); [|apply IH].
    unfold_m. simpl.
    destruct (IH (dirs ++ [filepath.Join [basePath; Name d]])
                {| world := world st;
                   trace := trace st ++
                     [EvLog (LogDateDirFound (filepath.Join [basePath; Name d]))] |})
      as (evs & -> & Hlog).
    simpl. rewrite <- app_assoc. eexists. split; [reflexivity|]. exact Hlog.
Qed.

Lemma search_dirs_footprint roots : forall files (st : state W),
  exists evs,
    snd (Filtered.search_dirs roots files st) =
      {| world := world st; trace := trace st ++ evs |} /\
    forallb is_scan_event evs = true.
Proof.
  induction roots as [|d roots IH]; intros files st; simpl.
  - exists []. rewrite app_nil_r. by destruct st.
  - unfold mbind at 1. unfold M_bind at 1. unfold log, emit.
    unfold mbind at 1. unfold M_bind at 1.
    destruct (findVideosInDir_spec d
                {| world := world st;
                   trace := trace st ++ [EvLog (LogSearchingDir d)] |})
      as (evs1 & -> & Hlog1).
    cbn [world trace].
    destruct (IH (files ++ scan (world st) d)
                {| world := world st;
                   trace := (trace st ++ [EvLog (LogSearchingDir d)]) ++ evs1 |})
      as (evs2 & -> & Hlog2).
    cbn [world trace]. rewrite <- !app_assoc. eexists. split; [reflexivity|].
    cbn [app forallb is_scan_event andb]. rewrite forallb_app, Hlog2.
    by rewrite (forallb_weaken _ _ _ scan_log_is_scan_event Hlog1).
Qed.

Lemma filtered_scan_footprint basePath (st : state W) :
  exists evs,
    snd (Filtered.findVideoFiles basePath st) =
      {| world := world st; trace := trace st ++ evs |} /\
    forallb is_scan_event evs = true.
Proof.
  unfold Filtered.findVideoFiles.
  unfold mbind, M_bind, log, emit, ReadDir, mret, M_ret. cbn [world trace].
  destruct (os_ReadDir (world st) basePath) as [children [e|]]; cbn [fst snd].
  { eexists. split; [reflexivity|reflexivity]. }
  pose proof (collect_date_dirs_spec basePath children []
                {| world := world st;
                   trace := trace st ++ [EvLog (LogDateSearchStart basePath)] |})
    as (evs0 & Heq & _).
  destruct (collect_date_dirs_footprint basePath children []
              {| world := world st;
                 trace := trace st ++ [EvLog (LogDateSearchStart basePath)] |})
    as (evs1 & Hst & Hlog1).
  rewrite Heq in Hst |- *. cbn [snd app world trace] in *.
  injection Hst as Hevs. apply app_inv_head in Hevs. subst evs0.
  destruct (date_roots basePath children) as [|d roots].
  - cbn [length Nat.eqb world trace]. rewrite <- !app_assoc.
    eexists. split; [reflexivity|].
    cbn [app forallb is_scan_event andb]. rewrite forallb_app, Hlog1. reflexivity.
  - cbn [length Nat.eqb].
    pose proof (search_dirs_spec (d :: roots) []
                  {| world := world st;
                     trace := (trace st ++ [EvLog (LogDateSearchStart basePath)]) ++ evs1 |})
      as (evs0 & Heq2 & _).
    destruct (search_dirs_footprint (d :: roots) []
                {| world := world st;
                   trace := (trace st ++ [EvLog (LogDateSearchStart basePath)]) ++ evs1 |})
      as (evs2 & Hst2 & Hlog2).
    rewrite Heq2 in Hst2 |- *. cbn [snd app world trace] in *.
    injection Hst2 as Hevs. apply app_inv_head in Hevs. subst evs0.
    rewrite <- !app_assoc. eexists. split; [reflexivity|].
    cbn [app forallb is_scan_event andb].
    rewrite !forallb_app, Hlog1, Hlog2. reflexivity.
Qed.
End ScanFootprint.

Section ConvertFootprint.
Context {W : Type} `{OS W}.

Lemma generic_convert_one_footprint config c file (st : state W) :
  exists evs,
    extends st (snd (Generic.convert_one config c file st)) evs /\
    forallb is_convert_event evs = true.
Proof.
  unfold Generic.convert_one, Generic.convertVideoToAV1, extends. unfold_m. simpl.
  destruct (proc_run _ _ _) as [w' r]; simpl.
  destruct (exec_err _); simpl; rewrite <- ?app_assoc; simpl;
    eexists; split; reflexivity.
Qed.

Lemma generic_convert_all_footprint config files : forall c (st : state W),
  exists evs,
    extends st (snd (Generic.convert_all config files c st)) evs /\
    forallb is_convert_event evs = true.
Proof.
  induction files as [|file files IH]; intros c st; simpl.
  - exists []. split; [apply extends_refl|reflexivity].
  - unfold mbind, M_bind.
    destruct (generic_convert_one_footprint config c file st) as (evs1 & Hext1 & Hlog1).
    destruct (Generic.convert_one config c file st) as [c1 st1]. simpl in Hext1.
    destruct (IH c1 st1) as (evs2 & Hext2 & Hlog2).
    exists (evs1 ++ evs2). split; [eapply extends_trans; eauto|].
    by rewrite forallb_app, Hlog1, Hlog2.
Qed.

Lemma getVideoCodec_footprint file ff (st : state W) :
  exists evs,
    extends st (snd (Filtered.getVideoCodec file ff st)) evs /\
    forallb is_convert_event evs = true.
Proof.
  unfold Filtered.getVideoCodec, extends. unfold_m.
  destruct (IsNotExist _); simpl;
    destruct (proc_run _ _ _) as [w' r]; simpl;
    destruct (exec_err _); simpl;
    rewrite <- ?app_assoc; simpl; eexists; split; reflexivity.
Qed.

Lemma encode_footprint file ff (st : state W) :
  exists evs,
    extends st (snd (Filtered.encode file ff st)) evs /\
    forallb is_convert_event evs = true.
Proof.
  unfold Filtered.encode, extends. unfold_m. simpl.
  destruct (proc_run _ _ _) as [w' r]; simpl.
  destruct (exec_err _); simpl; rewrite <- ?app_assoc; simpl;
    eexists; split; reflexivity.
Qed.

Lemma convertVideoToAV1_footprint file ff (st : state W) :
  exists evs,
    extends st (snd (Filtered.convertVideoToAV1 file ff st)) evs /\
    forallb is_convert_event evs = true.
Proof.
  unfold Filtered.convertVideoToAV1. unfold mbind at 1. unfold M_bind at 1.
  destruct (getVideoCodec_footprint file ff st) as (evs1 & Hext1 & Hlog1).
  destruct (Filtered.getVideoCodec file ff st) as [[codec|e] st1]; simpl in Hext1.
  - destruct (Filtered.is_av1 codec).
    + unfold_m. simpl. exists (evs1 ++ [EvLog (LogSkipDriver file)]). split.
      * unfold extends in *. simpl. by rewrite Hext1, app_assoc.
      * by rewrite forallb_app, Hlog1.
    + destruct (encode_footprint file ff st1) as (evs2 & Hext2 & Hlog2).
      exists (evs1 ++ evs2). split; [eapply extends_trans; eauto|].
      by rewrite forallb_app, Hlog1, Hlog2.
  - unfold mbind, M_bind, log, emit.
    destruct (encode_footprint file ff
                {| world := world st1;
                   trace := trace st1 ++ [EvLog (LogWarnCodec file e)] |})
      as (evs2 & Hext2 & Hlog2).
    exists (evs1 ++ [EvLog (LogWarnCodec file e)] ++ evs2). split.
    + unfold extends in *. rewrite Hext2. simpl. by rewrite Hext1, <- !app_assoc.
    + by rewrite !forallb_app, Hlog1, Hlog2.
Qed.

Lemma filtered_convert_one_footprint config c file (st : state W) :
  exists evs,
    extends st (snd (Filtered.convert_one config c file st)) evs /\
    forallb is_convert_event evs = true.
Proof.
  destruct (getVideoCodec_footprint file (Filtered.FfmpegPath config) st)
    as (evs1 & Hext1 & Hlog1).
  destruct (skips (fst (Filtered.getVideoCodec file (Filtered.FfmpegPath config) st)))
    eqn:Hs.
  - destruct (fst (Filtered.getVideoCodec file (Filtered.FfmpegPath config) st))
      as [codec|] eqn:Hp; [|discriminate].
    simpl in Hs. rewrite (convert_one_skip _ _ _ _ _ Hp Hs).
    exists (evs1 ++ [EvLog (LogSkip file)]). split.
    + unfold extends in *. simpl. by rewrite Hext1, app_assoc.
    + by rewrite forallb_app, Hlog1.
  - rewrite (convert_one_convert _ _ _ _ Hs). unfold count.
    destruct (convertVideoToAV1_footprint file (Filtered.FfmpegPath config)
                (snd (Filtered.getVideoCodec file (Filtered.FfmpegPath config) st)))
      as (evs2 & Hext2 & Hlog2).
    destruct (Filtered.convertVideoToAV1 _ _ _) as [[e|] st2]; cbn [fst snd] in *.
    + exists (evs1 ++ evs2 ++ [EvLog (LogConvertFailed file e)]). split.
      * unfold extends in *. simpl. by rewrite Hext2, Hext1, <- !app_assoc.
      * by rewrite !forallb_app, Hlog1, Hlog2.
    + exists (evs1 ++ evs2). split; [eapply extends_trans; eauto|].
      by rewrite forallb_app, Hlog1, Hlog2.
Qed.

Lemma filtered_convert_all_footprint config files : forall c (st : state W),
  exists evs,
    extends st (snd (Filtered.convert_all config files c st)) evs /\
    forallb is_convert_event evs = true.
Proof.
  induction files as [|file files IH]; intros c st; simpl.
  - exists []. split; [apply extends_refl|reflexivity].
  - unfold mbind, M_bind.
    destruct (filtered_convert_one_footprint config c file st) as (evs1 & Hext1 & Hlog1).
    destruct (Filtered.convert_one config c file st) as [c1 st1]. simpl in Hext1.
    destruct (IH c1 st1) as (evs2 & Hext2 & Hlog2).
    exists (evs1 ++ evs2). split; [eapply extends_trans; eauto|].
    by rewrite forallb_app, Hlog1, Hlog2.
Qed.
End ConvertFootprint.

(** ** [loadConfig] *)

Section LoadProperties.
Context {W : Type} `{OS W}.

Lemma with_default_ffmpeg_nonempty config :
  Generic.FfmpegPath (with_default_ffmpeg config) <> "".
Proof.
  unfold with_default_ffmpeg. case_bool_decide as Hff; [discriminate|exact Hff].
Qed.

(** What [Generic.loadConfig] does once the file is read and decoded and
    the two required fields are there. *)
Lemma generic_load_decoded json filename (st : state W) data config :
  os_ReadFile (world st) filename = inr data ->
  json data = Some config ->
  Generic.BasePath config <> "" ->
  Generic.OutputPath config <> "" ->
  let config' := with_default_ffmpeg config in
  let base := Generic.BasePath config in
  let out := Generic.OutputPath config in
  let ff := Generic.FfmpegPath config' in
  let r := Generic.loadConfig json filename st in
  if IsNotExist (stat_err (os_Stat (world st) base)) then
    fst r = Err (PathNotFoundError base) /\ world (snd r) = world st /\
    exists evs, extends st (snd r) evs /\ filter is_mkdir evs = []
  else
    let w' := match os_Stat (world st) out with
              | inl ErrNotExist => fst (os_MkdirAll (world st) out 493)
              | _ => world st
              end in
      world (snd r) = w' /\
      fst r =
        match os_Stat (world st) out with
        | inl ErrNotExist =>
            match snd (os_MkdirAll (world st) out 493) with
            | Some e => Err (DirectoryCreateError out e)
            | None =>
                match exec_LookPath w' ff with
                | None => Ok config'
                | Some err =>
                    match os_Stat w' ff with
                    | inr _ => Ok config'
                    | inl ErrNotExist => Err (ExecutableNotFoundError ff err)
                    | inl statErr => Err (ExecutableStatError ff statErr)
                    end
                end
            end
        | inl e => Err (OutputStatError out e)
        | inr _ =>
            match exec_LookPath w' ff with
            | None => Ok config'
            | Some err =>
                match os_Stat w' ff with
                | inr _ => Ok config'
                | inl ErrNotExist => Err (ExecutableNotFoundError ff err)
                | inl statErr => Err (ExecutableStatError ff statErr)
                end
            end
        end.
Proof.
  intros Hread Hjson Hbase Hout config' base out ff r.
  subst r config' base out ff. unfold Generic.loadConfig, with_default_ffmpeg. unfold_m.
  rewrite Hread, Hjson.
  rewrite (bool_decide_eq_false_2 _ Hbase), (bool_decide_eq_false_2 _ Hout).
  destruct (bool_decide (Generic.FfmpegPath config = "")); simpl.
  all: destruct (os_Stat (world st) (Generic.BasePath config)) as [[]|[]]; simpl.
  all: try (split; [reflexivity|split; [reflexivity|]];
            eexists; split; [unfold extends; simpl; try reflexivity;
                             by rewrite app_nil_r|reflexivity]).
  all: destruct (os_Stat (world st) (Generic.OutputPath config)) as [[]|[]] eqn:Eout;
    simpl.
  all: try destruct (os_MkdirAll _ _ _) as [w1 [e1|]]; simpl.
  all: repeat match goal with
    | |- context [exec_LookPath ?w ?p] => destruct (exec_LookPath w p); simpl
    | |- context [os_Stat ?w ?p] =>
        lazymatch p with
        | Generic.OutputPath _ => fail
        | _ => destruct (os_Stat w p) as [[]|[]]; simpl
        end
    end.
  all: split; reflexivity.
Qed.
End LoadProperties.

(** ** The phases of [main] *)

Lemma closing_event_no_exec e : is_closing_event e = true -> is_exec e = false.
Proof. by destruct e as [[]| | |]. Qed.

Lemma convert_event_no_mkdir e : is_convert_event e = true -> is_mkdir e = false.
Proof. by destruct e as [[]| | |]. Qed.

Lemma closing_event_no_mkdir e : is_closing_event e = true -> is_mkdir e = false.
Proof. by destruct e as [[]| | |]. Qed.

Section MainPhases.
Context {W : Type} `{OS W}.

(** The events of [main] up to the end of the scan. *)
Lemma generic_startup_footprint json (st : state W) :
  let l := Generic.loadConfig json "config.json" (generic_started st) in
  exists evs,
    forallb is_startup_event evs = true /\
    length (filter is_mkdir evs) <= 1 /\
    match fst l with
    | Err _ => extends st (snd l) evs
    | Ok config =>
        extends st (snd (Generic.findVideoFiles (Generic.BasePath config)
                           (generic_loaded config (snd l)))) evs
    end.
Proof.
  intros l.
  destruct (generic_load_footprint json "config.json" (generic_started st))
    as (evs1 & Hext1 & Hlog1 & Hmk1 & _).
  fold l in Hext1.
  assert (forall x, is_scan_event x = true -> is_mkdir x = false) as Hnm
    by apply scan_event_no_mkdir.
  destruct (fst l) as [config|e].
  - destruct (generic_scan_footprint (Generic.BasePath config)
                (generic_loaded config (snd l))) as (evs2 & -> & Hlog2).
    exists ([EvLog LogStart] ++ evs1 ++
            [EvLog (LogConfigLoaded [Generic.BasePath config;
                                     Generic.OutputPath config;
                                     Generic.FfmpegPath config])] ++ evs2).
    split; [|split].
    + rewrite !forallb_app.
      rewrite (forallb_weaken _ _ _ load_is_startup Hlog1).
      by rewrite (forallb_weaken _ _ _ scan_is_startup Hlog2).
    + rewrite !filter_app, !length_app.
      rewrite (forallb_filter_nil _ _ _ Hnm Hlog2). simpl. lia.
    + unfold extends in *. cbn [snd world trace generic_loaded].
      rewrite Hext1. cbn [generic_started trace]. by rewrite <- !app_assoc.
  - exists ([EvLog LogStart] ++ evs1). split; [|split].
    + rewrite forallb_app. by rewrite (forallb_weaken _ _ _ load_is_startup Hlog1).
    + rewrite filter_app, length_app. simpl. lia.
    + unfold extends in *. rewrite Hext1. cbn [generic_started trace].
      by rewrite <- !app_assoc.
Qed.

Lemma generic_main_phases json (st : state W) :
  exists startup conversion closing,
    extends st (snd (Generic.main json st)) (startup ++ conversion ++ closing) /\
    forallb is_startup_event startup = true /\
    forallb is_convert_event conversion = true /\
    forallb is_closing_event closing = true /\
    length (filter is_mkdir startup) <= 1.
Proof.
  destruct (generic_startup_footprint json st) as (evs & Hlog & Hmk & Hext).
  cbv zeta in Hext. rewrite generic_main_eq. cbv zeta.
  destruct (fst (Generic.loadConfig json "config.json" (generic_started st)))
    as [config|e].
  - destruct (generic_scan_footprint (Generic.BasePath config)
                (generic_loaded config
                   (snd (Generic.loadConfig json "config.json" (generic_started st)))))
      as (evs2 & Heq & _).
    rewrite Heq in Hext |- *. cbn [fst snd] in *.
    destruct (length _ =? 0).
    + exists evs, [], [EvLog LogNoVideos; EvLog LogExit].
      split; [|split; [|split; [|split]]; (assumption || reflexivity)].
      unfold extends in *. cbn [snd trace] in *. by rewrite Hext, <- app_assoc.
    + match goal with
      | |- context [Generic.convert_all ?c ?f ?z ?s] =>
          destruct (generic_convert_all_footprint c f z s) as (evs3 & Hext3 & Hlog3);
          destruct (Generic.convert_all c f z s) as [cnt st3]
      end.
      cbn [fst snd] in *.
      eexists evs, evs3, _.
      split; [unfold extends in *; cbn [snd trace] in *;
              rewrite Hext3, Hext, <- !app_assoc; reflexivity|].
      split; [|split; [|split]]; (assumption || reflexivity).
  - eexists evs, [], _.
    split; [unfold extends in *; cbn [snd trace];
            rewrite Hext, <- app_assoc; reflexivity|].
    split; [|split; [|split]]; (assumption || reflexivity).
Qed.
Lemma filtered_startup_footprint json (st : state W) :
  let l := Filtered.loadConfig json "config.json" (filtered_started st) in
  exists evs,
    forallb is_startup_event evs = true /\
    filter is_mkdir evs = [] /\
    match fst l with
    | Err _ => snd l = {| world := world st; trace := trace st ++ evs |}
    | Ok config =>
        snd (Filtered.findVideoFiles (Filtered.BasePath config)
               (filtered_loaded config (snd l))) =
          {| world := world st; trace := trace st ++ evs |}
    end.
Proof.
  intros l.
  destruct (filtered_load_footprint json "config.json" (filtered_started st))
    as (evs1 & Hst1 & Hlog1 & Hmk1).
  fold l in Hst1.
  assert (forall x, is_scan_event x = true -> is_mkdir x = false) as Hnm
    by apply scan_event_no_mkdir.
  destruct (fst l) as [config|e].
  - destruct (filtered_scan_footprint (Filtered.BasePath config)
                (filtered_loaded config (snd l))) as (evs2 & -> & Hlog2).
    exists ([EvLog LogStart] ++ evs1 ++
            [EvLog (LogConfigLoaded [Filtered.BasePath config;
                                     Filtered.FfmpegPath config])] ++ evs2).
    split; [|split].
    + rewrite !forallb_app.
      rewrite (forallb_weaken _ _ _ load_is_startup Hlog1).
      by rewrite (forallb_weaken _ _ _ scan_is_startup Hlog2).
    + rewrite !filter_app, Hmk1.
      by rewrite (forallb_filter_nil _ _ _ Hnm Hlog2).
    + rewrite Hst1. cbn [filtered_loaded filtered_started world trace].
      by rewrite <- !app_assoc.
  - exists ([EvLog LogStart] ++ evs1). split; [|split].
    + rewrite forallb_app. by rewrite (forallb_weaken _ _ _ load_is_startup Hlog1).
    + by rewrite filter_app, Hmk1.
    + rewrite Hst1. cbn [filtered_started world trace]. by rewrite <- !app_assoc.
Qed.

Lemma filtered_main_phases json (st : state W) :
  exists startup conversion closing,
    extends st (snd (Filtered.main json st)) (startup ++ conversion ++ closing) /\
    forallb is_startup_event startup = true /\
    forallb is_convert_event conversion = true /\
    forallb is_closing_event closing = true /\
    filter is_mkdir startup = [].
Proof.
  destruct (filtered_startup_footprint json st) as (evs & Hlog & Hmk & Hst).
  cbv zeta in Hst. rewrite filtered_main_eq. cbv zeta.
  destruct (fst (Filtered.loadConfig json "config.json" (filtered_started st)))
    as [config|e].
  - rewrite Hst.
    destruct (fst (Filtered.findVideoFiles _ _)) as [files|e].
    + destruct (length files =? 0).
      * exists evs, [], [EvLog LogNoVideos; EvLog LogExit].
        split; [unfold extends; cbn [snd trace]; by rewrite <- app_assoc|].
        split; [|split; [|split]]; (assumption || reflexivity).
      * match goal with
        | |- context [Filtered.convert_all ?c ?f ?z ?s] =>
            destruct (filtered_convert_all_footprint c f z s) as (evs3 & Hext3 & Hlog3);
            destruct (Filtered.convert_all c f z s) as [cnt st3]
        end.
        cbn [fst snd] in *.
        eexists evs, evs3, _.
        split; [unfold extends in *; cbn [snd trace] in *;
                rewrite Hext3, <- !app_assoc; reflexivity|].
        split; [|split; [|split]]; (assumption || reflexivity).
    + eexists evs, [], _.
      split; [unfold extends; cbn [snd trace]; rewrite <- app_assoc; reflexivity|].
      split; [|split; [|split]]; (assumption || reflexivity).
  - rewrite Hst. eexists evs, [], _.
    split; [unfold extends; cbn [snd trace]; rewrite <- app_assoc; reflexivity|].
    split; [|split; [|split]]; (assumption || reflexivity).
Qed.
End MainPhases.

(** ** Properties of [loadConfig] *)

Section LoadExtras.
Context {W : Type} `{OS W}.

Lemma generic_load_ok_decoded json filename (st : state W) config' :
  fst (Generic.loadConfig json filename st) = Ok config' ->
  exists data config,
    os_ReadFile (world st) filename = inr data /\
    json data = Some config /\
    Generic.BasePath config <> "" /\
    Generic.OutputPath config <> "".
Proof.
  unfold Generic.loadConfig. unfold_m.
  destruct (os_ReadFile _ _) as [e|data]; [discriminate|].
  destruct (json data) as [config|] eqn:Hjson; [|discriminate].
  case_bool_decide as Hbase; [discriminate|].
  case_bool_decide as Hout; [discriminate|].
  intros _. exists data, config. auto.
Qed.
End LoadExtras.

(** X1: a configuration that [loadConfig] of the generic variant returns is
    the decoded one with [FfmpegPath] defaulted to ffmpeg; none of its three
    paths is empty; [os.Stat] did not report [BasePath] as missing; the
    encoder resolves, through [exec.LookPath] or [os.Stat]; and [OutputPath]
    either could be inspected or was missing and has been made. *)
Theorem generic_load_returns W `{OS W}
    (json : string -> option Generic.Config) (filename : string)
    (st : state W) (config' : Generic.Config) :
  let r := Generic.loadConfig json filename st in
  fst r = Ok config' ->
  (exists data config,
     os_ReadFile (world st) filename = inr data /\
     json data = Some config /\
     config' = with_default_ffmpeg config) /\
  Generic.BasePath config' <> "" /\
  Generic.OutputPath config' <> "" /\
  Generic.FfmpegPath config' <> "" /\
  IsNotExist (stat_err (os_Stat (world st) (Generic.BasePath config'))) = false /\
  encoder_resolves (world (snd r)) (Generic.FfmpegPath config') /\
  ((exists info, os_Stat (world st) (Generic.OutputPath config') = inr info /\
                 world (snd r) = world st) \/
   (os_Stat (world st) (Generic.OutputPath config') = inl ErrNotExist /\
    os_MkdirAll (world st) (Generic.OutputPath config') 493 =
      (world (snd r), None))).
Proof.
  intros r Hok.
  destruct (generic_load_ok_decoded json filename st config' Hok)
    as (data & config & Hread & Hjson & Hbase & Hout).
  pose proof (generic_load_decoded json filename st data config
                Hread Hjson Hbase Hout) as Hd.
  cbv zeta in Hd. fold r in Hd.
  destruct (with_default_ffmpeg_paths config) as [Hb Ho].
  destruct (IsNotExist (stat_err (os_Stat (world st) (Generic.BasePath config))))
    eqn:Hstat.
  { destruct Hd as (Herr & _). rewrite Herr in Hok. discriminate. }
  destruct Hd as [Hw Hr]. rewrite Hok in Hr.
  assert (config' = with_default_ffmpeg config /\
          encoder_resolves (world (snd r)) (Generic.FfmpegPath (with_default_ffmpeg config)) /\
          ((exists info, os_Stat (world st) (Generic.OutputPath config) = inr info /\
                         world (snd r) = world st) \/
           (os_Stat (world st) (Generic.OutputPath config) = inl ErrNotExist /\
            os_MkdirAll (world st) (Generic.OutputPath config) 493 =
              (world (snd r), None)))) as (-> & Hres & Hdir).
  { rewrite Hw. unfold encoder_resolves.
    destruct (os_Stat (world st) (Generic.OutputPath config)) as [[]|info] eqn:Eout;
      try discriminate.
    - destruct (os_MkdirAll (world st) (Generic.OutputPath config) 493)
        as [w1 [e1|]] eqn:Emk; [discriminate|]. cbn [fst snd] in *.
      destruct (exec_LookPath w1 _) eqn:Elp.
      + destruct (os_Stat w1 _) as [[]|info] eqn:Eff; try discriminate.
        injection Hr as <-. split; [reflexivity|]. split; [right; eauto|].
        right. by split.
      + injection Hr as <-. split; [reflexivity|]. split; [by left|].
        right. by split.
    - destruct (exec_LookPath (world st) _) eqn:Elp.
      + destruct (os_Stat (world st) (Generic.FfmpegPath _)) as [[]|info'] eqn:Eff;
          try discriminate.
        injection Hr as <-. split; [reflexivity|]. split; [right; eauto|].
        left. eauto.
      + injection Hr as <-. split; [reflexivity|]. split; [by left|].
        left. eauto. }
  rewrite Hb, Ho. split; [by exists data, config|].
  repeat split; try done.
  apply with_default_ffmpeg_nonempty.
Qed.

Lemma generic_load_returns_witness :
  let r := Generic.loadConfig generic_json "config.json" (boot pc) in
  fst r = Ok {| Generic.BasePath := "/media";
                Generic.OutputPath := "/out/av1";
                Generic.FfmpegPath := "ffmpeg" |} /\
  encoder_resolves (world (snd r)) "ffmpeg".
Proof.
  intros r.
  assert (fst r = Ok {| Generic.BasePath := "/media";
                        Generic.OutputPath := "/out/av1";
                        Generic.FfmpegPath := "ffmpeg" |}) as Hok
    by (vm_compute; reflexivity).
  destruct (generic_load_returns machine generic_json "config.json" (boot pc) _ Hok)
    as (_ & _ & _ & _ & _ & Hres & _).
  split; [exact Hok|exact Hres].
Defined.

Section FilteredLoad.
Context {W : Type} `{OS W}.

(** What [Filtered.loadConfig] returns once the file is read and decoded and
    [BasePath] is named. *)
Lemma filtered_load_decoded json filename (st : state W) data config :
  os_ReadFile (world st) filename = inr data ->
  json data = Some config ->
  Filtered.BasePath config <> "" ->
  let config' := filtered_with_default config in
  let ff := Filtered.FfmpegPath config' in
  fst (Filtered.loadConfig json filename st) =
    if IsNotExist (stat_err (os_Stat (world st) (Filtered.BasePath config))) then
      Err (PathNotFoundError (Filtered.BasePath config))
    else
      match exec_LookPath (world st) ff with
      | None => Ok config'
      | Some err =>
          match os_Stat (world st) ff with
          | inr _ => Ok config'
          | inl ErrNotExist => Err (ExecutableNotFoundError ff err)
          | inl statErr => Err (ExecutableStatError ff statErr)
          end
      end.
Proof.
  intros Hread Hjson Hbase config' ff. subst config' ff.
  unfold Filtered.loadConfig, filtered_with_default. unfold_m.
  rewrite Hread, Hjson. rewrite (bool_decide_eq_false_2 _ Hbase).
  destruct (bool_decide (Filtered.FfmpegPath config = "")); simpl.
  all: destruct (os_Stat (world st) (Filtered.BasePath config)) as [[]|[]]; simpl;
    try reflexivity.
  all: repeat match goal with
    | |- context [exec_LookPath ?w ?p] => destruct (exec_LookPath w p); simpl
    | |- context [os_Stat ?w ?p] =>
        lazymatch p with
        | Filtered.BasePath _ => fail
        | _ => destruct (os_Stat w p) as [[]|[]]; simpl
        end
    end.
  all: reflexivity.
Qed.

Lemma filtered_load_ok_decoded json filename (st : state W) config' :
  fst (Filtered.loadConfig json filename st) = Ok config' ->
  exists data config,
    os_ReadFile (world st) filename = inr data /\
    json data = Some config /\
    Filtered.BasePath config <> "".
Proof.
  unfold Filtered.loadConfig. unfold_m.
  destruct (os_ReadFile _ _) as [e|data]; [discriminate|].
  destruct (json data) as [config|] eqn:Hjson; [|discriminate].
  case_bool_decide as Hbase; [discriminate|].
  intros _. exists data, config. auto.
Qed.
End FilteredLoad.

(** X2: [loadConfig] of the filtered variant returns a configuration exactly
    when the file is read and decoded, [BasePath] is not empty, [os.Stat]
    does not report it as missing and the encoder resolves; the returned
    configuration is the decoded one with [FfmpegPath] defaulted; and the
    call leaves the machine as it was, success or not. *)
Theorem filtered_load_succeeds W `{OS W}
    (json : string -> option Filtered.Config) (filename : string)
    (st : state W) (config' : Filtered.Config) :
  let r := Filtered.loadConfig json filename st in
  (fst r = Ok config' <->
   exists data config,
     os_ReadFile (world st) filename = inr data /\
     json data = Some config /\
     Filtered.BasePath config <> "" /\
     config' = filtered_with_default config /\
     IsNotExist (stat_err (os_Stat (world st) (Filtered.BasePath config))) = false /\
     encoder_resolves (world st) (Filtered.FfmpegPath config')) /\
  world (snd r) = world st.
Proof.
  intros r. split.
  2: { destruct (filtered_load_footprint json filename st) as (evs & Hsnd & _).
       subst r. by rewrite Hsnd. }
  subst r. unfold encoder_resolves. split.
  - intros Hok.
    destruct (filtered_load_ok_decoded json filename st config' Hok)
      as (data & config & Hread & Hjson & Hbase).
    pose proof (filtered_load_decoded json filename st data config
                  Hread Hjson Hbase) as Hd.
    cbv zeta in Hd. rewrite Hok in Hd.
    exists data, config.
    split; [exact Hread|]. split; [exact Hjson|]. split; [exact Hbase|].
    destruct (IsNotExist _); [discriminate|].
    destruct (exec_LookPath _ _) eqn:Hlp.
    + destruct (os_Stat (world st) (Filtered.FfmpegPath _)) as [[]|info] eqn:Hst;
        try discriminate.
      injection Hd as ->. eauto.
    + injection Hd as ->. eauto.
  - intros (data & config & Hread & Hjson & Hbase & -> & Hstat & Hres).
    rewrite (filtered_load_decoded json filename st data config Hread Hjson Hbase).
    rewrite Hstat. destruct Hres as [Hlp|[info Hst]].
    + by rewrite Hlp.
    + rewrite Hst. by destruct (exec_LookPath _ _).
Qed.

(** X3: the generic [loadConfig] checks [BasePath] before it touches
    [OutputPath]: when [os.Stat] reports [BasePath] as missing, the call
    fails with the error about [BasePath], makes no directory and leaves the
    machine as it was, also when [OutputPath] is missing too. *)
Theorem generic_load_checks_BasePath_first W `{OS W}
    (json : string -> option Generic.Config) (filename : string)
    (st : state W) (data : string) (config : Generic.Config) :
  os_ReadFile (world st) filename = inr data ->
  json data = Some config ->
  Generic.BasePath config <> "" ->
  Generic.OutputPath config <> "" ->
  IsNotExist (stat_err (os_Stat (world st) (Generic.BasePath config))) = true ->
  let r := Generic.loadConfig json filename st in
  fst r = Err (PathNotFoundError (Generic.BasePath config)) /\
  world (snd r) = world st /\
  exists evs, extends st (snd r) evs /\ filter is_mkdir evs = [].
Proof.
  intros Hread Hjson Hbase Hout Hstat r.
  pose proof (generic_load_decoded json filename st data config
                Hread Hjson Hbase Hout) as Hd.
  cbv zeta in Hd. rewrite Hstat in Hd. exact Hd.
Qed.

Lemma generic_load_checks_BasePath_first_witness :
  let config := {| Generic.BasePath := "/nowhere";
                   Generic.OutputPath := "/out/av1";
                   Generic.FfmpegPath := "ffmpeg" |} in
  let r := Generic.loadConfig (const_json config) "config.json" (boot pc) in
  os_Stat pc "/out/av1" = inl ErrNotExist /\
  fst r = Err (PathNotFoundError "/nowhere") /\
  world (snd r) = pc.
Proof.
  intros config r.
  assert (os_ReadFile (world (boot pc)) "config.json" = inr "generic") as Hread
    by reflexivity.
  assert (const_json config "generic" = Some config) as Hjson by reflexivity.
  assert (Generic.BasePath config <> "") as Hbase by discriminate.
  assert (Generic.OutputPath config <> "") as Hout by discriminate.
  assert (IsNotExist (stat_err (os_Stat (world (boot pc)) (Generic.BasePath config)))
          = true) as Hstat by reflexivity.
  destruct (generic_load_checks_BasePath_first machine (const_json config)
              "config.json" (boot pc) "generic" config
              Hread Hjson Hbase Hout Hstat) as (Herr & Hw & _).
  split; [reflexivity|]. split; [exact Herr|exact Hw].
Defined.

(** X4: a failed load can leave a new directory behind.  When [OutputPath]
    is missing and [os.MkdirAll] makes it, and then neither [exec.LookPath]
    nor [os.Stat] finds the encoder, the generic [loadConfig] returns the
    error about [FfmpegPath], and the machine is the one [os.MkdirAll] left. *)
Theorem generic_load_fails_after_MkdirAll W `{OS W}
    (json : string -> option Generic.Config) (filename : string)
    (st : state W) (data : string) (config : Generic.Config)
    (w' : W) (err : oserror) :
  os_ReadFile (world st) filename = inr data ->
  json data = Some config ->
  Generic.BasePath config <> "" ->
  Generic.OutputPath config <> "" ->
  IsNotExist (stat_err (os_Stat (world st) (Generic.BasePath config))) = false ->
  os_Stat (world st) (Generic.OutputPath config) = inl ErrNotExist ->
  os_MkdirAll (world st) (Generic.OutputPath config) 493 = (w', None) ->
  let ffmpegPath := Generic.FfmpegPath (with_default_ffmpeg config) in
  exec_LookPath w' ffmpegPath = Some err ->
  os_Stat w' ffmpegPath = inl ErrNotExist ->
  let r := Generic.loadConfig json filename st in
  fst r = Err (ExecutableNotFoundError ffmpegPath err) /\
  world (snd r) = w' /\
  exists evs,
    extends st (snd r) evs /\
    filter is_mkdir evs = [EvMkdirAll (Generic.OutputPath config) 493].
Proof.
  intros Hread Hjson Hbase Hout Hstat Hmissing Hmk ffmpegPath Hlp Hff r.
  pose proof (generic_load_decoded json filename st data config
                Hread Hjson Hbase Hout) as Hd.
  cbv zeta in Hd. rewrite Hstat, Hmissing, Hmk in Hd. cbn [fst snd] in Hd.
  fold ffmpegPath in Hd. rewrite Hlp, Hff in Hd. destruct Hd as [Hw Hr].
  split; [exact Hr|]. split; [exact Hw|].
  pose proof (generic_load_mkdir json filename st data config
                Hread Hjson Hbase Hout Hstat Hmissing) as Hm.
  cbv zeta in Hm. rewrite Hmk in Hm. cbn [fst snd] in Hm.
  destruct Hm as (_ & (evs & Htr & Hno) & _).
  exists (load_events config true ++ evs). split; [exact Htr|].
  rewrite filter_app, Hno, app_nil_r. unfold load_events.
  case_bool_decide; reflexivity.
Qed.

Lemma generic_load_fails_after_MkdirAll_witness :
  let config := {| Generic.BasePath := "/media";
                   Generic.OutputPath := "/out/av1";
                   Generic.FfmpegPath := "/opt/ffmpeg" |} in
  let r := Generic.loadConfig (const_json config) "config.json" (boot pc) in
  fst r = Err (ExecutableNotFoundError "/opt/ffmpeg" ErrNotExist) /\
  os_Stat pc "/out/av1" = inl ErrNotExist /\
  os_Stat (world (snd r)) "/out/av1" = inr {| fi_IsDir := true |}.
Proof.
  intros config r.
  assert (os_ReadFile (world (boot pc)) "config.json" = inr "generic") as Hread
    by reflexivity.
  assert (const_json config "generic" = Some config) as Hjson by reflexivity.
  assert (Generic.BasePath config <> "") as Hbase by discriminate.
  assert (Generic.OutputPath config <> "") as Hout by discriminate.
  assert (IsNotExist (stat_err (os_Stat (world (boot pc)) (Generic.BasePath config)))
          = false) as Hstat by reflexivity.
  assert (os_Stat (world (boot pc)) (Generic.OutputPath config) = inl ErrNotExist)
    as Hmissing by reflexivity.
  destruct (os_MkdirAll (world (boot pc)) (Generic.OutputPath config) 493)
    as [w' made] eqn:Hmk.
  assert (made = None) as -> by (vm_compute in Hmk; congruence).
  assert (exec_LookPath w' (Generic.FfmpegPath (with_default_ffmpeg config))
          = Some ErrNotExist) as Hlp
    by (vm_compute in Hmk; injection Hmk as <-; vm_compute; reflexivity).
  assert (os_Stat w' (Generic.FfmpegPath (with_default_ffmpeg config))
          = inl ErrNotExist) as Hff
    by (vm_compute in Hmk; injection Hmk as <-; vm_compute; reflexivity).
  destruct (generic_load_fails_after_MkdirAll machine (const_json config)
              "config.json" (boot pc) "generic" config w' ErrNotExist
              Hread Hjson Hbase Hout Hstat Hmissing Hmk Hlp Hff) as (Herr & Hw & _).
  split; [exact Herr|]. split; [reflexivity|].
  fold r in Hw. rewrite Hw.
  vm_compute in Hmk. injection Hmk as <-. vm_compute. reflexivity.
Defined.

(** ** Properties of [main] *)

Lemma convert_event_no_scan e : is_convert_event e = true -> is_scan_event e = false.
Proof. by destruct e as [[]| | |]. Qed.

Lemma closing_event_no_scan e : is_closing_event e = true -> is_scan_event e = false.
Proof. by destruct e as [[]| | |]. Qed.

Lemma closing_event_no_convert e :
  is_closing_event e = true -> is_convert_event e = false.
Proof. by destruct e as [[]| | |]. Qed.

Section MainExtras.
Context {W : Type} `{OS W}.

Lemma filtered_scan_result basePath (st : state W) :
  fst (Filtered.findVideoFiles basePath st) =
    match snd (os_ReadDir (world st) basePath) with
    | Some e => Err (ReadDirError basePath e)
    | None =>
        Ok (concat (map (scan (world st))
                      (date_roots basePath (fst (os_ReadDir (world st) basePath)))))
    end.
Proof.
  destruct (os_ReadDir (world st) basePath) as [children readErr] eqn:Hread.
  pose proof (filtered_findVideoFiles_spec basePath st readErr children Hread) as Hs.
  cbn [fst snd]. destruct readErr as [e|]; [exact Hs|].
  destruct Hs as (evs & -> & _). reflexivity.
Qed.

Lemma generic_scan_result basePath (st : state W) :
  fst (Generic.findVideoFiles basePath st) = Ok (scan (world st) basePath).
Proof.
  destruct (generic_findVideoFiles_spec basePath st) as (evs & ->). reflexivity.
Qed.
End MainExtras.

(** X5: the exit code of [main].  The generic [main] exits with 1 exactly
    when [loadConfig] fails: its scan returns no error whatever the file
    system reports, so the fatal branch after the scan is never taken.  The
    filtered [main] exits with 1 when [loadConfig] fails or [os.ReadDir]
    cannot read [BasePath].  In every other run the exit code is 0, however
    many conversions fail. *)
Theorem main_exit_code W `{OS W} :
  (forall json (st : state W),
     fst (Generic.main json st) =
       match fst (Generic.loadConfig json "config.json" (generic_started st)) with
       | Ok _ => 0%Z
       | Err _ => 1%Z
       end) /\
  (forall json (st : state W),
     fst (Filtered.main json st) =
       match fst (Filtered.loadConfig json "config.json" (filtered_started st)) with
       | Ok config =>
           match snd (os_ReadDir (world st) (Filtered.BasePath config)) with
           | None => 0%Z
           | Some _ => 1%Z
           end
       | Err _ => 1%Z
       end).
Proof.
  split; intros json st.
  - rewrite generic_main_eq. cbv zeta.
    destruct (fst (Generic.loadConfig json "config.json" (generic_started st)))
      as [config|e]; [|reflexivity].
    rewrite generic_scan_result. by destruct (length _ =? 0).
  - rewrite filtered_main_eq. cbv zeta.
    destruct (filtered_load_footprint json "config.json" (filtered_started st))
      as (evs & Hsnd & _).
    destruct (fst (Filtered.loadConfig json "config.json" (filtered_started st)))
      as [config|e]; [|reflexivity].
    rewrite filtered_scan_result, Hsnd. cbn [filtered_loaded filtered_started world].
    destruct (snd (os_ReadDir (world st) (Filtered.BasePath config))); [reflexivity|].
    by destruct (length _ =? 0).
Qed.

(** X6: a failed load is fatal and is the last thing [main] does.  When
    [loadConfig] returns an error, [main] exits with 1; after the start line
    its trace holds only what [loadConfig] added, and then the fatal line
    with that error: no line of a scan is logged, no child process is
    started and no summary is logged.  Both variants. *)
Theorem main_stops_at_load_error W `{OS W} :
  (forall json (st : state W) e,
     fst (Generic.loadConfig json "config.json" (generic_started st)) = Err e ->
     fst (Generic.main json st) = 1%Z /\
     exists evs,
       extends st (snd (Generic.main json st))
         ([EvLog LogStart] ++ evs ++ [EvLog (LogFatalConfig e)]) /\
       forallb is_load_event evs = true /\
       filter is_scan_event evs = [] /\
       execs evs = [] /\
       summaries evs = []) /\
  (forall json (st : state W) e,
     fst (Filtered.loadConfig json "config.json" (filtered_started st)) = Err e ->
     fst (Filtered.main json st) = 1%Z /\
     world (snd (Filtered.main json st)) = world st /\
     exists evs,
       extends st (snd (Filtered.main json st))
         ([EvLog LogStart] ++ evs ++ [EvLog (LogFatalConfig e)]) /\
       forallb is_load_event evs = true /\
       filter is_scan_event evs = [] /\
       execs evs = [] /\
       summaries evs = []).
Proof.
  assert (forall evs, forallb is_load_event evs = true ->
            filter is_scan_event evs = [] /\ execs evs = [] /\ summaries evs = [])
    as Hload.
  { intros evs Hevs. split; [|split].
    - apply (forallb_filter_nil is_load_event); [|exact Hevs].
      by intros [[]| | |].
    - apply (forallb_filter_nil is_load_event); [|exact Hevs].
      apply load_event_no_exec.
    - apply (summaries_none is_load_event); [|exact Hevs].
      by intros [[]| | |]. }
  split; intros json st e Herr.
  - rewrite generic_main_eq. cbv zeta. rewrite Herr. cbn [fst snd].
    split; [reflexivity|].
    destruct (generic_load_footprint json "config.json" (generic_started st))
      as (evs & Hext & Hlog & _).
    exists evs. split; [|split; [exact Hlog|by apply Hload]].
    unfold extends in *. cbn [trace]. rewrite Hext. cbn [generic_started trace].
    by rewrite <- !app_assoc.
  - rewrite filtered_main_eq. cbv zeta. rewrite Herr. cbn [fst snd world].
    destruct (filtered_load_footprint json "config.json" (filtered_started st))
      as (evs & Hsnd & Hlog & _).
    rewrite Hsnd. cbn [world trace filtered_started].
    split; [reflexivity|]. split; [reflexivity|].
    exists evs. split; [|split; [exact Hlog|by apply Hload]].
    unfold extends. cbn [trace]. by rewrite <- !app_assoc.
Qed.

Lemma main_stops_at_load_error_witness :
  let r := Generic.main generic_json (boot (with_config pc "nobase")) in
  fst r = 1%Z /\
  trace (snd r) =
    [EvLog LogStart; EvLog (LogFatalConfig (MissingFieldError "BasePath"))].
Proof.
  intros r.
  assert (fst (Generic.loadConfig generic_json "config.json"
                 (generic_started (boot (with_config pc "nobase")))) =
          Err (MissingFieldError "BasePath")) as Herr by reflexivity.
  destruct (main_stops_at_load_error machine) as [Hgeneric _].
  destruct (Hgeneric generic_json (boot (with_config pc "nobase")) _ Herr)
    as (Hexit & _).
  split; [exact Hexit|]. vm_compute. reflexivity.
Defined.

(** X7: [main] scans first and converts afterwards.  The events of a run
    split into a startup part and the rest: no child process is started in
    the startup part, and the rest holds no line of a scan and no call of
    [os.MkdirAll], so every line of the scan and every call of [os.MkdirAll]
    comes before the first child process.  The generic [main] calls
    [os.MkdirAll] at most once, the filtered [main] never. *)
Theorem main_scans_before_it_converts W `{OS W} :
  (forall json (st : state W),
     exists startup rest,
       extends st (snd (Generic.main json st)) (startup ++ rest) /\
       execs startup = [] /\
       filter is_scan_event rest = [] /\
       filter is_mkdir rest = [] /\
       length (filter is_mkdir startup) <= 1) /\
  (forall json (st : state W),
     exists startup rest,
       extends st (snd (Filtered.main json st)) (startup ++ rest) /\
       execs startup = [] /\
       filter is_scan_event rest = [] /\
       filter is_mkdir (startup ++ rest) = []).
Proof.
  assert (forall conversion closing,
            forallb is_convert_event conversion = true ->
            forallb is_closing_event closing = true ->
            filter is_scan_event (conversion ++ closing) = [] /\
            filter is_mkdir (conversion ++ closing) = []) as Hrest.
  { intros conversion closing Hconv Hclose.
    rewrite !filter_app.
    rewrite (forallb_filter_nil _ _ _ convert_event_no_scan Hconv).
    rewrite (forallb_filter_nil _ _ _ closing_event_no_scan Hclose).
    rewrite (forallb_filter_nil _ _ _ convert_event_no_mkdir Hconv).
    by rewrite (forallb_filter_nil _ _ _ closing_event_no_mkdir Hclose). }
  split; intros json st.
  - destruct (generic_main_phases json st)
      as (startup & conversion & closing & Hext & Hs & Hconv & Hclose & Hmk).
    destruct (Hrest conversion closing Hconv Hclose) as [Hscan Hnomk].
    exists startup, (conversion ++ closing).
    split; [exact Hext|]. split; [|split; [exact Hscan|split; [exact Hnomk|exact Hmk]]].
    apply (forallb_filter_nil _ _ _ startup_event_no_exec Hs).
  - destruct (filtered_main_phases json st)
      as (startup & conversion & closing & Hext & Hs & Hconv & Hclose & Hmk).
    destruct (Hrest conversion closing Hconv Hclose) as [Hscan Hnomk].
    exists startup, (conversion ++ closing).
    split; [exact Hext|]. split; [|split; [exact Hscan|]].
    + apply (forallb_filter_nil _ _ _ startup_event_no_exec Hs).
    + by rewrite filter_app, Hmk, Hnomk.
Qed.

(** X8: what a run that got past the startup logs at its end.  The last
    line is the exit line.  With no file to convert there is no summary and
    no child process was started; otherwise the trace holds exactly one
    summary, and its numbers add up to the number of files the scan
    returned (succeeded + failed in the generic variant, succeeded + failed
    + skipped in the filtered one). *)
Theorem main_logs_one_summary W `{OS W} :
  (forall json (st st' : state W) config files,
     generic_past_startup json st config files st' ->
     exists evs,
       extends st (snd (Generic.main json st)) evs /\
       last evs = Some (EvLog LogExit) /\
       match files with
       | [] => summaries evs = [] /\ execs evs = []
       | _ :: _ =>
           exists s f, summaries evs = [(s, f, 0)] /\ s + f = length files
       end) /\
  (forall json (st st' : state W) config files,
     filtered_past_startup json st config files st' ->
     exists evs,
       extends st (snd (Filtered.main json st)) evs /\
       last evs = Some (EvLog LogExit) /\
       match files with
       | [] => summaries evs = [] /\ execs evs = []
       | _ :: _ =>
           exists s f k,
             summaries evs = [(s, f, k)] /\ s + f + k = length files
       end).
Proof.
  split; intros json st st' config files Hpast.
  - pose proof Hpast as (Hload & Hscan & ->). cbv zeta in Hscan.
    destruct (generic_startup_footprint json st) as (evs0 & Hlog & _ & Hext0).
    cbv zeta in Hext0. rewrite Hload in Hext0.
    pose proof (summaries_none _ _ startup_event_no_summary Hlog) as Hsum0.
    pose proof (forallb_filter_nil _ _ _ startup_event_no_exec Hlog) as Hex0.
    destruct files as [|file files].
    + rewrite generic_main_eq. cbv zeta. rewrite Hload, Hscan. cbn [length Nat.eqb snd].
      exists (evs0 ++ [EvLog LogNoVideos; EvLog LogExit]).
      split; [unfold extends in *; cbn [trace]; by rewrite Hext0, <- app_assoc|].
      split; [by rewrite last_app|].
      split; [by rewrite summaries_app, Hsum0|].
      unfold execs in *. by rewrite filter_app, Hex0.
    + rewrite (generic_main_past_startup json st config (file :: files) _ Hpast)
        by discriminate.
      cbv zeta.
      match goal with
      | |- context [Generic.convert_all ?c ?f ?z ?s] =>
          destruct (generic_convert_all_footprint c f z s) as (evs3 & Hext3 & Hlog3);
          pose proof (generic_convert_all_sum c f z s) as Hcount;
          destruct (Generic.convert_all c f z s) as [cnt st3]
      end.
      cbn [fst snd] in *.
      pose proof (summaries_none _ _ convert_event_no_summary Hlog3) as Hsum3.
      eexists (evs0 ++ evs3 ++ [_; EvLog LogExit]).
      split; [unfold extends in *; cbn [trace];
              by rewrite Hext3, Hext0, <- !app_assoc|].
      split; [by rewrite !last_app|].
      exists (Generic.successCount cnt), (Generic.errorCount cnt).
      split; [by rewrite !summaries_app, Hsum0, Hsum3|].
      simpl in Hcount. exact Hcount.
  - pose proof Hpast as (Hload & Hscan & ->). cbv zeta in Hscan.
    destruct (filtered_startup_footprint json st) as (evs0 & Hlog & _ & Hst0).
    cbv zeta in Hst0. rewrite Hload in Hst0.
    pose proof (summaries_none _ _ startup_event_no_summary Hlog) as Hsum0.
    pose proof (forallb_filter_nil _ _ _ startup_event_no_exec Hlog) as Hex0.
    destruct files as [|file files].
    + rewrite filtered_main_eq. cbv zeta. rewrite Hload, Hscan, Hst0.
      cbn [length Nat.eqb snd].
      exists (evs0 ++ [EvLog LogNoVideos; EvLog LogExit]).
      split; [unfold extends; cbn [trace]; by rewrite <- app_assoc|].
      split; [by rewrite last_app|].
      split; [by rewrite summaries_app, Hsum0|].
      unfold execs in *. by rewrite filter_app, Hex0.
    + rewrite (filtered_main_past_startup json st config (file :: files) _ Hpast)
        by discriminate.
      cbv zeta.
      match goal with
      | |- context [Filtered.convert_all ?c ?f ?z ?s] =>
          destruct (filtered_convert_all_footprint c f z s) as (evs3 & Hext3 & Hlog3);
          pose proof (filtered_convert_all_sum c f z s) as Hcount;
          destruct (Filtered.convert_all c f z s) as [cnt st3]
      end.
      cbn [fst snd] in *.
      pose proof (summaries_none _ _ convert_event_no_summary Hlog3) as Hsum3.
      eexists (evs0 ++ evs3 ++ [_; EvLog LogExit]).
      split; [unfold extends in *; cbn [trace];
              rewrite Hext3, Hst0; cbn [trace]; by rewrite <- !app_assoc|].
      split; [by rewrite !last_app|].
      exists (Filtered.successCount cnt), (Filtered.errorCount cnt),
             (Filtered.skippedCount cnt).
      split; [by rewrite !summaries_app, Hsum0, Hsum3|].
      simpl in Hcount. exact Hcount.
Qed.

Lemma main_logs_one_summary_witness :
  let config := {| Filtered.BasePath := "/studio";
                   Filtered.FfmpegPath := "ffmpeg" |} in
  let r := Filtered.main (const_json config) (boot (with_dirs pc ["/studio"])) in
  last (trace (snd r)) = Some (EvLog LogExit) /\
  summaries (trace (snd r)) = [] /\
  execs (trace (snd r)) = [].
Proof.
  intros config r.
  set (st := boot (with_dirs pc ["/studio"])).
  set (st' := snd (Filtered.findVideoFiles "/studio"
                     (filtered_loaded config
                        (snd (Filtered.loadConfig (const_json config) "config.json"
                                (filtered_started st)))))).
  assert (filtered_past_startup (const_json config) st config [] st') as Hpast
    by (repeat split; vm_compute; reflexivity).
  destruct (main_logs_one_summary machine) as [_ Hf].
  destruct (Hf (const_json config) st st' config [] Hpast)
    as (evs & Hext & Hlast & Hsum & Hexec).
  assert (trace (snd r) = evs) as -> by exact Hext.
  split; [exact Hlast|]. split; [exact Hsum|exact Hexec].
Defined.

(** ** UTF-8 and the Unicode tables *)

Module utf8_facts.
Import utf8.

Lemma valid_spec r :
  valid r <-> (0 <= r <= MaxRune)%Z /\ ~ (55296 <= r <= 57343)%Z.
Proof.
  unfold valid, valid_rune, between.
  rewrite !andb_true_iff, negb_true_iff, andb_false_iff, !Z.leb_le, !Z.leb_gt.
  lia.
Qed.

Lemma byte_range c : (0 <= byte c < 256)%Z.
Proof.
  unfold byte. pose proof (N_ascii_bounded c) as Hc. lia.
Qed.

Lemma of_byte_byte c : of_byte (byte c) = c.
Proof. unfold of_byte, byte. rewrite N2Z.id. apply ascii_N_embedding. Qed.

Lemma byte_of_byte n : (0 <= n < 256)%Z -> byte (of_byte n) = n.
Proof.
  intros Hn. unfold of_byte, byte. rewrite N_ascii_embedding by lia. lia.
Qed.

Lemma between_spec lo hi b :
  between lo hi b = true <-> (lo <= b <= hi)%Z.
Proof. unfold between. rewrite andb_true_iff, !Z.leb_le. reflexivity. Qed.

Ltac bools :=
  repeat match goal with
    | H : _ && _ = true |- _ => apply andb_true_iff in H as [? ?]
    | H : between _ _ _ = true |- _ => apply between_spec in H
    | H : continuation _ = true |- _ => apply between_spec in H
    | H : (_ <? _)%Z = true |- _ => apply Z.ltb_lt in H
    | H : (_ <? _)%Z = false |- _ => apply Z.ltb_ge in H
    | H : (_ <=? _)%Z = true |- _ => apply Z.leb_le in H
    | H : (_ <=? _)%Z = false |- _ => apply Z.leb_gt in H
    | H : (_ =? _)%Z = true |- _ => apply Z.eqb_eq in H
    | H : (_ =? _)%Z = false |- _ => apply Z.eqb_neq in H
    end.

Ltac arith :=
  unfold MaxRune, RuneSelf, RuneError in *; Z.div_mod_to_equations; lia.

Ltac takes :=
  repeat (rewrite firstn_cons || rewrite take_0);
  rewrite ?Forall_cons, ?Forall_nil, ?valid_spec.

Lemma DecodeRune_ascii c s :
  (byte c < RuneSelf)%Z -> DecodeRune (c :: s) = (byte c, 1).
Proof.
  intros Hc. unfold DecodeRune. by rewrite (proj2 (Z.ltb_lt _ _) Hc).
Qed.

(** What [DecodeRune] returns for a text that starts with another byte. *)
Lemma DecodeRune_other c s r size :
  (RuneSelf <= byte c)%Z ->
  DecodeRune (c :: s) = (r, size) ->
  valid r /\ (RuneSelf <= r)%Z /\
  1 <= size <= 4 /\ size <= length (c :: s) /\
  Forall (fun x => (RuneSelf <= byte x)%Z) (take size (c :: s)).
Proof.
  intros Hc. unfold DecodeRune, RuneSelf, MaxRune, RuneError in *.
  rewrite (proj2 (Z.ltb_ge _ _) Hc).
  pose proof (byte_range c) as Hb0.
  destruct (between 194 223 (byte c)) eqn:E2.
  { destruct s as [|c1 s]; [intros [= <- <-]; simpl; takes; repeat split; arith|].
    pose proof (byte_range c1) as Hb1.
    destruct (continuation (byte c1)) eqn:E;
      intros [= <- <-]; simpl; bools; takes; repeat split; arith. }
  destruct (between 224 239 (byte c)) eqn:E3.
  { destruct s as [|c1 [|c2 s]];
      try (intros [= <- <-]; simpl; takes; repeat split; arith).
    pose proof (byte_range c1) as Hb1. pose proof (byte_range c2) as Hb2.
    destruct (between _ _ (byte c1) && continuation (byte c2)) eqn:E;
      [|intros [= <- <-]; simpl; takes; repeat split; arith].
    intros [= <- <-]. bools.
    destruct (byte c =? 224)%Z eqn:E0, (byte c =? 237)%Z eqn:E1; bools;
      simpl; takes; repeat split; arith. }
  destruct (between 240 244 (byte c)) eqn:E4.
  { destruct s as [|c1 [|c2 [|c3 s]]];
      try (intros [= <- <-]; simpl; takes; repeat split; arith).
    pose proof (byte_range c1) as Hb1. pose proof (byte_range c2) as Hb2.
    pose proof (byte_range c3) as Hb3.
    destruct (between _ _ (byte c1) && continuation (byte c2) &&
              continuation (byte c3)) eqn:E;
      [|intros [= <- <-]; simpl; takes; repeat split; arith].
    intros [= <- <-]. bools.
    destruct (byte c =? 240)%Z eqn:E0, (byte c =? 244)%Z eqn:E1; bools;
      simpl; takes; repeat split; arith. }
  intros [= <- <-]; simpl; takes; repeat split; arith.
Qed.

Lemma DecodeRune_size c s :
  1 <= snd (DecodeRune (c :: s)) <= length (c :: s) /\
  snd (DecodeRune (c :: s)) <= 4.
Proof.
  destruct (Z.ltb_spec (byte c) RuneSelf) as [Hc|Hc].
  - rewrite (DecodeRune_ascii _ _ Hc). simpl. lia.
  - destruct (DecodeRune (c :: s)) as [r size] eqn:Hd.
    destruct (DecodeRune_other c s r size Hc Hd) as (_ & _ & ? & ? & _).
    simpl in *. lia.
Qed.

(** One round of the [for range] loop. *)
Lemma runes_cons c s :
  runes (c :: s) =
    fst (DecodeRune (c :: s)) :: runes (drop (snd (DecodeRune (c :: s)) - 1) s).
Proof.
  pose proof (DecodeRune_size c s) as [Hsize Hfour].
  cbn [runes]. destruct (DecodeRune (c :: s)) as [r size]. cbn [fst snd] in *.
  f_equal. cbn [length] in Hsize.
  destruct size as [|[|[|[|[|size]]]]]; try reflexivity;
    destruct s as [|c1 [|c2 [|c3 s]]]; simpl in *; try reflexivity; lia.
Qed.

(** Induction over a text, rune by rune. *)
Lemma rune_ind (P : list ascii -> Prop) :
  P [] ->
  (forall c s, P (drop (snd (DecodeRune (c :: s)) - 1) s) -> P (c :: s)) ->
  forall s, P s.
Proof.
  intros Hnil Hcons s.
  induction s as [s IH] using (induction_ltof1 _ (@length ascii)).
  destruct s as [|c s]; [exact Hnil|].
  apply Hcons. apply IH. unfold ltof. rewrite length_drop. simpl. lia.
Qed.

Lemma runes_valid s : Forall valid (runes s).
Proof.
  induction s as [|c s IH] using rune_ind; [constructor|].
  rewrite runes_cons. constructor; [|exact IH].
  destruct (Z.ltb_spec (byte c) RuneSelf) as [Hc|Hc].
  - rewrite (DecodeRune_ascii _ _ Hc). cbn [fst].
    pose proof (byte_range c). apply valid_spec. unfold RuneSelf, MaxRune in *. lia.
  - destruct (DecodeRune (c :: s)) as [r size] eqn:Hd.
    by destruct (DecodeRune_other c s r size Hc Hd) as (? & _).
Qed.

(** An ASCII byte is a rune of its own, whatever stands before it. *)
Lemma DecodeRune_before_ascii c s a rest :
  (byte a < RuneSelf)%Z ->
  DecodeRune ((c :: s) ++ a :: rest) = DecodeRune (c :: s).
Proof.
  intros Ha. unfold RuneSelf in Ha.
  assert (forall lo hi, (128 <= lo)%Z -> between lo hi (byte a) = false) as Hno.
  { intros lo hi Hlo. unfold between. apply andb_false_iff. left.
    apply Z.leb_gt. lia. }
  assert (continuation (byte a) = false) as Hcont by (apply Hno; lia).
  unfold DecodeRune. cbn [app].
  destruct (byte c <? RuneSelf)%Z; [reflexivity|].
  destruct (between 194 223 (byte c)).
  { destruct s as [|c1 s]; cbn [app]; [by rewrite Hcont|reflexivity]. }
  destruct (between 224 239 (byte c)).
  { destruct s as [|c1 [|c2 s]]; cbn [app]; try reflexivity.
    - destruct rest; [reflexivity|].
      rewrite Hno; [reflexivity|]. by destruct (byte c =? 224)%Z.
    - by rewrite Hcont, andb_false_r. }
  destruct (between 240 244 (byte c)); [|reflexivity].
  destruct s as [|c1 [|c2 [|c3 s]]]; cbn [app]; try reflexivity.
  - destruct rest as [|? [|? ?]]; try reflexivity.
    rewrite Hno; [reflexivity|]. by destruct (byte c =? 240)%Z.
  - destruct rest; [reflexivity|]. by rewrite Hcont, andb_false_r.
  - by rewrite Hcont, andb_false_r.
Qed.

Lemma runes_before_ascii s a rest :
  (byte a < RuneSelf)%Z ->
  runes (s ++ a :: rest) = runes s ++ byte a :: runes rest.
Proof.
  intros Ha. induction s as [|c s IH] using rune_ind.
  - cbn [app]. rewrite runes_cons, (DecodeRune_ascii _ _ Ha). cbn [fst snd].
    by rewrite drop_0.
  - change ((c :: s) ++ a :: rest) with (c :: (s ++ a :: rest)).
    rewrite !runes_cons.
    change (c :: (s ++ a :: rest)) with ((c :: s) ++ a :: rest).
    rewrite (DecodeRune_before_ascii c s a rest Ha).
    pose proof (DecodeRune_size c s) as [Hsize _]. cbn [length] in Hsize.
    rewrite drop_app_le by lia. rewrite IH. reflexivity.
Qed.

(** ** Writing a rune *)

Lemma EncodeRune_ascii r :
  (0 <= r < RuneSelf)%Z -> EncodeRune r = [of_byte r].
Proof.
  intros Hr. unfold EncodeRune.
  destruct (_ && _) eqn:E; [reflexivity|].
  apply andb_false_iff in E as [E|E]; bools; lia.
Qed.

(** The text of a valid rune is read back as that rune. *)
Lemma DecodeRune_EncodeRune r rest :
  valid r ->
  DecodeRune (EncodeRune r ++ rest) = (r, length (EncodeRune r)).
Proof.
  intros [Hr Hs]%valid_spec. unfold MaxRune in Hr. unfold EncodeRune, RuneSelf.
  destruct ((0 <=? r) && (r <? 128))%Z eqn:E1.
  { bools. cbn [app length]. rewrite DecodeRune_ascii.
    - by rewrite byte_of_byte by lia.
    - rewrite byte_of_byte by lia. unfold RuneSelf. lia. }
  assert (128 <= r)%Z as Hr1.
  { apply andb_false_iff in E1 as [E|E]; bools; lia. }
  destruct ((0 <=? r) && (r <=? 2047))%Z eqn:E2.
  { bools. cbn [app length]. unfold DecodeRune, RuneSelf.
    rewrite !byte_of_byte by arith.
    replace (192 + r / 64 <? 128)%Z with false by (symmetry; apply Z.ltb_ge; arith).
    replace (between 194 223 (192 + r / 64)) with true
      by (symmetry; apply between_spec; arith).
    replace (continuation (128 + r mod 64)) with true
      by (symmetry; apply between_spec; arith).
    f_equal. arith. }
  assert (2048 <= r)%Z as Hr2.
  { apply andb_false_iff in E2 as [E|E]; bools; lia. }
  replace ((r <? 0) || (MaxRune <? r) || between 55296 57343 r)%Z with false.
  2: { symmetry. rewrite !orb_false_iff. unfold MaxRune. repeat split.
       - apply Z.ltb_ge. lia.
       - apply Z.ltb_ge. lia.
       - destruct (between 55296 57343 r) eqn:E; [bools; lia|reflexivity]. }
  destruct (r <=? 65535)%Z eqn:E3; bools.
  - cbn [app length]. unfold DecodeRune, RuneSelf.
    rewrite !byte_of_byte by arith.
    replace (224 + r / 4096 <? 128)%Z with false by (symmetry; apply Z.ltb_ge; arith).
    replace (between 194 223 (224 + r / 4096)) with false.
    2: { symmetry. destruct (between _ _ _) eqn:E; [bools; arith|reflexivity]. }
    replace (between 224 239 (224 + r / 4096)) with true
      by (symmetry; apply between_spec; arith).
    replace (continuation (128 + r mod 64)) with true
      by (symmetry; apply between_spec; arith).
    replace (between (if (224 + r / 4096 =? 224)%Z then 160%Z else 128%Z)
               (if (224 + r / 4096 =? 237)%Z then 159%Z else 191%Z)
               (128 + (r / 64) mod 64)) with true.
    2: { symmetry. apply between_spec.
         destruct (_ =? 224)%Z eqn:F1, (_ =? 237)%Z eqn:F2; bools; arith. }
    cbn [andb]. f_equal. arith.
  - cbn [app length]. unfold DecodeRune, RuneSelf.
    rewrite !byte_of_byte by arith.
    replace (240 + r / 262144 <? 128)%Z with false
      by (symmetry; apply Z.ltb_ge; arith).
    replace (between 194 223 (240 + r / 262144)) with false.
    2: { symmetry. destruct (between _ _ _) eqn:E; [bools; arith|reflexivity]. }
    replace (between 224 239 (240 + r / 262144)) with false.
    2: { symmetry. destruct (between _ _ _) eqn:E; [bools; arith|reflexivity]. }
    replace (between 240 244 (240 + r / 262144)) with true
      by (symmetry; apply between_spec; arith).
    replace (continuation (128 + r mod 64)) with true
      by (symmetry; apply between_spec; arith).
    replace (continuation (128 + (r / 64) mod 64)) with true
      by (symmetry; apply between_spec; arith).
    replace (between (if (240 + r / 262144 =? 240)%Z then 144%Z else 128%Z)
               (if (240 + r / 262144 =? 244)%Z then 143%Z else 191%Z)
               (128 + (r / 4096) mod 64)) with true.
    2: { symmetry. apply between_spec.
         destruct (_ =? 240)%Z eqn:F1, (_ =? 244)%Z eqn:F2; bools; arith. }
    cbn [andb]. f_equal. arith.
Qed.

Lemma EncodeRune_length r : 1 <= length (EncodeRune r) <= 4.
Proof.
  unfold EncodeRune. repeat (destruct (_ : bool)); simpl; lia.
Qed.

Lemma runes_EncodeRune rs : forall rest,
  Forall valid rs ->
  runes (flat_map EncodeRune rs ++ rest) = rs ++ runes rest.
Proof.
  induction rs as [|r rs IH]; intros rest Hrs; [reflexivity|].
  inversion Hrs as [|? ? Hr Hrs']; subst.
  cbn [flat_map]. rewrite <- app_assoc.
  pose proof (EncodeRune_length r) as Hlen.
  pose proof (DecodeRune_EncodeRune r (flat_map EncodeRune rs ++ rest) Hr) as Hd.
  destruct (EncodeRune r) as [|c enc] eqn:He; [simpl in Hlen; lia|].
  cbn [app] in *. rewrite runes_cons, Hd. cbn [fst snd length].
  replace (S (length enc) - 1) with (length enc) by lia.
  rewrite drop_app_length. cbn [app]. f_equal. by apply IH.
Qed.

(** ** The table of [unicode.ToLower] *)

Lemma row_runes_spec r lo hi stride delta :
  (0 < stride)%Z ->
  unicode.in_range r (lo, hi, stride, delta) = true ->
  r ∈ row_runes (lo, hi, stride, delta).
Proof.
  intros Hstride Hin. unfold unicode.in_range in Hin. bools.
  unfold row_runes. apply list_elem_of_fmap.
  exists (Z.to_nat ((r - lo) / stride)). split.
  - rewrite Z2Nat.id by (apply Z.div_pos; lia).
    pose proof (Z.div_mod (r - lo) stride ltac:(lia)). lia.
  - apply elem_of_seq. split; [lia|].
    assert ((r - lo) / stride <= (hi - lo) / stride)%Z
      by (apply Z.div_le_mono; lia).
    assert (0 <= (r - lo) / stride)%Z by (apply Z.div_pos; lia).
    lia.
Qed.

Lemma lowerRanges_ok : forallb row_ok unicode.lowerRanges = true.
Proof. vm_compute. reflexivity. Qed.

Lemma unicode_ToLower_once r :
  valid r ->
  valid (unicode.ToLower r) /\
  unicode.ToLower (unicode.ToLower r) = unicode.ToLower r.
Proof.
  intros Hr.
  assert (lowered_once r = true -> valid (unicode.ToLower r) /\
          unicode.ToLower (unicode.ToLower r) = unicode.ToLower r) as Hok.
  { unfold lowered_once, valid. intros [? ?%Z.eqb_eq]%andb_true_iff. done. }
  destruct (unicode.ToLower r =? r)%Z eqn:Hsame.
  { apply Z.eqb_eq in Hsame. by rewrite !Hsame. }
  apply Hok. unfold unicode.ToLower in Hsame.
  destruct (r <=? unicode.MaxASCII)%Z eqn:Hascii.
  - apply valid_spec in Hr. unfold unicode.MaxASCII, MaxRune in *. bools.
    destruct ((65 <=? r) && (r <=? 90))%Z eqn:Hup; [|lia]. bools.
    unfold lowered_once, unicode.ToLower, unicode.MaxASCII.
    replace (r <=? 127)%Z with true by (symmetry; apply Z.leb_le; lia).
    replace ((65 <=? r) && (r <=? 90))%Z with true
      by (symmetry; apply andb_true_iff; split; apply Z.leb_le; lia).
    replace (r + 32 <=? 127)%Z with true by (symmetry; apply Z.leb_le; lia).
    replace ((65 <=? r + 32) && (r + 32 <=? 90))%Z with false
      by (symmetry; apply andb_false_iff; right; apply Z.leb_gt; lia).
    rewrite Z.eqb_refl, andb_true_r. apply valid_spec. unfold MaxRune. lia.
  - destruct (find (unicode.in_range r) unicode.lowerRanges)
      as [[[[lo hi] stride] delta]|] eqn:Hfind; [|bools; lia].
    apply find_some in Hfind as [Hrow Hin].
    pose proof lowerRanges_ok as Hall. rewrite forallb_forall in Hall.
    specialize (Hall _ Hrow). unfold row_ok in Hall.
    apply andb_true_iff in Hall as [Hstride Hpoints]. bools.
    rewrite forallb_forall in Hpoints. apply Hpoints.
    apply list_elem_of_In. by apply (row_runes_spec r lo hi stride delta).
Qed.

(** ** [strings.ToLower] *)

Lemma ToLower_text s :
  strings.ToLower s =
    str (flat_map EncodeRune (map unicode.ToLower (runes (chars s)))).
Proof.
  unfold strings.ToLower, strings.Map. f_equal.
  pose proof (runes_valid (chars s)) as Hvalid.
  induction Hvalid as [|r rs Hr _ IH]; [reflexivity|].
  cbn [flat_map map]. rewrite IH. f_equal.
  destruct (unicode_ToLower_once r Hr) as [[Hlow _]%valid_spec _].
  by rewrite (proj2 (Z.leb_le _ _) (proj1 Hlow)).
Qed.

Lemma ToLower_valid s :
  Forall (fun r => valid r) (map unicode.ToLower (runes (chars s))).
Proof.
  apply Forall_fmap. eapply Forall_impl; [apply runes_valid|].
  intros r Hr. simpl. by destruct (unicode_ToLower_once r Hr).
Qed.

Lemma runes_ToLower s :
  runes (chars (strings.ToLower s)) = map unicode.ToLower (runes (chars s)).
Proof.
  rewrite ToLower_text, chars_str.
  pose proof (runes_EncodeRune _ [] (ToLower_valid s)) as Hr.
  by rewrite !app_nil_r in Hr.
Qed.

Lemma ToLower_idempotent s :
  strings.ToLower (strings.ToLower s) = strings.ToLower s.
Proof.
  rewrite (ToLower_text (strings.ToLower s)), runes_ToLower, (ToLower_text s).
  f_equal. f_equal. rewrite map_map.
  pose proof (runes_valid (chars s)) as Hvalid.
  induction Hvalid as [|r rs Hr _ IH]; [reflexivity|].
  cbn [map]. rewrite IH. f_equal. by destruct (unicode_ToLower_once r Hr).
Qed.

Lemma runes_around_ascii pre a mid post :
  Forall (fun a => (byte a < RuneSelf)%Z) (a :: mid) ->
  runes (pre ++ (a :: mid) ++ post) =
    runes pre ++ map byte (a :: mid) ++ runes post.
Proof.
  intros Hmid. revert pre a Hmid.
  induction mid as [|b mid IH]; intros pre a Hmid;
    inversion Hmid as [|? ? Ha Hmid']; subst.
  - cbn [app map]. by rewrite runes_before_ascii.
  - cbn [app map]. rewrite runes_before_ascii by done. f_equal. f_equal.
    apply (IH [] b Hmid').
Qed.

Lemma unicode_ToLower_ascii r :
  (0 <= r < RuneSelf)%Z -> (0 <= unicode.ToLower r < RuneSelf)%Z.
Proof.
  unfold unicode.ToLower, unicode.MaxASCII, RuneSelf. intros Hr.
  replace (r <=? 127)%Z with true by (symmetry; apply Z.leb_le; lia).
  destruct ((65 <=? r) && (r <=? 90))%Z eqn:E; bools; lia.
Qed.

(** ASCII bytes are lowered where they stand, whatever is around them. *)
Lemma ToLower_around_ascii pre a mid post :
  Forall (fun a => (byte a < RuneSelf)%Z) (a :: mid) ->
  exists pre' post',
    chars (strings.ToLower (str (pre ++ (a :: mid) ++ post))) =
      pre' ++ map (fun a => of_byte (unicode.ToLower (byte a))) (a :: mid) ++ post'.
Proof.
  intros Hmid. rewrite ToLower_text, !chars_str.
  rewrite (runes_around_ascii pre a mid post Hmid).
  rewrite !map_app, !flat_map_app.
  eexists _, _. f_equal. f_equal.
  induction Hmid as [|b m Hb _ IH]; [reflexivity|].
  cbn [map flat_map]. rewrite IH.
  pose proof (byte_range b) as Hrange.
  rewrite EncodeRune_ascii; [reflexivity|].
  apply unicode_ToLower_ascii. lia.
Qed.

(** ** [strings.TrimSpace] *)

Lemma byte_nat c : byte c = Z.of_nat (nat_of_ascii c).
Proof. unfold byte, nat_of_ascii. by rewrite N_nat_Z. Qed.

(** White space of the ASCII table is white space of [unicode.IsSpace]. *)
Lemma is_space_IsSpace c :
  is_space c = true ->
  (byte c < RuneSelf)%Z /\ unicode.IsSpace (byte c) = true.
Proof.
  unfold is_space, unicode.IsSpace, unicode.MaxLatin1, RuneSelf, between.
  rewrite byte_nat. set (n := nat_of_ascii c).
  intros [[H1%Nat.leb_le H2%Nat.leb_le]%andb_true_iff|H%Nat.eqb_eq]%orb_true_iff.
  - split; [lia|].
    replace ((0 <=? Z.of_nat n) && (Z.of_nat n <=? 255))%Z with true
      by (symmetry; apply andb_true_iff; split; apply Z.leb_le; lia).
    replace ((9 <=? Z.of_nat n) && (Z.of_nat n <=? 13))%Z with true
      by (symmetry; apply andb_true_iff; split; apply Z.leb_le; lia).
    reflexivity.
  - rewrite H. split; [lia|reflexivity].
Qed.

Lemma trim_left_cons f c s :
  strings.trim_left f (c :: s) =
    if f (fst (DecodeRune (c :: s)))
    then strings.trim_left f (drop (snd (DecodeRune (c :: s)) - 1) s)
    else c :: s.
Proof.
  pose proof (DecodeRune_size c s) as [Hsize Hfour].
  cbn [strings.trim_left]. destruct (DecodeRune (c :: s)) as [r size].
  cbn [fst snd] in *. destruct (f r); [|reflexivity]. cbn [length] in Hsize.
  destruct size as [|[|[|[|[|size]]]]]; try reflexivity;
    destruct s as [|c1 [|c2 [|c3 s]]]; simpl in *; try reflexivity; lia.
Qed.

(** What [TrimLeftFunc] leaves starts with a rune for which [f] fails. *)
Lemma trim_left_head f s c rest :
  strings.trim_left f s = c :: rest ->
  f (fst (DecodeRune (c :: rest))) = false.
Proof.
  induction s as [|c0 s IH] using rune_ind; [discriminate|].
  rewrite trim_left_cons.
  destruct (f (fst (DecodeRune (c0 :: s)))) eqn:Hf; [exact IH|].
  by intros [= <- <-].
Qed.

Lemma DecodeLastRune_cases s c r size :
  last s = Some c ->
  DecodeLastRune s = (r, size) ->
  ((byte c < RuneSelf)%Z /\ r = byte c /\ size = 1) \/
  ((RuneSelf <= byte c)%Z /\ size = 1) \/
  (2 <= size <= length s /\
   DecodeRune (drop (length s - size) s) = (r, size)).
Proof.
  intros Hlast. unfold DecodeLastRune.
  destruct (rev s) as [|c' before] eqn:Hrev.
  { apply (f_equal (@rev ascii)) in Hrev. rewrite rev_involutive in Hrev.
    by subst s. }
  assert (s = rev before ++ [c']) as Hs.
  { apply (f_equal (@rev ascii)) in Hrev. by rewrite rev_involutive in Hrev. }
  assert (c' = c) as ->.
  { rewrite Hs, last_snoc in Hlast. by injection Hlast. }
  assert (length s = S (length before)) as Hlen.
  { rewrite Hs, length_app, length_rev. simpl. lia. }
  destruct (byte c <? RuneSelf)%Z eqn:Hc.
  { intros [= <- <-]. left. bools. done. }
  bools.
  assert (forall n, 2 <= n <= length s ->
            (let '(r0, size0) := DecodeRune (drop (length s - n) s) in
             if size0 =? n then (r0, size0) else (RuneError, 1)) = (r, size) ->
            ((RuneSelf <= byte c)%Z /\ size = 1) \/
            (2 <= size <= length s /\
             DecodeRune (drop (length s - size) s) = (r, size))) as Hn.
  { intros n Hbound.
    destruct (DecodeRune (drop (length s - n) s)) as [r0 size0] eqn:Hd.
    destruct (size0 =? n) eqn:E.
    - apply Nat.eqb_eq in E. subst size0. intros [= <- <-]. right. done.
    - intros [= <- <-]. left. done. }
  destruct before as [|b1 [|b2 [|b3 before]]]; simpl in Hlen;
    repeat match goal with
      | |- context [RuneStart ?b] => destruct (RuneStart b)
      end;
    try (intros [= <- <-]; right; left; done);
    intros H; right; (eapply Hn; [|exact H]); lia.
Qed.

Lemma last_index_spec f fuel : forall s i,
  strings.last_index f fuel s = Some i ->
  exists k r size,
    0 < k <= length s /\
    DecodeLastRune (take k s) = (r, size) /\
    f r = false /\ i = k - size.
Proof.
  induction fuel as [|fuel IH]; intros s i; [discriminate|].
  cbn [strings.last_index]. destruct s as [|c s]; [discriminate|].
  destruct (DecodeLastRune (c :: s)) as [r size] eqn:Hd.
  destruct (f r) eqn:Hf.
  - intros Hi. destruct (IH _ _ Hi) as (k & r' & size' & Hk & Hd' & Hf' & ->).
    rewrite length_take in Hk. rewrite take_take in Hd'.
    exists k, r', size'. repeat split; try lia; [|exact Hf'].
    by replace (k `min` (length (c :: s) - size)) with k in Hd' by lia.
  - intros [= <-]. exists (length (c :: s)), r, size.
    rewrite firstn_all. repeat split; simpl; try lia; done.
Qed.

Lemma take_last_other i (s : list ascii) c t c' :
  drop i s = c :: t ->
  (RuneSelf <= byte c)%Z ->
  last (take (i + snd (DecodeRune (c :: t))) s) = Some c' ->
  (RuneSelf <= byte c')%Z.
Proof.
  intros Hdrop Hc.
  destruct (DecodeRune (c :: t)) as [r w] eqn:Hd. cbn [snd].
  destruct (DecodeRune_other c t r w Hc Hd) as (_ & _ & Hw & Hlen & Hall).
  rewrite <- take_take_drop, Hdrop.
  destruct (take w (c :: t)) as [|x l] eqn:Ht.
  { apply (f_equal (@length ascii)) in Ht. rewrite length_take in Ht.
    simpl in *. lia. }
  rewrite last_app. destruct (last (x :: l)) as [y|] eqn:Hl;
    [|apply last_None in Hl; discriminate].
  intros [= <-]. apply last_Some_elem_of in Hl.
  rewrite Forall_forall in Hall. by apply Hall.
Qed.

Lemma drop_head_lookup {A} n (l : list A) x t :
  drop n l = x :: t -> l !! n = Some x.
Proof.
  intros Hd. pose proof (lookup_drop l n 0) as Hl.
  rewrite Hd, Nat.add_0_r in Hl. by symmetry.
Qed.

(** The last byte that [TrimRightFunc] keeps is no ASCII byte for which [f]
    holds. *)
Lemma trim_right_last f s c :
  last (strings.trim_right f s) = Some c ->
  (byte c < RuneSelf)%Z -> f (byte c) = false.
Proof.
  unfold strings.trim_right.
  destruct (strings.last_index f (length s) s) as [i|] eqn:Hi; [|discriminate].
  destruct (last_index_spec f _ _ _ Hi) as (k & r & size & Hk & Hd & Hf & ->).
  assert (exists c0, last (take k s) = Some c0) as [c0 Hlast].
  { destruct (last (take k s)) eqn:E; [eauto|].
    apply last_None in E. apply (f_equal (@length ascii)) in E.
    rewrite length_take in E. simpl in E. lia. }
  assert (s !! (k - 1) = Some c0) as Hlookup.
  { rewrite last_lookup, length_take in Hlast.
    replace (Init.Nat.pred (k `min` length s)) with (k - 1) in Hlast by lia.
    rewrite lookup_take_lt in Hlast by lia. exact Hlast. }
  destruct (DecodeLastRune_cases _ _ _ _ Hlast Hd)
    as [(Hc0 & -> & ->)|[(Hc0 & ->)|(Hsize & Hdec)]].
  - rewrite (drop_S _ _ _ Hlookup).
    replace (RuneSelf <=? byte c0)%Z with false by (symmetry; apply Z.leb_gt; lia).
    replace (S (k - 1)) with k by lia. rewrite Hlast. by intros [= <-].
  - rewrite (drop_S _ _ _ Hlookup).
    replace (RuneSelf <=? byte c0)%Z with true by (symmetry; apply Z.leb_le; lia).
    intros Hc Hascii.
    pose proof (take_last_other (k - 1) s c0 _ c (drop_S _ _ _ Hlookup) Hc0 Hc).
    lia.
  - rewrite length_take in Hsize, Hdec.
    replace (k `min` length s) with k in * by lia.
    destruct (drop (k - size) (take k s)) as [|c1 t1] eqn:Hsub.
    { apply (f_equal (@length ascii)) in Hsub.
      rewrite length_drop, length_take in Hsub. simpl in Hsub. lia. }
    assert (RuneSelf <= byte c1)%Z as Hc1.
    { destruct (Z.ltb_spec (byte c1) RuneSelf) as [Hlt|]; [|done].
      rewrite (DecodeRune_ascii _ _ Hlt) in Hdec. injection Hdec as _ <-. lia. }
    apply drop_head_lookup in Hsub. rewrite lookup_take_lt in Hsub by lia.
    rewrite (drop_S _ _ _ Hsub).
    replace (RuneSelf <=? byte c1)%Z with true by (symmetry; apply Z.leb_le; lia).
    intros Hc Hascii.
    pose proof (take_last_other (k - size) s c1 _ c (drop_S _ _ _ Hsub) Hc1 Hc).
    lia.
Qed.

Lemma trim_right_prefix f s : exists k, strings.trim_right f s = take k s.
Proof.
  unfold strings.trim_right.
  destruct (strings.last_index f (length s) s) as [i|]; [|by exists 0].
  destruct (drop i s) as [|c t]; [by eexists|].
  destruct (_ <=? _)%Z; by eexists.
Qed.

(** What [TrimSpace] returns neither starts nor ends with ASCII white
    space. *)
Lemma TrimSpace_trimmed s :
  (forall c rest, chars (strings.TrimSpace s) = c :: rest -> is_space c = false) /\
  (forall c, last (chars (strings.TrimSpace s)) = Some c -> is_space c = false).
Proof.
  unfold strings.TrimSpace. rewrite chars_str.
  set (m := strings.trim_left unicode.IsSpace (chars s)).
  split.
  - intros c rest Hres.
    destruct (trim_right_prefix unicode.IsSpace m) as [k Hk].
    rewrite Hk in Hres.
    destruct m as [|c' m'] eqn:Hm; [by destruct k|].
    destruct k as [|k]; [discriminate|]. injection Hres as -> _.
    pose proof (trim_left_head _ _ _ _ Hm) as Hhead.
    destruct (is_space c) eqn:Hsp; [|reflexivity].
    destruct (is_space_IsSpace c Hsp) as [Hascii Hspace].
    rewrite (DecodeRune_ascii _ _ Hascii) in Hhead. cbn [fst] in Hhead.
    congruence.
  - intros c Hlast.
    destruct (is_space c) eqn:Hsp; [|reflexivity].
    destruct (is_space_IsSpace c Hsp) as [Hascii Hspace].
    pose proof (trim_right_last _ _ _ Hlast Hascii). congruence.
Qed.
End utf8_facts.

(** ** Properties of [getVideoCodec] and [convertVideoToAV1] *)

Lemma exec_err_None status : exec_err status = None <-> status = Exited 0.
Proof.
  destruct status as [code| |e]; simpl; [|by split..].
  destruct (code =? 0)%Z eqn:Hc.
  - apply Z.eqb_eq in Hc. by subst.
  - apply Z.eqb_neq in Hc. split; [discriminate|]. intros [= ->]. done.
Qed.

Section Probe.
Context {W : Type} `{OS W}.

Lemma getVideoCodec_spec file ff (st : state W) :
  let name := probe_name (world st) ff in
  let p := probe_run file ff st in
  exists evs,
    Filtered.getVideoCodec file ff st =
      (match exec_err (proc_status_of (snd p)) with
       | Some e => Err (ProbeError e (name :: Filtered.ffprobeArgs file))
       | None => Ok (strings.TrimSpace (proc_output (snd p)))
       end,
       {| world := fst p; trace := trace st ++ evs |}) /\
    execs evs = [EvCombinedOutput name (Filtered.ffprobeArgs file)] /\
    probes evs = [EvCombinedOutput name (Filtered.ffprobeArgs file)].
Proof.
  intros name p. subst name p.
  unfold Filtered.getVideoCodec, probe_run, probe_name, derived_ffprobe. unfold_m.
  destruct (IsNotExist _); simpl;
    destruct (proc_run _ _ _) as [w' r]; simpl;
    destruct (exec_err _); simpl;
    rewrite <- ?app_assoc; simpl; eexists;
    (split; [reflexivity|split; reflexivity]).
Qed.

Lemma Dir_no_sep path : path_spec.no_sep (chars path) -> filepath.Dir path = ".".
Proof.
  intros Hns. unfold filepath.Dir.
  assert (path_spec.no_sep (rev (chars path))) as Hrev by (by apply Forall_rev).
  pose proof (path_facts.span_elem_app (rev (chars path)) [] Hrev (or_introl eq_refl))
    as Hspan.
  rewrite app_nil_r in Hspan. rewrite Hspan. reflexivity.
Qed.
End Probe.

(** X9: what [getVideoCodec] does on a system other than Windows.  It
    starts exactly one child process, the probe, with the fixed arguments
    and the file as the last one; the probe is the program ffprobe in the
    directory of the encoder unless [os.Stat] reports that path as missing,
    and then the name ffprobe.  It returns the output of the probe without
    the white space around it when the probe exits with code 0, and an error
    that carries the command line in every other case. *)
Theorem getVideoCodec_outcome W `{OS W}
    (file ffmpegPath : string) (st : state W) :
  GOOS <> "windows" ->
  let ffprobePath := filepath.Join [filepath.Dir ffmpegPath; "ffprobe"] in
  let name := if IsNotExist (stat_err (os_Stat (world st) ffprobePath))
              then "ffprobe" else ffprobePath in
  let p := proc_run (world st) name (Filtered.ffprobeArgs file) in
  let r := Filtered.getVideoCodec file ffmpegPath st in
  world (snd r) = fst p /\
  (exists evs,
     extends st (snd r) evs /\
     execs evs =
       [EvCombinedOutput name
          ["-v"; "error"; "-select_streams"; "v:0";
           "-show_entries"; "stream=codec_name";
           "-of"; "default=noprint_wrappers=1:nokey=1"; file]]) /\
  (proc_status_of (snd p) = Exited 0 <->
   fst r = Ok (strings.TrimSpace (proc_output (snd p)))) /\
  (proc_status_of (snd p) <> Exited 0 <->
   exists e, fst r = Err (ProbeError e (name :: Filtered.ffprobeArgs file))).
Proof.
  intros Hos ffprobePath name p r.
  destruct (getVideoCodec_spec file ffmpegPath st) as (evs & Heq & Hexecs & _).
  assert (probe_name (world st) ffmpegPath = name) as Hname.
  { unfold probe_name, derived_ffprobe.
    by rewrite (bool_decide_eq_false_2 _ Hos). }
  unfold probe_run in Heq. rewrite Hname in Heq, Hexecs.
  fold p r in Heq. rewrite Heq. cbn [fst snd world].
  split; [reflexivity|]. split; [by exists evs|].
  pose proof (exec_err_None (proc_status_of (snd p))) as Hnone.
  destruct (exec_err (proc_status_of (snd p))) as [e|].
  - split; split.
    + intros Hs. apply Hnone in Hs. discriminate.
    + discriminate.
    + intros _. by exists e.
    + intros _ Hs. apply Hnone in Hs. discriminate.
  - split; split.
    + reflexivity.
    + intros _. by apply Hnone.
    + intros Hs. destruct Hs. by apply Hnone.
    + intros [e He]. discriminate.
Qed.

Lemma getVideoCodec_outcome_witness :
  let output := str (map utf8.of_byte
                       [194; 160; 104; 50; 54; 52; 226; 128; 131; 10]%Z) in
  let st := boot (with_children pc [exits 0 output]) in
  let r := Filtered.getVideoCodec "/media/20240101/a.mp4" "/usr/bin/ffmpeg" st in
  fst r = Ok "h264" /\
  exists evs,
    extends st (snd r) evs /\
    execs evs =
      [EvCombinedOutput "ffprobe"
         ["-v"; "error"; "-select_streams"; "v:0";
          "-show_entries"; "stream=codec_name";
          "-of"; "default=noprint_wrappers=1:nokey=1"; "/media/20240101/a.mp4"]].
Proof.
  intros output st r.
  assert (@GOOS machine _ <> "windows") as Hos by discriminate.
  destruct (getVideoCodec_outcome machine "/media/20240101/a.mp4" "/usr/bin/ffmpeg"
              st Hos) as (_ & Hevs & Hok & _).
  split; [|exact Hevs].
  fold r in Hok. rewrite (proj1 Hok); [vm_compute; reflexivity|].
  vm_compute. reflexivity.
Defined.

(** X10: an encoder named without a directory, as the default ffmpeg is,
    makes the probe run under the bare name ffprobe on a system other than
    Windows, whatever [os.Stat] says: the path derived from the encoder is
    ffprobe itself. *)
Theorem probe_of_a_bare_encoder_name W `{OS W}
    (file ffmpegPath : string) (st : state W) :
  path_spec.no_sep (chars ffmpegPath) ->
  GOOS <> "windows" ->
  derived_ffprobe ffmpegPath = "ffprobe" /\
  exists evs,
    extends st (snd (Filtered.getVideoCodec file ffmpegPath st)) evs /\
    execs evs = [EvCombinedOutput "ffprobe" (Filtered.ffprobeArgs file)].
Proof.
  intros Hns Hos.
  assert (derived_ffprobe ffmpegPath = "ffprobe") as Hd.
  { unfold derived_ffprobe. rewrite (Dir_no_sep _ Hns).
    rewrite bool_decide_eq_false_2 by exact Hos. reflexivity. }
  split; [exact Hd|].
  destruct (getVideoCodec_spec file ffmpegPath st) as (evs & Heq & Hexecs & _).
  exists evs. rewrite Heq. split; [reflexivity|].
  rewrite Hexecs. unfold probe_name. rewrite Hd. by destruct (IsNotExist _).
Qed.

Lemma probe_of_a_bare_encoder_name_witness :
  execs (trace (snd (Filtered.getVideoCodec "/media/20240101/a.mp4" "ffmpeg"
                       (boot (with_children pc [exits 0 "h264"]))))) =
    [EvCombinedOutput "ffprobe" (Filtered.ffprobeArgs "/media/20240101/a.mp4")].
Proof.
  assert (path_spec.no_sep (chars "ffmpeg")) as Hns by (repeat constructor).
  assert (@GOOS machine _ <> "windows") as Hos by discriminate.
  destruct (probe_of_a_bare_encoder_name machine "/media/20240101/a.mp4" "ffmpeg"
              (boot (with_children pc [exits 0 "h264"])) Hns Hos)
    as (_ & evs & Hext & Hexecs).
  assert (trace (snd (Filtered.getVideoCodec "/media/20240101/a.mp4" "ffmpeg"
                        (boot (with_children pc [exits 0 "h264"])))) = evs) as ->
    by exact Hext.
  exact Hexecs.
Defined.

(** X11: the codec that [getVideoCodec] returns neither starts nor ends
    with ASCII white space: the line end that ffprobe prints after the codec
    name is not part of it. *)
Theorem getVideoCodec_returns_trimmed W `{OS W}
    (file ffmpegPath : string) (st : state W) (codec : string) :
  fst (Filtered.getVideoCodec file ffmpegPath st) = Ok codec ->
  (forall c rest, chars codec = c :: rest -> is_space c = false) /\
  (forall c, last (chars codec) = Some c -> is_space c = false).
Proof.
  destruct (getVideoCodec_spec file ffmpegPath st) as (evs & -> & _).
  cbn [fst]. destruct (exec_err _); [discriminate|].
  intros [= <-]. apply utf8_facts.TrimSpace_trimmed.
Qed.

Lemma getVideoCodec_returns_trimmed_witness :
  let st := boot (with_children pc [exits 0 (" av1" +:+ String "010"%char "")]) in
  let r := Filtered.getVideoCodec "/media/20240101/a.mp4" "/usr/bin/ffmpeg" st in
  fst r = Ok "av1" /\
  forall c, last (chars "av1") = Some c -> is_space c = false.
Proof.
  intros st r.
  assert (fst r = Ok "av1") as Hok by (vm_compute; reflexivity).
  split; [exact Hok|].
  exact (proj2 (getVideoCodec_returns_trimmed machine "/media/20240101/a.mp4"
                  "/usr/bin/ffmpeg" st "av1" Hok)).
Defined.

Section ConvertExtras.
Context {W : Type} `{OS W}.

Lemma probes_app evs1 evs2 : probes (evs1 ++ evs2) = probes evs1 ++ probes evs2.
Proof. apply filter_app. Qed.

Lemma getVideoCodec_probes file ff (st : state W) :
  exists evs,
    extends st (snd (Filtered.getVideoCodec file ff st)) evs /\
    probes evs =
      [EvCombinedOutput (probe_name (world st) ff) (Filtered.ffprobeArgs file)].
Proof.
  destruct (getVideoCodec_spec file ff st) as (evs & -> & _ & Hprobes).
  by exists evs.
Qed.

Lemma encode_probes file ff (st : state W) :
  exists evs,
    extends st (snd (Filtered.encode file ff st)) evs /\ probes evs = [].
Proof.
  unfold Filtered.encode, extends. unfold_m. simpl.
  destruct (proc_run _ _ _) as [w' r]; simpl.
  destruct (exec_err _); simpl; rewrite <- ?app_assoc; simpl;
    eexists; split; reflexivity.
Qed.

Lemma convertVideoToAV1_probes file ff (st : state W) :
  exists evs,
    extends st (snd (Filtered.convertVideoToAV1 file ff st)) evs /\
    probes evs =
      [EvCombinedOutput (probe_name (world st) ff) (Filtered.ffprobeArgs file)].
Proof.
  unfold Filtered.convertVideoToAV1. unfold mbind at 1. unfold M_bind at 1.
  destruct (getVideoCodec_probes file ff st) as (evs1 & Hext1 & Hp1).
  destruct (Filtered.getVideoCodec file ff st) as [[codec|e] st1]; simpl in Hext1.
  - destruct (Filtered.is_av1 codec).
    + unfold_m. simpl. exists (evs1 ++ [EvLog (LogSkipDriver file)]). split.
      * unfold extends in *. simpl. by rewrite Hext1, app_assoc.
      * by rewrite probes_app, Hp1.
    + destruct (encode_probes file ff st1) as (evs2 & Hext2 & Hp2).
      exists (evs1 ++ evs2). split; [eapply extends_trans; eauto|].
      by rewrite probes_app, Hp1, Hp2.
  - unfold mbind, M_bind, log, emit.
    destruct (encode_probes file ff
                {| world := world st1;
                   trace := trace st1 ++ [EvLog (LogWarnCodec file e)] |})
      as (evs2 & Hext2 & Hp2).
    exists (evs1 ++ [EvLog (LogWarnCodec file e)] ++ evs2). split.
    + unfold extends in *. rewrite Hext2. simpl. by rewrite Hext1, <- !app_assoc.
    + by rewrite !probes_app, Hp1, Hp2.
Qed.

Lemma filtered_convert_one_probes config c file (st : state W) :
  let ff := Filtered.FfmpegPath config in
  let p1 := Filtered.getVideoCodec file ff st in
  exists evs,
    extends st (snd (Filtered.convert_one config c file st)) evs /\
    probes evs =
      EvCombinedOutput (probe_name (world st) ff) (Filtered.ffprobeArgs file) ::
      if skips (fst p1) then []
      else [EvCombinedOutput (probe_name (world (snd p1)) ff)
              (Filtered.ffprobeArgs file)].
Proof.
  intros ff p1. subst p1.
  destruct (getVideoCodec_probes file ff st) as (evs1 & Hext1 & Hp1).
  destruct (skips (fst (Filtered.getVideoCodec file ff st))) eqn:Hs.
  - destruct (fst (Filtered.getVideoCodec file ff st)) as [codec|] eqn:Hp;
      [|discriminate].
    simpl in Hs. rewrite (convert_one_skip _ _ _ _ _ Hp Hs).
    exists (evs1 ++ [EvLog (LogSkip file)]). split.
    + unfold extends in *. simpl. fold ff. by rewrite Hext1, app_assoc.
    + by rewrite probes_app, Hp1.
  - rewrite (convert_one_convert _ _ _ _ Hs). unfold count. fold ff.
    destruct (convertVideoToAV1_probes file ff (snd (Filtered.getVideoCodec file ff st)))
      as (evs2 & Hext2 & Hp2).
    destruct (Filtered.convertVideoToAV1 _ _ _) as [[e|] st2]; cbn [fst snd] in *.
    + exists (evs1 ++ evs2 ++ [EvLog (LogConvertFailed file e)]). split.
      * unfold extends in *. simpl. by rewrite Hext2, Hext1, <- !app_assoc.
      * by rewrite !probes_app, Hp1, Hp2.
    + exists (evs1 ++ evs2). split; [eapply extends_trans; eauto|].
      by rewrite probes_app, Hp1, Hp2.
Qed.

Lemma filtered_convert_all_probes config files : forall c (st : state W),
  exists evs,
    extends st (snd (Filtered.convert_all config files c st)) evs /\
    length files <= length (probes evs) <= 2 * length files.
Proof.
  induction files as [|file files IH]; intros c st; simpl.
  - exists []. split; [apply extends_refl|simpl; lia].
  - unfold mbind, M_bind.
    destruct (filtered_convert_one_probes config c file st) as (evs1 & Hext1 & Hp1).
    cbv zeta in Hp1.
    destruct (Filtered.convert_one config c file st) as [c1 st1]. simpl in Hext1.
    destruct (IH c1 st1) as (evs2 & Hext2 & Hp2).
    exists (evs1 ++ evs2). split; [eapply extends_trans; eauto|].
    rewrite probes_app, length_app, Hp1.
    destruct (skips _); simpl; lia.
Qed.

Lemma generic_convert_one_probes config c file (st : state W) :
  exists evs,
    extends st (snd (Generic.convert_one config c file st)) evs /\
    probes evs = [].
Proof.
  unfold Generic.convert_one, Generic.convertVideoToAV1, extends. unfold_m. simpl.
  destruct (proc_run _ _ _) as [w' r]; simpl.
  destruct (exec_err _); simpl; rewrite <- ?app_assoc; simpl;
    eexists; split; reflexivity.
Qed.

Lemma generic_convert_all_probes config files : forall c (st : state W),
  exists evs,
    extends st (snd (Generic.convert_all config files c st)) evs /\
    probes evs = [].
Proof.
  induction files as [|file files IH]; intros c st; simpl.
  - exists []. split; [apply extends_refl|reflexivity].
  - unfold mbind, M_bind.
    destruct (generic_convert_one_probes config c file st) as (evs1 & Hext1 & Hp1).
    destruct (Generic.convert_one config c file st) as [c1 st1]. simpl in Hext1.
    destruct (IH c1 st1) as (evs2 & Hext2 & Hp2).
    exists (evs1 ++ evs2). split; [eapply extends_trans; eauto|].
    by rewrite probes_app, Hp1, Hp2.
Qed.
End ConvertExtras.

(** X12: what [convertVideoToAV1] returns.  In the generic variant it
    returns nil exactly when the encoder exits with code 0.  In the filtered
    variant it returns nil exactly when its probe reports AV1 or the encoder
    exits with code 0.  In both, an error it returns is the error of the
    encoder for that file: a failed probe is never returned. *)
Theorem convertVideoToAV1_returns W `{OS W} :
  (forall file out ff (st : state W),
     let r := Generic.convertVideoToAV1 file out ff st in
     let encoder := generic_encoder_run file out ff st in
     (fst r = None <-> proc_status_of (snd encoder) = Exited 0) /\
     (forall e, fst r = Some e -> exists cause, e = EncodeError file cause)) /\
  (forall file ff (st : state W),
     let p := Filtered.getVideoCodec file ff st in
     let r := Filtered.convertVideoToAV1 file ff st in
     let encoder := encoder_run file ff (before_encode file ff st) in
     (fst r = None <->
      skips (fst p) = true \/ proc_status_of (snd encoder) = Exited 0) /\
     (forall e, fst r = Some e ->
                skips (fst p) = false /\ exists cause, e = EncodeError file cause)).
Proof.
  split.
  - intros file out ff st r encoder.
    destruct (generic_convertVideoToAV1_spec file out ff st) as (evs & Heq & _).
    cbv zeta in Heq. fold r encoder in Heq. rewrite Heq. cbn [fst].
    pose proof (exec_err_None (proc_status_of (snd encoder))) as Hnone.
    destruct (exec_err (proc_status_of (snd encoder))) as [cause|].
    + split; [|intros e [= <-]; by exists cause].
      split; [discriminate|]. intros Hs. apply Hnone in Hs. discriminate.
    + split; [|discriminate]. split; [intros _; by apply Hnone|reflexivity].
  - intros file ff st p r encoder.
    destruct (skips (fst p)) eqn:Hs.
    + destruct (fst p) as [codec|] eqn:Hp; [|discriminate]. simpl in Hs.
      subst r. rewrite (convertVideoToAV1_skip file ff st codec Hp Hs). cbn [fst].
      split; [|discriminate]. split; [by left|reflexivity].
    + subst r. rewrite (convertVideoToAV1_encode file ff st Hs).
      destruct (encode_spec file ff (before_encode file ff st)) as (evs & Heq & _).
      cbv zeta in Heq. fold encoder in Heq. rewrite Heq. cbn [fst].
      pose proof (exec_err_None (proc_status_of (snd encoder))) as Hnone.
      destruct (exec_err (proc_status_of (snd encoder))) as [cause|].
      * split; [|intros e [= <-]; split; [reflexivity|by exists cause]].
        split; [discriminate|].
        intros [?|Hst]; [discriminate|]. apply Hnone in Hst. discriminate.
      * split; [|discriminate].
        split; [intros _; right; by apply Hnone|reflexivity].
Qed.

(** X13: how often the filtered loop probes.  The round of a file starts
    the probe once when the probe of [main] reports AV1 and twice otherwise,
    the second time from [convertVideoToAV1], and each time with the
    arguments of that file; over a loop the number of probes lies between
    the number of files and twice that number.  The generic loop starts no
    probe. *)
Theorem probes_per_file W `{OS W} :
  (forall config c file (st : state W),
     let ff := Filtered.FfmpegPath config in
     let p1 := Filtered.getVideoCodec file ff st in
     exists evs,
       extends st (snd (Filtered.convert_one config c file st)) evs /\
       probes evs =
         EvCombinedOutput (probe_name (world st) ff) (Filtered.ffprobeArgs file) ::
         if skips (fst p1) then []
         else [EvCombinedOutput (probe_name (world (snd p1)) ff)
                 (Filtered.ffprobeArgs file)]) /\
  (forall config files c (st : state W),
     exists evs,
       extends st (snd (Filtered.convert_all config files c st)) evs /\
       length files <= length (probes evs) <= 2 * length files) /\
  (forall config files c (st : state W),
     exists evs,
       extends st (snd (Generic.convert_all config files c st)) evs /\
       probes evs = []).
Proof.
  split; [|split].
  - apply filtered_convert_one_probes.
  - apply filtered_convert_all_probes.
  - apply generic_convert_all_probes.
Qed.

Lemma startup_event_no_run e : is_startup_event e = true -> is_run e = false.
Proof. by destruct e as [[]| | |]. Qed.

Lemma startup_event_no_probe e : is_startup_event e = true -> is_probe e = false.
Proof. by destruct e as [[]| | |]. Qed.

Lemma execs_no_probes evs : probes evs = [] -> execs evs = runs evs.
Proof.
  unfold probes, execs, runs. induction evs as [|e evs IH]; [reflexivity|].
  destruct e as [l|p m|n a|n a].
  - rewrite !filter_cons_False by (simpl; tauto). exact IH.
  - rewrite !filter_cons_False by (simpl; tauto). exact IH.
  - rewrite (filter_cons_False is_probe) by (simpl; tauto).
    rewrite !filter_cons_True by done. intros Hp. by rewrite IH.
  - rewrite (filter_cons_True is_probe) by done. discriminate.
Qed.

Section MainProcesses.
Context {W : Type} `{OS W}.

Lemma encode_execs file ff (st : state W) :
  exists evs,
    extends st (snd (Filtered.encode file ff st)) evs /\
    execs evs = [EvRun ff (Filtered.ffmpegArgs file (Filtered.fullOutputPath file))].
Proof.
  unfold Filtered.encode, extends. unfold_m. simpl.
  destruct (proc_run _ _ _) as [w' r]; simpl.
  destruct (exec_err _); simpl; rewrite <- ?app_assoc; simpl;
    eexists; split; reflexivity.
Qed.

Lemma getVideoCodec_execs file ff (st : state W) :
  exists evs,
    extends st (snd (Filtered.getVideoCodec file ff st)) evs /\
    execs evs =
      [EvCombinedOutput (probe_name (world st) ff) (Filtered.ffprobeArgs file)].
Proof.
  destruct (getVideoCodec_spec file ff st) as (evs & -> & Hexecs & _).
  by exists evs.
Qed.

Lemma convertVideoToAV1_execs file ff (st : state W) :
  exists evs,
    extends st (snd (Filtered.convertVideoToAV1 file ff st)) evs /\
    execs evs =
      EvCombinedOutput (probe_name (world st) ff) (Filtered.ffprobeArgs file) ::
      if skips (fst (Filtered.getVideoCodec file ff st)) then []
      else [EvRun ff (Filtered.ffmpegArgs file (Filtered.fullOutputPath file))].
Proof.
  unfold Filtered.convertVideoToAV1. unfold mbind at 1. unfold M_bind at 1.
  destruct (getVideoCodec_execs file ff st) as (evs1 & Hext1 & Hp1).
  destruct (Filtered.getVideoCodec file ff st) as [[codec|e] st1];
    cbn [fst snd skips] in *.
  - destruct (Filtered.is_av1 codec).
    + unfold_m. simpl. exists (evs1 ++ [EvLog (LogSkipDriver file)]). split.
      * unfold extends in *. simpl. by rewrite Hext1, app_assoc.
      * by rewrite execs_app, Hp1.
    + destruct (encode_execs file ff st1) as (evs2 & Hext2 & Hp2).
      exists (evs1 ++ evs2). split; [eapply extends_trans; eauto|].
      by rewrite execs_app, Hp1, Hp2.
  - unfold mbind, M_bind, log, emit.
    destruct (encode_execs file ff
                {| world := world st1;
                   trace := trace st1 ++ [EvLog (LogWarnCodec file e)] |})
      as (evs2 & Hext2 & Hp2).
    exists (evs1 ++ [EvLog (LogWarnCodec file e)] ++ evs2). split.
    + unfold extends in *. rewrite Hext2. simpl. by rewrite Hext1, <- !app_assoc.
    + by rewrite !execs_app, Hp1, Hp2.
Qed.

Lemma probe_name_cases (w : W) config :
  filtered_probe_name config (probe_name w (Filtered.FfmpegPath config)).
Proof.
  unfold filtered_probe_name, probe_name. destruct (IsNotExist _); auto.
Qed.

Lemma filtered_convert_one_execs config c file (st : state W) :
  exists evs,
    extends st (snd (Filtered.convert_one config c file st)) evs /\
    filtered_round config file (execs evs).
Proof.
  set (ff := Filtered.FfmpegPath config).
  destruct (getVideoCodec_execs file ff st) as (evs1 & Hext1 & Hp1).
  destruct (skips (fst (Filtered.getVideoCodec file ff st))) eqn:Hs.
  - destruct (fst (Filtered.getVideoCodec file ff st)) as [codec|] eqn:Hp;
      [|discriminate].
    simpl in Hs. rewrite (convert_one_skip _ _ _ _ _ Hp Hs).
    exists (evs1 ++ [EvLog (LogSkip file)]). split.
    + unfold extends in *. simpl. fold ff. by rewrite Hext1, app_assoc.
    + rewrite execs_app, Hp1. eexists. split; [apply probe_name_cases|].
      left. reflexivity.
  - rewrite (convert_one_convert _ _ _ _ Hs). unfold count. fold ff.
    destruct (convertVideoToAV1_execs file ff (snd (Filtered.getVideoCodec file ff st)))
      as (evs2 & Hext2 & Hp2).
    assert (filtered_round config file (execs (evs1 ++ evs2))) as Hround.
    { rewrite execs_app, Hp1, Hp2.
      eexists. split; [apply probe_name_cases|]. right.
      eexists. split; [apply probe_name_cases|].
      destruct (skips (fst (Filtered.getVideoCodec file ff
                              (snd (Filtered.getVideoCodec file ff st)))));
        [left|right]; reflexivity. }
    destruct (Filtered.convertVideoToAV1 _ _ _) as [[e|] st2]; cbn [fst snd] in *.
    + exists (evs1 ++ evs2 ++ [EvLog (LogConvertFailed file e)]). split.
      * unfold extends in *. simpl. by rewrite Hext2, Hext1, <- !app_assoc.
      * rewrite app_assoc, execs_app.
        change (execs [EvLog (LogConvertFailed file e)]) with (@nil event).
        by rewrite app_nil_r.
    + exists (evs1 ++ evs2). split; [eapply extends_trans; eauto|exact Hround].
Qed.

Lemma filtered_convert_all_execs config files : forall c (st : state W),
  exists evs blocks,
    extends st (snd (Filtered.convert_all config files c st)) evs /\
    execs evs = concat blocks /\
    Forall2 (filtered_round config) files blocks.
Proof.
  induction files as [|file files IH]; intros c st; simpl.
  - exists [], []. split; [apply extends_refl|]. split; [reflexivity|constructor].
  - unfold mbind, M_bind.
    destruct (filtered_convert_one_execs config c file st) as (evs1 & Hext1 & Hb1).
    destruct (Filtered.convert_one config c file st) as [c1 st1]. simpl in Hext1.
    destruct (IH c1 st1) as (evs2 & blocks & Hext2 & Hexecs2 & Hblocks).
    exists (evs1 ++ evs2), (execs evs1 :: blocks).
    split; [eapply extends_trans; eauto|].
    split; [by rewrite execs_app, Hexecs2|by constructor].
Qed.

Lemma filtered_convert_all_run_count config files : forall c (st : state W),
  exists evs,
    extends st (snd (Filtered.convert_all config files c st)) evs /\
    length (runs evs) <= length files.
Proof.
  induction files as [|file files IH]; intros c st; simpl.
  - exists []. split; [apply extends_refl|simpl; lia].
  - unfold mbind, M_bind.
    destruct (filtered_convert_one_runs config c file st) as (evs1 & Hext1 & Hruns1).
    cbv zeta in Hruns1.
    destruct (Filtered.convert_one config c file st) as [c1 st1]. simpl in Hext1.
    destruct (IH c1 st1) as (evs2 & Hext2 & Hruns2).
    exists (evs1 ++ evs2). split; [eapply extends_trans; eauto|].
    rewrite runs_app, length_app, Hruns1.
    destruct (_ || _); simpl; lia.
Qed.
End MainProcesses.

(** X14: the child processes of a whole run that got past the startup.
    The generic [main] starts the encoder once for every file the scan
    returned, in the order of the scan, and starts nothing else.  The child
    processes of the filtered [main] are, file by file in the order of the
    scan, one block for each file: a probe of the file; or two probes of it;
    or two probes of it and then the encoder for it.  A probe is started
    under the name ffprobe or under the path that [getVideoCodec] derives
    from the encoder's, with the fixed arguments.  So the encoder is
    started at most once per file and only for files the scan returned, and
    every file is probed once or twice. *)
Theorem main_child_processes W `{OS W} :
  (forall json (st st' : state W) config files,
     generic_past_startup json st config files st' ->
     exists evs,
       extends st (snd (Generic.main json st)) evs /\
       execs evs = generic_encoder_runs config files) /\
  (forall json (st st' : state W) config files,
     filtered_past_startup json st config files st' ->
     exists evs blocks,
       extends st (snd (Filtered.main json st)) evs /\
       execs evs = concat blocks /\
       Forall2 (filtered_round config) files blocks /\
       Forall (filtered_encoder_run_of config files) (runs evs) /\
       length (runs evs) <= length files /\
       length files <= length (probes evs) <= 2 * length files).
Proof.
  split; intros json st st' config files Hpast.
  - pose proof Hpast as (Hload & Hscan & ->). cbv zeta in Hscan.
    destruct (generic_startup_footprint json st) as (evs0 & Hlog & _ & Hext0).
    cbv zeta in Hext0. rewrite Hload in Hext0.
    pose proof (forallb_filter_nil _ _ _ startup_event_no_exec Hlog) as Hex0.
    destruct files as [|file files].
    + rewrite generic_main_eq. cbv zeta. rewrite Hload, Hscan. cbn [length Nat.eqb snd].
      exists (evs0 ++ [EvLog LogNoVideos; EvLog LogExit]).
      split; [unfold extends in *; cbn [trace]; by rewrite Hext0, <- app_assoc|].
      unfold execs in *. by rewrite filter_app, Hex0.
    + rewrite (generic_main_past_startup json st config (file :: files) _ Hpast)
        by discriminate.
      cbv zeta.
      match goal with
      | |- context [Generic.convert_all ?c ?f ?z ?s] =>
          destruct (generic_convert_all_runs c f z s) as (evs3 & Hext3 & Hruns3);
          destruct (generic_convert_all_probes c f z s) as (evs3' & Hext3' & Hp3);
          pose proof (extends_inj _ _ _ _ Hext3 Hext3') as <-;
          destruct (Generic.convert_all c f z s) as [cnt st3]
      end.
      cbn [fst snd] in *.
      eexists (evs0 ++ evs3 ++ [_; EvLog LogExit]).
      split; [unfold extends in *; cbn [trace];
              by rewrite Hext3, Hext0, <- !app_assoc|].
      fold (execs evs0) in Hex0.
      rewrite !execs_app, Hex0, (execs_no_probes _ Hp3), Hruns3. cbn [app].
      apply app_nil_r.
  - pose proof Hpast as (Hload & Hscan & ->). cbv zeta in Hscan.
    destruct (filtered_startup_footprint json st) as (evs0 & Hlog & _ & Hst0).
    cbv zeta in Hst0. rewrite Hload in Hst0.
    pose proof (forallb_filter_nil _ _ _ startup_event_no_run Hlog) as Hr0.
    pose proof (forallb_filter_nil _ _ _ startup_event_no_probe Hlog) as Hp0.
    pose proof (forallb_filter_nil _ _ _ startup_event_no_exec Hlog) as Hx0.
    fold (runs evs0) in Hr0. fold (probes evs0) in Hp0. fold (execs evs0) in Hx0.
    destruct files as [|file files].
    + rewrite filtered_main_eq. cbv zeta. rewrite Hload, Hscan, Hst0.
      cbn [length Nat.eqb snd].
      exists (evs0 ++ [EvLog LogNoVideos; EvLog LogExit]), [].
      split; [unfold extends; cbn [trace]; by rewrite <- app_assoc|].
      rewrite runs_app, probes_app, execs_app, Hr0, Hp0, Hx0.
      change (runs [EvLog LogNoVideos; EvLog LogExit]) with (@nil event).
      change (probes [EvLog LogNoVideos; EvLog LogExit]) with (@nil event).
      change (execs [EvLog LogNoVideos; EvLog LogExit]) with (@nil event).
      cbn [app length concat].
      split; [reflexivity|]. split; [constructor|]. split; [constructor|lia].
    + rewrite (filtered_main_past_startup json st config (file :: files) _ Hpast)
        by discriminate.
      cbv zeta.
      match goal with
      | |- context [Filtered.convert_all ?c ?f ?z ?s] =>
          destruct (filtered_convert_all_runs c f z s) as (evs3 & Hext3 & Hruns3);
          destruct (filtered_convert_all_probes c f z s) as (evs3' & Hext3' & Hp3);
          pose proof (extends_inj _ _ _ _ Hext3 Hext3') as <-;
          destruct (filtered_convert_all_run_count c f z s) as (evs3' & Hext3'' & Hn3);
          pose proof (extends_inj _ _ _ _ Hext3 Hext3'') as <-;
          destruct (filtered_convert_all_execs c f z s)
            as (evs3' & blocks & Hext3x & Hexecs3 & Hblocks);
          pose proof (extends_inj _ _ _ _ Hext3 Hext3x) as <-;
          destruct (Filtered.convert_all c f z s) as [cnt st3]
      end.
      cbn [fst snd] in *.
      eexists (evs0 ++ evs3 ++ [_; EvLog LogExit]), blocks.
      split; [unfold extends in *; cbn [trace];
              rewrite Hext3, Hst0; cbn [trace]; by rewrite <- !app_assoc|].
      rewrite !runs_app, !probes_app, !execs_app, Hr0, Hp0, Hx0. cbn [app].
      change (execs [EvLog (LogSummarySkipped (Filtered.successCount cnt)
                              (Filtered.errorCount cnt) (Filtered.skippedCount cnt));
                     EvLog LogExit]) with (@nil event).
      change (runs [EvLog (LogSummarySkipped (Filtered.successCount cnt)
                             (Filtered.errorCount cnt) (Filtered.skippedCount cnt));
                    EvLog LogExit]) with (@nil event).
      change (probes [EvLog (LogSummarySkipped (Filtered.successCount cnt)
                               (Filtered.errorCount cnt) (Filtered.skippedCount cnt));
                      EvLog LogExit]) with (@nil event).
      rewrite !app_nil_r. split; [exact Hexecs3|]. split; [exact Hblocks|].
      split; [exact Hruns3|]. split; [exact Hn3|exact Hp3].
Qed.

Lemma main_child_processes_witness :
  let m := with_children pc [exits 0 ""; exits 1 ""; exits 0 ""] in
  length (execs (trace (snd (Generic.main generic_json (boot m))))) = 5.
Proof.
  intros m.
  set (config := {| Generic.BasePath := "/media";
                    Generic.OutputPath := "/out/av1";
                    Generic.FfmpegPath := "ffmpeg" |}).
  set (st' := snd (Generic.findVideoFiles "/media"
                     (generic_loaded config
                        (snd (Generic.loadConfig generic_json "config.json"
                                (generic_started (boot m))))))).
  assert (generic_past_startup generic_json (boot m) config
            ["/media/2024-01-01/d.mp4"; "/media/20240101/a.mp4";
             "/media/20240101/b.MKV"; "/media/20240101/sub.mov/c.webm";
             "/media/notadate/b.mkv"] st') as Hpast
    by (repeat split; vm_compute; reflexivity).
  destruct (main_child_processes machine) as [Hg _].
  destruct (Hg generic_json (boot m) st' config _ Hpast) as (evs & Hext & Hexecs).
  assert (trace (snd (Generic.main generic_json (boot m))) = evs) as -> by exact Hext.
  rewrite Hexecs. reflexivity.
Defined.

(** ** Properties of the output path *)

Lemma ext_scan_head r : forall acc c rest,
  filepath.ext_scan r acc = c :: rest -> c = "."%char.
Proof.
  induction r as [|a r IH]; intros acc c rest; simpl; [discriminate|].
  destruct (filepath.IsPathSeparator a); [discriminate|].
  destruct (filepath.is_dot a) eqn:Ha.
  - intros [= <- _]. unfold filepath.is_dot, ascii_eqb in Ha.
    by apply Ascii.eqb_eq in Ha.
  - apply IH.
Qed.

Lemma Ext_head path c rest :
  chars (filepath.Ext path) = c :: rest -> c = "."%char.
Proof. unfold filepath.Ext. rewrite chars_str. apply ext_scan_head. Qed.

Lemma ext_scan_app r q : forall acc,
  path_spec.no_sep r ->
  (q = [] \/ exists q', q = filepath.Separator :: q') ->
  filepath.ext_scan (r ++ q) acc = filepath.ext_scan r acc.
Proof.
  intros acc Hr Hq. revert acc.
  induction Hr as [|c r Hc Hr IH]; intros acc; simpl.
  - destruct Hq as [->|[q' ->]]; reflexivity.
  - rewrite Hc. destruct (filepath.is_dot c); [reflexivity|]. apply IH.
Qed.

Lemma Ext_snoc p n :
  path_spec.no_sep n -> path_spec.ends_dir p ->
  filepath.Ext (str (p ++ n)) = filepath.Ext (str n).
Proof.
  intros Hn Hp. unfold filepath.Ext. rewrite !chars_str, rev_app_distr.
  rewrite ext_scan_app; [reflexivity|by apply Forall_rev|].
  destruct Hp as [->|[p' ->]]; [by left|].
  right. rewrite rev_app_distr. simpl. eauto.
Qed.

(** The text of a real element joined to a directory ends in the element. *)
Lemma Join_dir_name_chars dir name :
  path_spec.real_elem (chars name) ->
  exists p, path_spec.ends_dir p /\
            filepath.Join [dir; name] = str (p ++ chars name).
Proof.
  intros Hn. pose proof Hn as (Hn0 & _).
  assert (name <> "") as Hname by (by intros ->).
  unfold filepath.Join. case_bool_decide as Hdir.
  - subst dir. rewrite bool_decide_eq_false_2 by done.
    unfold strings.Join, filepath.Clean.
    rewrite (path_facts.clean_chars_real _ Hn).
    exists []. split; [by left|reflexivity].
  - unfold strings.Join, filepath.Clean.
    rewrite !path_facts.chars_app.
    change (chars (str [filepath.Separator])) with [filepath.Separator].
    destruct (chars dir) as [|c d] eqn:Hd.
    { destruct Hdir. by rewrite <- (str_chars dir), Hd. }
    change ((c :: d) ++ [filepath.Separator] ++ chars name)
      with ((c :: d) ++ filepath.Separator :: chars name).
    rewrite path_facts.clean_chars_snoc by done.
    eexists. split; [apply path_facts.prefix_of_ends_dir|reflexivity].
Qed.

Lemma Ext_outputFileName file : filepath.Ext (outputFileName file) = ".mkv".
Proof.
  unfold filepath.Ext, outputFileName. rewrite path_facts.chars_app, rev_app_distr.
  reflexivity.
Qed.

Lemma Ext_Join_outputFileName dir file :
  filepath.Base file <> "/" ->
  filepath.Ext (filepath.Join [dir; outputFileName file]) = ".mkv".
Proof.
  intros Hbase.
  pose proof (path_facts.outputFileName_real file Hbase) as Hreal.
  destruct (Join_dir_name_chars dir _ Hreal) as (p & Hp & ->).
  rewrite Ext_snoc; [|by destruct Hreal as (_ & _ & _ & ?)|exact Hp].
  rewrite str_chars. apply Ext_outputFileName.
Qed.

Lemma outputFileName_not_Base file : outputFileName file <> filepath.Base file.
Proof.
  intros Heq. pose proof (stem_Ext file) as Hstem.
  rewrite <- Heq in Hstem at 2. unfold outputFileName in Hstem.
  apply (f_equal chars) in Hstem. rewrite !path_facts.chars_app in Hstem.
  apply app_inv_head in Hstem.
  by apply (Ext_head (filepath.Base file) "_"%char (chars "av1.mkv")) in Hstem.
Qed.

Lemma stem_outputFileName file :
  strings.TrimSuffix (outputFileName file) ".mkv" = stem file +:+ "_av1".
Proof.
  pose proof (TrimSuffix_Ext (outputFileName file)) as Ht.
  rewrite Ext_outputFileName in Ht.
  apply (f_equal chars) in Ht. unfold outputFileName in Ht at 2.
  rewrite !path_facts.chars_app in Ht.
  change (chars "_av1.mkv") with (chars "_av1" ++ chars ".mkv") in Ht.
  rewrite app_assoc in Ht. apply app_inv_tail in Ht.
  rewrite <- path_facts.chars_app in Ht.
  rewrite <- (str_chars (strings.TrimSuffix _ _)), Ht. apply str_chars.
Qed.

(** X15: the encoder is never told to write over its input.  Unless the
    input path is made of slashes only, the file name of the output differs
    from the file name of the input, so the output path is not the input
    path, in whatever directory it lies.  Both variants. *)
Theorem output_is_not_the_input (file : string) :
  filepath.Base file <> "/" ->
  (forall out,
     filepath.Base (Generic.fullOutputPath file out) <> filepath.Base file /\
     Generic.fullOutputPath file out <> file) /\
  filepath.Base (Filtered.fullOutputPath file) <> filepath.Base file /\
  Filtered.fullOutputPath file <> file.
Proof.
  intros Hbase.
  pose proof (path_facts.outputFileName_real file Hbase) as Hreal.
  pose proof (outputFileName_not_Base file) as Hne.
  assert (forall dir,
            filepath.Base (filepath.Join [dir; outputFileName file]) <>
              filepath.Base file /\
            filepath.Join [dir; outputFileName file] <> file) as Hjoin.
  { intros dir.
    destruct (path_facts.Join_dir_name dir _ Hreal) as [Hb _].
    split; [by rewrite Hb|]. intros Heq. rewrite Heq in Hb. by destruct Hne. }
  split; [intros out; apply Hjoin|]. apply (Hjoin (filepath.Dir file)).
Qed.

Lemma output_is_not_the_input_witness :
  Filtered.fullOutputPath "/media/20240101/a_av1.mkv" =
    "/media/20240101/a_av1_av1.mkv" /\
  Filtered.fullOutputPath "/media/20240101/a_av1.mkv" <> "/media/20240101/a_av1.mkv".
Proof.
  assert (filepath.Base "/media/20240101/a_av1.mkv" <> "/") as Hbase
    by (vm_compute; discriminate).
  split; [vm_compute; reflexivity|].
  exact (proj2 (proj2 (output_is_not_the_input "/media/20240101/a_av1.mkv" Hbase))).
Defined.

(** X16: what the encoder writes is a video file for the scanner again.
    Unless the input path is made of slashes only, the output path has the
    extension .mkv, so a walk that passes it as an entry that is no
    directory selects it; and converting it once more gives the name
    <stem>_av1_av1.mkv.  In the filtered variant the output lies in the
    directory of the input, which a later run scans. *)
Theorem output_is_a_video_file (file : string) :
  filepath.Base file <> "/" ->
  (forall out, filepath.Ext (Generic.fullOutputPath file out) = ".mkv") /\
  filepath.Ext (Filtered.fullOutputPath file) = ".mkv" /\
  (forall d, IsDir d = false ->
     video_entry Filtered.is_video_ext (Filtered.fullOutputPath file) d = true /\
     forall out,
       video_entry Generic.is_video_ext (Generic.fullOutputPath file out) d = true) /\
  filepath.Dir (Filtered.fullOutputPath file) = filepath.Dir file /\
  outputFileName (Filtered.fullOutputPath file) = stem file +:+ "_av1_av1.mkv".
Proof.
  intros Hbase.
  pose proof (path_facts.outputFileName_real file Hbase) as Hreal.
  assert (forall dir, filepath.Ext (filepath.Join [dir; outputFileName file]) = ".mkv")
    as Hext by (intros dir; by apply Ext_Join_outputFileName).
  split; [intros out; apply Hext|]. split; [apply Hext|]. split; [|split].
  - intros d Hd. unfold video_entry. rewrite Hd. cbn [negb andb].
    split; [|intros out]; unfold Filtered.fullOutputPath, Generic.fullOutputPath;
      cbv zeta; fold (stem file); fold (outputFileName file); by rewrite Hext.
  - unfold Filtered.fullOutputPath. cbv zeta. fold (stem file).
    fold (outputFileName file).
    destruct (path_facts.Join_dir_name (filepath.Dir file) _ Hreal) as [_ ->].
    apply path_facts.Clean_Dir.
  - unfold Filtered.fullOutputPath. cbv zeta. fold (stem file).
    fold (outputFileName file).
    unfold outputFileName at 1. unfold stem at 1.
    destruct (path_facts.Join_dir_name (filepath.Dir file) _ Hreal) as [-> _].
    rewrite Ext_outputFileName, stem_outputFileName.
    generalize (stem file). intros s.
    induction s as [|c s IH]; [reflexivity|].
    change (String c ((s +:+ "_av1") +:+ "_av1.mkv") =
            String c (s +:+ "_av1_av1.mkv")).
    by rewrite IH.
Qed.

Lemma output_is_a_video_file_witness :
  Filtered.fullOutputPath "/media/20240101/b.MKV" = "/media/20240101/b_av1.mkv" /\
  filepath.Ext (Filtered.fullOutputPath "/media/20240101/b.MKV") = ".mkv".
Proof.
  assert (filepath.Base "/media/20240101/b.MKV" <> "/") as Hbase
    by (vm_compute; discriminate).
  split; [vm_compute; reflexivity|].
  exact (proj1 (proj2 (output_is_a_video_file "/media/20240101/b.MKV" Hbase))).
Defined.

(** ** Properties of the scanners *)

Lemma found_app evs1 evs2 : found (evs1 ++ evs2) = found evs1 ++ found evs2.
Proof. apply omap_app. Qed.

Section WalkLog.
Context {W : Type} `{OS W}.
Variable visit : string -> option DirEntry -> option oserror ->
                 list string -> M W (list string * walk_ret).

(** [visit] logs every path it appends, appends nothing else, and always
    returns nil. *)
Hypothesis visit_logs : forall path d err videoFiles st,
  exists evs,
    visit path d err videoFiles st =
      ((videoFiles ++ found evs, WalkNil),
       {| world := world st; trace := trace st ++ evs |}).

Lemma walkDir_logs n : forall path name videoFiles st,
  exists evs,
    walkDir (lift_visit visit) path name n (videoFiles, st) =
      ((videoFiles ++ found evs,
        {| world := world st; trace := trace st ++ evs |}), WalkNil).
Proof.
  induction n as [m|readErr entries IH] using node_nested_ind;
    intros path name videoFiles st.
  - cbn [walkDir]. unfold lift_visit at 1. cbn [fst snd].
    destruct (visit_logs path (Some (entry_of name (Leaf m))) None videoFiles st)
      as (evs & ->).
    by exists evs.
  - cbn [walkDir]. unfold lift_visit at 1. cbn [fst snd].
    destruct (visit_logs path (Some (entry_of name (Directory readErr entries)))
                None videoFiles st) as (evs1 & ->).
    set (d := entry_of name (Directory readErr entries)) in *.
    assert (exists evs2,
      match readErr with
      | Some e => lift_visit visit path (Some d) (Some e)
                    (videoFiles ++ found evs1,
                     {| world := world st; trace := trace st ++ evs1 |})
      | None => ((videoFiles ++ found evs1,
                  {| world := world st; trace := trace st ++ evs1 |}), WalkNil)
      end = ((videoFiles ++ found evs2,
              {| world := world st; trace := trace st ++ evs2 |}), WalkNil))
      as (evs2 & ->).
    { destruct readErr as [e|].
      - unfold lift_visit. cbn [fst snd].
        destruct (visit_logs path (Some d) (Some e) (videoFiles ++ found evs1)
                    {| world := world st; trace := trace st ++ evs1 |})
          as (evs & ->). cbn [world trace].
        exists (evs1 ++ evs). by rewrite found_app, !app_assoc.
      - eauto. }
    clear evs1.
    generalize evs2. clear evs2.
    induction IH as [|[name1 n1] es Hn1 _ IHes]; intros evs.
    + by exists evs.
    + cbn [snd] in Hn1.
      destruct (Hn1 (filepath.Join [path; name1]) name1 (videoFiles ++ found evs)
                  {| world := world st; trace := trace st ++ evs |})
        as (evs' & ->). cbn [world trace].
      rewrite <- !app_assoc, <- found_app.
      apply IHes.
Qed.

Lemma walk_collect_logs root view st :
  exists evs,
    walk_collect visit root view st =
      ((found evs, None), {| world := world st; trace := trace st ++ evs |}).
Proof.
  unfold walk_collect, WalkDir.
  destruct view as [e|n].
  - unfold lift_visit. cbn [fst snd].
    destruct (visit_logs root None (Some e) [] st) as (evs & ->).
    by exists evs.
  - destruct (walkDir_logs n root (filepath.Base root) [] st) as (evs & ->).
    by exists evs.
Qed.
End WalkLog.

Section ScanLog.
Context {W : Type} `{OS W}.

Lemma generic_visit_logs path d err videoFiles (st : state W) :
  exists evs,
    Generic.visit path d err videoFiles st =
      ((videoFiles ++ found evs, WalkNil),
       {| world := world st; trace := trace st ++ evs |}).
Proof.
  unfold Generic.visit. unfold_m.
  destruct err as [e|]; [|destruct d as [d|]]; cbn [world trace].
  - exists [EvLog (LogWalkError path e)]. cbn [found omap]. by rewrite app_nil_r.
  - destruct (negb (IsDir d)); [destruct (Generic.is_video_ext _)|].
    + by exists [EvLog (LogVideoFound path)].
    + exists []. cbn [found omap]. rewrite !app_nil_r. by destruct st.
    + exists []. cbn [found omap]. rewrite !app_nil_r. by destruct st.
  - exists []. cbn [found omap]. rewrite !app_nil_r. by destruct st.
Qed.

Lemma filtered_visit_logs path d err videoFiles (st : state W) :
  exists evs,
    Filtered.visit path d err videoFiles st =
      ((videoFiles ++ found evs, WalkNil),
       {| world := world st; trace := trace st ++ evs |}).
Proof.
  unfold Filtered.visit. unfold_m.
  destruct err as [e|]; [|destruct d as [d|]]; cbn [world trace].
  - exists [EvLog (LogWalkError path e)]. cbn [found omap]. by rewrite app_nil_r.
  - destruct (negb (IsDir d)); [destruct (Filtered.is_video_ext _)|].
    + by exists [EvLog (LogVideoFound path)].
    + exists []. cbn [found omap]. rewrite !app_nil_r. by destruct st.
    + exists []. cbn [found omap]. rewrite !app_nil_r. by destruct st.
  - exists []. cbn [found omap]. rewrite !app_nil_r. by destruct st.
Qed.

Lemma generic_scan_logs basePath (st : state W) :
  exists evs,
    Generic.findVideoFiles basePath st =
      (Ok (found evs),
       {| world := world st;
          trace := trace st ++ [EvLog (LogSearchStart basePath)] ++ evs ++
                   [EvLog (LogFoundTotal (length (found evs)))] |}).
Proof.
  unfold Generic.findVideoFiles.
  unfold mbind, M_bind, log, emit, Lstat. cbn [world trace].
  destruct (walk_collect_logs Generic.visit generic_visit_logs basePath
              (os_Lstat (world st) basePath)
              {| world := world st; trace := trace st ++ [EvLog (LogSearchStart basePath)] |})
    as (evs & ->).
  cbn [fst snd world trace]. unfold mret, M_ret.
  exists evs. by rewrite <- !app_assoc.
Qed.

Lemma findVideosInDir_logs dirPath (st : state W) :
  exists evs,
    Filtered.findVideosInDir dirPath st =
      (Ok (found evs), {| world := world st; trace := trace st ++ evs |}).
Proof.
  unfold Filtered.findVideosInDir.
  unfold mbind, M_bind, Lstat. cbn [world trace].
  destruct (walk_collect_logs Filtered.visit filtered_visit_logs dirPath
              (os_Lstat (world st) dirPath) st) as (evs & ->).
  cbn [fst snd]. by exists evs.
Qed.

Lemma collect_date_dirs_logs basePath entries : forall dirs (st : state W),
  exists evs,
    snd (Filtered.collect_date_dirs basePath entries dirs st) =
      {| world := world st; trace := trace st ++ evs |} /\
    found evs = [].
Proof.
  induction entries as [|d entries IH]; intros dirs st; simpl.
  - exists []. rewrite app_nil_r. by destruct st.
  - destruct (IsDir d && Filtered.isDateFormatDir (Name d)); [|apply IH].
    unfold_m. simpl.
    destruct (IH (dirs ++ [filepath.Join [basePath; Name d]])
                {| world := world st;
                   trace := trace st ++
                     [EvLog (LogDateDirFound (filepath.Join [basePath; Name d]))] |})
      as (evs & -> & Hf).
    simpl. rewrite <- app_assoc. eexists. split; [reflexivity|]. exact Hf.
Qed.

Lemma search_dirs_logs roots : forall files (st : state W),
  exists evs,
    Filtered.search_dirs roots files st =
      (files ++ found evs, {| world := world st; trace := trace st ++ evs |}).
Proof.
  induction roots as [|d roots IH]; intros files st; simpl.
  - exists []. rewrite !app_nil_r. by destruct st.
  - unfold mbind at 1. unfold M_bind at 1. unfold log, emit.
    unfold mbind at 1. unfold M_bind at 1.
    destruct (findVideosInDir_logs d
                {| world := world st;
                   trace := trace st ++ [EvLog (LogSearchingDir d)] |})
      as (evs1 & ->).
    cbn [world trace].
    destruct (IH (files ++ found evs1)
                {| world := world st;
                   trace := (trace st ++ [EvLog (LogSearchingDir d)]) ++ evs1 |})
      as (evs2 & ->).
    cbn [world trace].
    exists ([EvLog (LogSearchingDir d)] ++ evs1 ++ evs2).
    rewrite !found_app. cbn [found omap app]. by rewrite <- !app_assoc.
Qed.

Lemma filtered_scan_logs basePath (st : state W) files :
  fst (Filtered.findVideoFiles basePath st) = Ok files ->
  exists evs,
    extends st (snd (Filtered.findVideoFiles basePath st)) evs /\
    found evs = files.
Proof.
  unfold Filtered.findVideoFiles.
  unfold mbind, M_bind, log, emit, ReadDir, mret, M_ret. cbn [world trace].
  destruct (os_ReadDir (world st) basePath) as [children [e|]]; cbn [fst snd];
    [discriminate|].
  pose proof (collect_date_dirs_spec basePath children []
                {| world := world st;
                   trace := trace st ++ [EvLog (LogDateSearchStart basePath)] |})
    as (evs0 & Heq & _).
  destruct (collect_date_dirs_logs basePath children []
              {| world := world st;
                 trace := trace st ++ [EvLog (LogDateSearchStart basePath)] |})
    as (evs1 & Hst & Hf1).
  rewrite Heq in Hst |- *. cbn [snd app world trace] in *.
  injection Hst as Hevs. apply app_inv_head in Hevs. subst evs0.
  destruct (date_roots basePath children) as [|d roots].
  - cbn [length Nat.eqb fst snd world trace]. intros [= <-].
    eexists. split; [unfold extends; cbn [trace]; by rewrite <- !app_assoc|].
    rewrite !found_app, Hf1. reflexivity.
  - cbn [length Nat.eqb].
    destruct (search_dirs_logs (d :: roots) []
                {| world := world st;
                   trace := (trace st ++ [EvLog (LogDateSearchStart basePath)]) ++ evs1 |})
      as (evs2 & ->).
    cbn [fst snd world trace app]. intros [= <-].
    eexists. split; [unfold extends; cbn [trace]; by rewrite <- !app_assoc|].
    rewrite !found_app, Hf1. cbn [found omap app]. by rewrite app_nil_r.
Qed.
End ScanLog.

Lemma scan_event_no_failure e : is_scan_event e = true -> is_search_failure e = false.
Proof. by destruct e as [[]| | |]. Qed.

Lemma startup_event_no_failure e :
  is_startup_event e = true -> is_search_failure e = false.
Proof. by destruct e as [[]| | |]. Qed.

(** X17: the filtered scan fails only at its root.  [findVideosInDir]
    returns no error, whatever [os.Lstat] and the reads of the walk report:
    a date directory that cannot be examined gives no file and no warning.
    [findVideoFiles] returns an error exactly when [os.ReadDir] of the root
    does; then it has logged its first line only and searched nothing. *)
Theorem filtered_scan_fails_only_at_the_root W `{OS W} :
  (forall dirPath (st : state W),
     fst (Filtered.findVideosInDir dirPath st) = Ok (scan (world st) dirPath)) /\
  (forall basePath (st : state W),
     let r := Filtered.findVideoFiles basePath st in
     ((exists e, fst r = Err e) <->
      snd (os_ReadDir (world st) basePath) <> None) /\
     (forall e,
        snd (os_ReadDir (world st) basePath) = Some e ->
        r = (Err (ReadDirError basePath e),
             {| world := world st;
                trace := trace st ++ [EvLog (LogDateSearchStart basePath)] |})) /\
     exists evs,
       extends st (snd r) evs /\ filter is_search_failure evs = []).
Proof.
  split.
  - intros dirPath st.
    destruct (findVideosInDir_spec dirPath st) as (evs & -> & _). reflexivity.
  - intros basePath st r. split; [|split].
    + subst r. rewrite filtered_scan_result.
      destruct (snd (os_ReadDir (world st) basePath)) as [e|].
      * split; [discriminate|]. intros _. by eexists.
      * split; [intros [e He]; discriminate|]. done.
    + intros e He. subst r. unfold Filtered.findVideoFiles.
      unfold mbind, M_bind, log, emit, ReadDir, mret, M_ret. cbn [world trace].
      destruct (os_ReadDir (world st) basePath) as [children readErr].
      cbn [snd] in *. by subst readErr.
    + destruct (filtered_scan_footprint basePath st) as (evs & Hsnd & Hlog).
      exists evs. subst r. rewrite Hsnd. split; [reflexivity|].
      apply (forallb_filter_nil _ _ _ scan_event_no_failure Hlog).
Qed.

(** X18: in the generic variant a root that the walk cannot enter is no
    error.  When [loadConfig] succeeds and [os.Lstat] then fails for
    [BasePath], [main] logs the error of the walk and the total of 0 files,
    says that there is nothing to convert and exits with 0: it starts no
    child process and does not take the fatal branch. *)
Theorem generic_main_with_unreadable_root W `{OS W}
    (json : string -> option Generic.Config) (st : state W)
    (config : Generic.Config) (e : oserror) :
  let l := Generic.loadConfig json "config.json" (generic_started st) in
  fst l = Ok config ->
  os_Lstat (world (snd l)) (Generic.BasePath config) = inl e ->
  Generic.main json st =
    (0%Z,
     {| world := world (snd l);
        trace := trace (snd l) ++
          [EvLog (LogConfigLoaded [Generic.BasePath config;
                                   Generic.OutputPath config;
                                   Generic.FfmpegPath config]);
           EvLog (LogSearchStart (Generic.BasePath config));
           EvLog (LogWalkError (Generic.BasePath config) e);
           EvLog (LogFoundTotal 0);
           EvLog LogNoVideos;
           EvLog LogExit] |}).
Proof.
  intros l Hload Hlstat. rewrite generic_main_eq. cbv zeta. fold l. rewrite Hload.
  assert (Generic.findVideoFiles (Generic.BasePath config)
            (generic_loaded config (snd l)) =
          (Ok [],
           {| world := world (snd l);
              trace := trace (snd l) ++
                [EvLog (LogConfigLoaded [Generic.BasePath config;
                                         Generic.OutputPath config;
                                         Generic.FfmpegPath config]);
                 EvLog (LogSearchStart (Generic.BasePath config));
                 EvLog (LogWalkError (Generic.BasePath config) e);
                 EvLog (LogFoundTotal 0)] |})) as ->.
  { unfold Generic.findVideoFiles, walk_collect, WalkDir, lift_visit, Generic.visit.
    unfold_m. cbn [generic_loaded world trace]. rewrite Hlstat.
    cbn [fst snd world trace length]. by rewrite <- !app_assoc. }
  cbn [fst snd length Nat.eqb world trace]. by rewrite <- !app_assoc.
Qed.

Lemma generic_main_with_unreadable_root_witness :
  let config := {| Generic.BasePath := "/";
                   Generic.OutputPath := "/media";
                   Generic.FfmpegPath := "ffmpeg" |} in
  let r := Generic.main (const_json config) (boot pc) in
  fst r = 0%Z /\
  execs (trace (snd r)) = [] /\
  last (trace (snd r)) = Some (EvLog LogExit).
Proof.
  intros config r.
  assert (fst (Generic.loadConfig (const_json config) "config.json"
                 (generic_started (boot pc))) = Ok config) as Hload
    by (vm_compute; reflexivity).
  assert (os_Lstat
            (world (snd (Generic.loadConfig (const_json config) "config.json"
                           (generic_started (boot pc)))))
            (Generic.BasePath config) = inl ErrNotExist) as Hlstat
    by (vm_compute; reflexivity).
  pose proof (generic_main_with_unreadable_root machine (const_json config)
                (boot pc) config ErrNotExist Hload Hlstat) as Hmain.
  subst r. rewrite Hmain. split; [reflexivity|]. split; vm_compute; reflexivity.
Defined.

(** X19: the log of a scan tells what the scan returns.  The files a scan
    returns are the paths of its found lines, in the order of the lines:
    every returned file is logged once and nothing else is.  The generic
    scan ends with the line that gives their number. *)
Theorem scan_logs_what_it_returns W `{OS W} :
  (forall basePath (st : state W),
     exists evs,
       extends st (snd (Generic.findVideoFiles basePath st)) evs /\
       fst (Generic.findVideoFiles basePath st) = Ok (found evs) /\
       last evs = Some (EvLog (LogFoundTotal (length (found evs))))) /\
  (forall dirPath (st : state W),
     exists evs,
       extends st (snd (Filtered.findVideosInDir dirPath st)) evs /\
       fst (Filtered.findVideosInDir dirPath st) = Ok (found evs)) /\
  (forall basePath (st : state W) files,
     fst (Filtered.findVideoFiles basePath st) = Ok files ->
     exists evs,
       extends st (snd (Filtered.findVideoFiles basePath st)) evs /\
       found evs = files).
Proof.
  split; [|split].
  - intros basePath st.
    destruct (generic_scan_logs basePath st) as (evs & ->).
    exists ([EvLog (LogSearchStart basePath)] ++ evs ++
            [EvLog (LogFoundTotal (length (found evs)))]).
    split; [reflexivity|].
    rewrite !found_app. cbn [found omap fst]. rewrite app_nil_r. cbn [app].
    split; [reflexivity|].
    change (EvLog (LogSearchStart basePath) :: evs ++ [EvLog (LogFoundTotal (length (found evs)))])
      with ((EvLog (LogSearchStart basePath) :: evs) ++
            [EvLog (LogFoundTotal (length (found evs)))]).
    by rewrite last_snoc.
  - intros dirPath st.
    destruct (findVideosInDir_logs dirPath st) as (evs & ->).
    by exists evs.
  - apply filtered_scan_logs.
Qed.

(** ** The test for AV1 *)

Lemma has_prefix_spec p l :
  strings.has_prefix p l = true <-> exists post, l = p ++ post.
Proof.
  revert l. induction p as [|a p IH]; intros l; simpl.
  - split; [intros _; by exists l|by destruct l].
  - destruct l as [|b l].
    + split; [discriminate|]. intros [post Hpost]. discriminate.
    + rewrite andb_true_iff, IH. unfold ascii_eqb. rewrite Ascii.eqb_eq. split.
      * intros [-> [post ->]]. by exists post.
      * intros [post [= -> ->]]. split; [reflexivity|by exists post].
Qed.

Lemma contains_spec sub l :
  strings.contains sub l = true <-> exists pre post, l = pre ++ sub ++ post.
Proof.
  induction l as [|c l IH]; simpl.
  - rewrite orb_false_r, has_prefix_spec. split.
    + intros [post Hpost]. by exists [], post.
    + intros (pre & post & Heq). symmetry in Heq.
      apply app_eq_nil in Heq as [-> Heq]. by exists post.
  - rewrite orb_true_iff, has_prefix_spec, IH. split.
    + intros [[post Hpost]|(pre & post & ->)].
      * by exists [], post.
      * by exists (c :: pre), post.
    + intros (pre & post & Heq). destruct pre as [|a pre].
      * left. by exists post.
      * right. injection Heq as -> ->. by exists pre, post.
Qed.

(** X20: the test that makes the program skip a file.  A codec is taken
    for AV1 exactly when its name, with the ASCII capitals lowered, holds
    the text av1 somewhere: the test does not depend on the case of the
    name, and it also accepts a longer name around av1. *)
Theorem is_av1_is_a_substring_test (codec : string) :
  (Filtered.is_av1 codec = true <->
   exists pre post, chars (strings.ToLower codec) = pre ++ chars "av1" ++ post) /\
  Filtered.is_av1 (strings.ToLower codec) = Filtered.is_av1 codec /\
  (forall pre post,
     Filtered.is_av1 (pre +:+ "av1" +:+ post) = true /\
     Filtered.is_av1 (pre +:+ "AV1" +:+ post) = true).
Proof.
  split; [|split].
  - unfold Filtered.is_av1, strings.Contains. apply contains_spec.
  - unfold Filtered.is_av1. by rewrite utf8_facts.ToLower_idempotent.
  - intros pre post.
    assert (forall a mid,
              Forall (fun a => (utf8.byte a < utf8.RuneSelf)%Z) (a :: mid) ->
              map (fun a => utf8.of_byte (unicode.ToLower (utf8.byte a))) (a :: mid) =
                chars "av1" ->
              Filtered.is_av1 (pre +:+ str (a :: mid) +:+ post) = true) as Hmid.
    { intros a mid Hascii Hlow. unfold Filtered.is_av1, strings.Contains.
      apply contains_spec.
      destruct (utf8_facts.ToLower_around_ascii (chars pre) a mid (chars post) Hascii)
        as (pre' & post' & Heq).
      rewrite !str_app, !str_chars, Hlow in Heq. eauto. }
    split.
    + apply (Hmid "a"%char (chars "v1")); [|reflexivity].
      repeat constructor.
    + apply (Hmid "A"%char (chars "V1")); [|reflexivity].
      repeat constructor.
Qed.
